(** * Alert-driven bracket order lifecycle: a shallow embedding

    The development follows the Python sources file by file.  Each module
    is named after the source file it embeds ([Main] for main.py,
    [MainFixed] for main_fixed.py, [EnhancedMain] for enhanced_main.py,
    [TradovateApi] for tradovate_api.py) and keeps the names of the Python
    functions.  Broker traffic is modelled by explicit state passing over a
    [world] that owns the broker's behaviour, the event-loop clock and a
    trace of every request, sleep and warning. *)

From stdpp Require Import base gmap strings list pretty.
From Stdlib Require Import ZArith Lia Ascii String Sorted.
From Stdlib Require Import Floats.SpecFloat.

Open Scope string_scope.
Open Scope list_scope.
Open Scope Z_scope.

(** ** Python values and the few built-ins the handlers rely on *)

Module Py.

(** The values an alert payload can carry after [req.json()] or after
    [parse_alert_to_tradovate_json]: [None], booleans, integers,
    binary64 floats and strings. *)
Inductive pyval :=
| PNone
| PBool (b : bool)
| PInt (n : Z)
| PFloat (x : spec_float)
| PStr (s : string).

#[export] Instance spec_float_eq_dec : EqDecision spec_float.
Proof. solve_decision. Defined.

#[export] Instance pyval_eq_dec : EqDecision pyval.
Proof. solve_decision. Defined.

(** [d.get(k)]: the value under [k], [None] when the key is missing. *)
Definition get (d : gmap string pyval) (k : string) : pyval :=
  default PNone (d !! k).

(** [k in d] *)
Definition contains (d : gmap string pyval) (k : string) : bool :=
  bool_decide (is_Some (d !! k)).

(** Truth value of an object, as used by [if x:] and [not x]. *)
Definition truthy (v : pyval) : bool :=
  match v with
  | PNone => false
  | PBool b => b
  | PInt n => negb (n =? 0)
  | PFloat (S754_zero _) => false
  | PFloat _ => true
  | PStr s => negb (String.eqb s EmptyString)
  end.

(** [str.lower] and [str.capitalize] on ASCII text. *)
Definition lower_char (c : ascii) : ascii :=
  let n := nat_of_ascii c in
  if ((65 <=? n) && (n <=? 90))%nat then ascii_of_nat (n + 32) else c.

Definition upper_char (c : ascii) : ascii :=
  let n := nat_of_ascii c in
  if ((97 <=? n) && (n <=? 122))%nat then ascii_of_nat (n - 32) else c.

Fixpoint lower (s : string) : string :=
  match s with
  | EmptyString => EmptyString
  | String c r => String (lower_char c) (lower r)
  end.

Definition capitalize (s : string) : string :=
  match s with
  | EmptyString => EmptyString
  | String c r => String (upper_char c) (lower r)
  end.

(** The library routines the sources call and that are taken as given:
    [json.dumps(d, sort_keys=True)] on a dict given by its items,
    [hashlib.sha256(s.encode()).hexdigest()], and the parsing half of
    [float(s)] and of [int(s)] ([None] stands for [ValueError]). *)
Class Runtime := {
  json_dumps_sort_keys : list (string * pyval) → string;
  sha256_hexdigest : string → string;
  float_of_str : string → option spec_float;
  int_of_str : string → option Z;
}.

(** [float(v)]; [None] stands for the [TypeError]/[ValueError]/[OverflowError]
    the call raises. *)
Definition float_of_int (n : Z) : option spec_float :=
  match binary_normalize 53 1024 n 0 false with
  | S754_infinity _ => None
  | x => Some x
  end.

Definition float `{Runtime} (v : pyval) : option spec_float :=
  match v with
  | PNone => None
  | PBool b => float_of_int (if b then 1 else 0)
  | PInt n => float_of_int n
  | PFloat x => Some x
  | PStr s => float_of_str s
  end.

(** [int(v)]: floats are truncated towards zero. *)
Definition int_of_float (x : spec_float) : option Z :=
  match x with
  | S754_zero _ => Some 0
  | S754_finite s m e =>
      let mag := if 0 <=? e then Z.pos m * 2 ^ e else Z.pos m / 2 ^ (- e) in
      Some (if s then - mag else mag)
  | _ => None
  end.

Definition int `{Runtime} (v : pyval) : option Z :=
  match v with
  | PNone => None
  | PBool b => Some (if b then 1 else 0)
  | PInt n => Some n
  | PFloat x => int_of_float x
  | PStr s => int_of_str s
  end.

(** [a == b].  Numbers compare by value across [bool], [int] and
    [float]; values of unrelated types are never equal. *)
Definition int_eq_float (n : Z) (x : spec_float) : bool :=
  match x with
  | S754_zero _ => n =? 0
  | S754_finite s m e =>
      let sm := if s then Z.neg m else Z.pos m in
      if 0 <=? e then n =? sm * 2 ^ e else n * 2 ^ (- e) =? sm
  | _ => false
  end.

Definition as_int (v : pyval) : option Z :=
  match v with
  | PBool b => Some (if b then 1 else 0)
  | PInt n => Some n
  | _ => None
  end.

Definition py_eq (a b : pyval) : bool :=
  match a, b with
  | PNone, PNone => true
  | PStr s, PStr t => String.eqb s t
  | PFloat x, PFloat y => SFeqb x y
  | PFloat x, _ => match as_int b with Some n => int_eq_float n x | None => false end
  | _, PFloat y => match as_int a with Some n => int_eq_float n y | None => false end
  | _, _ =>
      match as_int a, as_int b with
      | Some n, Some m => n =? m
      | _, _ => false
      end
  end.

(** [v in (x1, ..., xn)] *)
Definition py_in (v : pyval) (xs : list pyval) : bool := existsb (py_eq v) xs.

(** [v is None] *)
Definition is_none (v : pyval) : bool :=
  match v with PNone => true | _ => false end.

End Py.
Import Py.

(** ** Broker traffic: requests, replies, and the world the handlers run in *)

Module Net.

(** A JSON object as the sources read it: a flat dict of scalars. *)
Abbreviation dict := (gmap string pyval).

(** What [response.json()] yields.  [JInvalid] is a body that is not
    JSON, for which [.json()] raises. *)
Inductive json :=
| JObj (d : dict)
| JList (l : list dict)
| JInvalid.

(** The endpoints the sources call.  [POST_order_cancel] is the bare
    [/order/cancel/<id>] used by the handlers; [POST_order_cancelorder]
    is the adapter's call carrying the [{"orderId": ...}] payload. *)
Inductive request :=
| POST_auth_accesstokenrequest
| GET_account_list
| GET_order_list
| GET_position_list
| GET_order (order_id : pyval)
| POST_order_cancel (order_id : pyval)
| POST_order_cancelorder (payload : dict)
| POST_order_cancelallorders (payload : dict)
| POST_position_closeposition (payload : dict)
| POST_order_placeorder (payload : dict)
| POST_order_placeOSO (payload bracket1 : dict).

Record http_response := {
  status_code : Z;
  retry_after : option string;   (* the Retry-After header, if sent *)
  body : json;
}.

(** The fate of one call: an HTTP response, or a transport failure that
    httpx raises. *)
Inductive reply :=
| Answer (r : http_response)
| Failure.

Inductive exn :=
| HTTPStatusError (r : http_response)      (* from [raise_for_status] *)
| HTTPException (code : Z) (detail : string)
| PyError (kind : string).                 (* KeyError, ValueError, transport errors, ... *)

(** Warnings and errors written to the log; informational lines are not
    recorded. *)
Inductive logline :=
| LogStillOpen (symbol : pyval) (ids statuses : list pyval)
| LogCancelFailed (order_id : pyval)
| LogWaitTimeout (symbol : pyval)
| LogMonitorTimeout (symbol : pyval)
| LogNoActiveOrders
| LogMonitorError
| LogRateLimited (retry_after : Z)
| LogMaxRetries
| LogWarning (text : string)
| LogError (text : string).

Inductive event :=
| Call (r : request) (a : reply)
| Slept (ms : Z)
| Logged (l : logline)
| TradeCompleted (symbol : pyval) (dir : pyval).

(** The adapter object [client] of tradovate_api.py. *)
Record client_state := {
  access_token : pyval;
  account_id : pyval;
  account_spec : pyval;
}.

(** The world: the broker's behaviour ([broker n r] is its reply to the
    [n]-th call when that call is [r], with the time the call took), the
    process environment read by [os.getenv], the number of calls made so
    far, the event-loop clock in milliseconds, the trace (newest event
    first), and the adapter. *)
Record world := {
  broker : nat → request → reply * Z;
  environ : string → option string;
  calls : nat;
  clock : Z;
  trace : list event;
  client : client_state;
}.

Inductive outcome (A : Type) :=
| Ret (a : A)
| Raise (e : exn)
| Spin.            (* the loop is still running when the fuel runs out *)
Arguments Ret {A} a.
Arguments Raise {A} e.
Arguments Spin {A}.

Definition M (A : Type) : Type := world → outcome A * world.

#[export] Instance M_ret : MRet M := λ A a w, (Ret a, w).
#[export] Instance M_bind : MBind M := λ A B f m w,
  match m w with
  | (Ret a, w') => f a w'
  | (Raise e, w') => (Raise e, w')
  | (Spin, w') => (Spin, w')
  end.

Definition raise {A} (e : exn) : M A := λ w, (Raise e, w).
Definition spin {A} : M A := λ w, (Spin, w).

(** [try: m except Exception as e: h e] *)
Definition try_except {A} (m : M A) (h : exn → M A) : M A := λ w,
  match m w with
  | (Raise e, w') => h e w'
  | r => r
  end.

(** Running [m] up to the point where it raises: the exception becomes a
    value, so the caller decides which [except] clause takes it while the
    effects made so far stay in place. *)
Definition attempt {A} (m : M A) : M (exn + A) := λ w,
  match m w with
  | (Ret a, w') => (Ret (inr a), w')
  | (Raise e, w') => (Ret (inl e), w')
  | (Spin, w') => (Spin, w')
  end.

(** World updates: one more event on the trace, the clock moved on by a
    sleep, the call [r] made and answered, the adapter replaced. *)
Definition record (e : event) (w : world) : world :=
  {| broker := broker w; environ := environ w; calls := calls w; clock := clock w;
     trace := e :: trace w; client := client w |}.

Definition slept (ms : Z) (w : world) : world :=
  {| broker := broker w; environ := environ w; calls := calls w;
     clock := clock w + Z.max 0 ms;
     trace := Slept ms :: trace w; client := client w |}.

Definition after_call (w : world) (r : request) : world :=
  {| broker := broker w; environ := environ w; calls := S (calls w);
     clock := clock w + Z.max 0 (broker w (calls w) r).2;
     trace := Call r (broker w (calls w) r).1 :: trace w; client := client w |}.

Definition with_client (c : client_state) (w : world) : world :=
  {| broker := broker w; environ := environ w; calls := calls w; clock := clock w;
     trace := trace w; client := c |}.

Definition emit (e : event) : M unit := λ w, (Ret (), record e w).

Definition log (l : logline) : M unit := emit (Logged l).

(** One HTTP call: the broker answers, the clock moves on by the time the
    call took, the exchange is recorded. *)
Definition send (r : request) : M http_response := λ w,
  match (broker w (calls w) r).1 with
  | Answer resp => (Ret resp, after_call w r)
  | Failure => (Raise (PyError "httpx.TransportError"), after_call w r)
  end.

(** [await asyncio.sleep(ms / 1000)] *)
Definition sleep (ms : Z) : M unit := λ w, (Ret (), slept ms w).

(** [asyncio.get_event_loop().time()], in milliseconds *)
Definition loop_time : M Z := λ w, (Ret (clock w), w).

Definition get_client : M client_state := λ w, (Ret (client w), w).

(** [os.getenv(name)] *)
Definition getenv (name : string) : M (option string) := λ w, (Ret (environ w name), w).

Definition set_client (c : client_state) : M unit := λ w, (Ret (), with_client c w).

(** [response.raise_for_status()]: anything but a 2xx status raises. *)
Definition is_success (code : Z) : bool := (200 <=? code) && (code <=? 299).

Definition raise_for_status (r : http_response) : M unit :=
  if is_success (status_code r) then mret () else raise (HTTPStatusError r).

(** [response.json()] read as a list of objects, or as one object. *)
Definition json_list (r : http_response) : M (list dict) :=
  match body r with
  | JList l => mret l
  | JObj d => if decide (d = ∅) then mret [] else raise (PyError "AttributeError")
  | JInvalid => raise (PyError "JSONDecodeError")
  end.

Definition json_obj (r : http_response) : M dict :=
  match body r with
  | JObj d => mret d
  | JList _ => raise (PyError "AttributeError")
  | JInvalid => raise (PyError "JSONDecodeError")
  end.

Definition json_any (r : http_response) : M json :=
  match body r with
  | JInvalid => raise (PyError "JSONDecodeError")
  | b => mret b
  end.

(** [result.get(k)] on whatever [.json()] returned. *)
Definition json_get (b : json) (k : string) : M pyval :=
  match b with
  | JObj d => mret (get d k)
  | _ => raise (PyError "AttributeError")
  end.

(** [for x in xs: body x], run for its effects. *)
Fixpoint for_each {A} (xs : list A) (f : A → M unit) : M unit :=
  match xs with
  | [] => mret ()
  | x :: rest => f x ;; for_each rest f
  end.

(** *** Reading traces *)

(** The payloads of the order placements in a trace, oldest first when the
    trace is. *)
Fixpoint placed (tr : list event) : list dict :=
  match tr with
  | [] => []
  | Call (POST_order_placeorder p) _ :: rest => p :: placed rest
  | _ :: rest => placed rest
  end.

(** The status an order query returned, if it returned one. *)
Definition reported_status (e : event) : option pyval :=
  match e with
  | Call (GET_order _) (Answer resp) =>
      if is_success (status_code resp) then
        match body resp with
        | JObj d => Some (get d "status")
        | _ => None
        end
      else None
  | _ => None
  end.

(** An order query for [order_id] that returned a status accepted by
    [is_filled]. *)
Definition reports (is_filled : pyval → bool) (order_id : pyval) (e : event) : bool :=
  match e with
  | Call (GET_order id) _ =>
      bool_decide (id = order_id)
      && match reported_status e with
         | Some st => is_filled st
         | None => false
         end
  | _ => false
  end.

(** A trace, oldest event first, in which the payload [stop] is placed
    only after an event recognised by [observed]; [seen] says whether
    one already has been. *)
Fixpoint held_until_fill (observed : event → bool) (stop : dict) (seen : bool)
    (tr : list event) : Prop :=
  match tr with
  | [] => True
  | e :: rest =>
      match e with
      | Call (POST_order_placeorder p) _ =>
          (p = stop → seen = true) ∧ held_until_fill observed stop seen rest
      | _ => held_until_fill observed stop (seen || observed e) rest
      end
  end.

(** [wp m w Q]: running [m] from [w] ends in an outcome and a world that
    satisfy [Q]. *)
Definition wp {A} (m : M A) (w : world) (Q : outcome A → world → Prop) : Prop :=
  Q (m w).1 (m w).2.

End Net.
Import Net.

(** ** tradovate_api.py: the broker adapter *)

Module TradovateApi.

Section Adapter.
Context `{Runtime}.

Definition set_access_token (v : pyval) : M unit :=
  c ← get_client;
  set_client {| access_token := v; account_id := account_id c;
                account_spec := account_spec c |}.

Definition set_account_id (v : pyval) : M unit :=
  c ← get_client;
  set_client {| access_token := access_token c; account_id := v;
                account_spec := account_spec c |}.

Definition set_account_spec (v : pyval) : M unit :=
  c ← get_client;
  set_client {| access_token := access_token c; account_id := account_id c;
                account_spec := v |}.

Definition max_retries : nat := 5.
Definition backoff_factor : Z := 2.

(** The body of the [try] block of [authenticate]: one token request
    followed by the account listing. *)
Definition authenticate_attempt : M unit :=
  r ← send POST_auth_accesstokenrequest;
  raise_for_status r;;
  data ← json_obj r;
  match data !! "accessToken" with
  | None => raise (PyError "KeyError")
  | Some token =>
      set_access_token token;;
      acc_res ← send GET_account_list;
      raise_for_status acc_res;;
      account_data ← json_list acc_res;
      match account_data with
      | [] => raise (PyError "IndexError")
      | first :: _ =>
          match first !! "id" with
          | None => raise (PyError "KeyError")
          | Some id =>
              set_account_id id;;
              set_account_spec (get first "name");;
              env_id ← getenv "TRADOVATE_ACCOUNT_ID";
              match int (from_option PStr id env_id) with
              | None => raise (PyError "ValueError")
              | Some n =>
                  set_account_id (PInt n);;
                  env_spec ← getenv "TRADOVATE_ACCOUNT_SPEC";
                  set_account_spec (from_option PStr (get first "name") env_spec);;
                  c ← get_client;
                  if negb (truthy (account_spec c)) then
                    raise (HTTPException 400 "Failed to retrieve accountSpec")
                  else if negb (truthy (account_id c)) then
                    raise (HTTPException 400 "Failed to retrieve account ID")
                  else mret ()
              end
          end
      end
  end.

(** The [for attempt in range(max_retries)] loop of [authenticate],
    entered at iteration [attempt] with [remaining] iterations to go,
    and the two statements after the loop. *)
Fixpoint authenticate_from (attempt_no : nat) (remaining : nat) : M unit :=
  match remaining with
  | O =>
      log LogMaxRetries;;
      raise (HTTPException 429 "Authentication failed after maximum retries")
  | S k =>
      r ← attempt authenticate_attempt;
      match r with
      | inr _ => mret ()
      | inl (HTTPStatusError resp) =>
          if status_code resp =? 429 then
            let fallback := PInt (backoff_factor * (Z.of_nat attempt_no + 1)) in
            match int (from_option PStr fallback (retry_after resp)) with
            | None => raise (PyError "ValueError")
            | Some delay =>
                log (LogRateLimited delay);;
                sleep (delay * 1000);;
                authenticate_from (S attempt_no) k
            end
          else raise (HTTPException (status_code resp) "Authentication failed")
      | inl _ =>
          raise (HTTPException 500 "Internal server error during authentication")
      end
  end.

Definition authenticate : M unit := authenticate_from 0 max_retries.

(** [if not self.access_token: await self.authenticate()] *)
Definition ensure_token : M unit :=
  c ← get_client;
  if negb (truthy (access_token c)) then authenticate else mret ().

(** [place_order(symbol, action, quantity, order_data)]; [order_data]
    is [None] when the caller passes no payload.  The default payload
    is only built when [order_data] is falsy, and only then is
    [action.capitalize()] evaluated. *)
Definition default_payload (symbol action quantity : pyval) : M dict :=
  c ← get_client;
  match action with
  | PStr a =>
      mret ({[ "accountId" := account_id c;
               "action" := PStr (capitalize a);
               "symbol" := symbol;
               "orderQty" := quantity;
               "orderType" := PStr "limit";
               "timeInForce" := PStr "GTC";
               "isAutomated" := PBool true ]} : dict)
  | _ => raise (PyError "AttributeError")
  end.

Definition place_order (symbol action quantity : pyval)
    (order_data : option dict) : M json :=
  ensure_token;;
  order_payload ←
    match order_data with
    | Some d => if decide (d = ∅) then default_payload symbol action quantity
                else mret d
    | None => default_payload symbol action quantity
    end;
  if negb (truthy (get order_payload "accountId")) then
    raise (HTTPException 400 "Missing accountId in order payload")
  else
    r ← attempt (resp ← send (POST_order_placeorder order_payload);
                 raise_for_status resp;;
                 json_any resp);
    match r with
    | inr response_data => mret response_data
    | inl (HTTPStatusError resp) =>
        raise (HTTPException (status_code resp) "Order placement failed")
    | inl _ =>
        raise (HTTPException 500 "Internal server error during order placement")
    end.

(** What [place_order] answers once the reply to its single request is
    known. *)
Definition placement_result (a : reply) : outcome json :=
  match a with
  | Failure => Raise (HTTPException 500 "Internal server error during order placement")
  | Answer resp =>
      if is_success (status_code resp) then
        match body resp with
        | JInvalid =>
            Raise (HTTPException 500 "Internal server error during order placement")
        | b => Ret b
        end
      else Raise (HTTPException (status_code resp) "Order placement failed")
  end.

Definition already_handled : dict :=
  {[ "status" := PStr "already_handled";
     "message" := PStr "Order already filled or cancelled" ]}.

(** [cancel_order(order_id)] *)
Definition cancel_order (order_id : pyval) : M json :=
  ensure_token;;
  let cancel_payload : dict := {[ "orderId" := order_id ]} in
  r ← attempt (resp ← send (POST_order_cancelorder cancel_payload);
               raise_for_status resp;;
               json_any resp);
  match r with
  | inr response_data => mret response_data
  | inl (HTTPStatusError resp) =>
      if status_code resp =? 404 then mret (JObj already_handled)
      else raise (HTTPException (status_code resp) "Failed to cancel order")
  | inl _ => raise (HTTPException 500 "Internal server error canceling order")
  end.

(** *** Reading a trace of the adapter *)

Definition is_rate_limited (e : event) : bool :=
  match e with
  | Call _ (Answer resp) => status_code resp =? 429
  | _ => false
  end.

(** How many calls were answered 429. *)
Definition rate_limited (tr : list event) : nat :=
  List.length (List.filter is_rate_limited tr).

(** The delay [authenticate] computes in its [attempt_no]-th round for a
    429 response. *)
Definition delay_for (attempt_no : nat) (resp : http_response) : option Z :=
  int (from_option PStr (PInt (backoff_factor * (Z.of_nat attempt_no + 1)))
                   (retry_after resp)).

(** A trace in chronological order in which every 429 answer is followed
    at once by the warning and a sleep of the computed delay, the [i]-th
    429 using the [i]-th fallback; the one exception is a 429 that ends the
    trace because its Retry-After header is no integer. *)
Fixpoint backed_off (i : nat) (tr : list event) : Prop :=
  match tr with
  | [] => True
  | Call r (Answer resp) :: rest =>
      if status_code resp =? 429 then
        match rest with
        | [] => delay_for i resp = None
        | Logged (LogRateLimited d) :: Slept ms :: rest' =>
            delay_for i resp = Some d ∧ ms = d * 1000 ∧ backed_off (S i) rest'
        | _ => False
        end
      else backed_off i rest
  | _ :: rest => backed_off i rest
  end.

Definition exhausted : exn :=
  HTTPException 429 "Authentication failed after maximum retries".

(** What "waits for Retry-After and retries" asks of one operation started
    in [w]: the run sleeps for at least [secs] seconds and makes a second
    call. *)
Definition waits_and_retries {A} (op : M A) (w : world) (secs : Z) : Prop :=
  let w' := (op w).2 in
  (∃ ms, Slept ms ∈ trace w' ∧ secs * 1000 ≤ ms) ∧ (calls w + 2 ≤ calls w')%nat.

End Adapter.

End TradovateApi.

(** ** main.py

    main.py calls [hashlib] and [httpx] without importing them; its
    sibling handlers (main_fixed.py, enhanced_main.py, main_optimized.py)
    import both.  The embedding reads the two names as bound to those
    libraries, as in the siblings. *)

Module Main.

Definition DUPLICATE_THRESHOLD_SECONDS : Z := 30.
Definition COMPLETED_TRADE_COOLDOWN : Z := 30.

(** Wall-clock instants ([datetime.now()]) are counted in microseconds,
    the resolution of [datetime]; [seconds n] is [timedelta(seconds=n)]. *)
Definition seconds (n : Z) : Z := n * 1000000.

(** One entry of the global [last_alert] dict. *)
Record alert_record := {
  direction : string;
  timestamp : Z;
  alert_hash : string;
}.

(** One entry of the global [completed_trades] dict. *)
Record completed_record := {
  last_completed_direction : string;
  completion_time : Z;
}.

Section Guard.
Context `{Runtime}.

(** The dict literal [essential_fields] of [hash_alert], by its items. *)
Definition essential_fields (data : gmap string pyval) : list (string * pyval) :=
  [ ("symbol", get data "symbol");
    ("action", get data "action");
    ("PRICE", get data "PRICE");
    ("T1", get data "T1");
    ("STOP", get data "STOP") ].

Definition hash_alert (data : gmap string pyval) : string :=
  let alert_string := json_dumps_sort_keys (essential_fields data) in
  sha256_hexdigest alert_string.

(** [is_duplicate_alert]: the verdict and the [last_alert] dict it
    leaves behind.  [current_time] is the value of [datetime.now()]. *)
Definition is_duplicate_alert (current_time : Z) (symbol action : string)
    (data : gmap string pyval) (last_alert : gmap string alert_record)
  : bool * gmap string alert_record :=
  let h := hash_alert data in
  let blocked :=
    match last_alert !! symbol with
    | Some last_alert_data =>
        let time_diff := current_time - timestamp last_alert_data in
        String.eqb (alert_hash last_alert_data) h
        && (time_diff <? seconds DUPLICATE_THRESHOLD_SECONDS)
    | None => false
    end in
  if blocked then (true, last_alert)
  else (false,
        <[symbol := {| direction := lower action;
                       timestamp := current_time;
                       alert_hash := h |}]> last_alert).

End Guard.

Definition mark_trade_completed (now : Z) (symbol dir : string)
    (completed_trades : gmap string completed_record)
  : gmap string completed_record :=
  <[symbol := {| last_completed_direction := lower dir;
                 completion_time := now |}]> completed_trades.

(** [cleanup_old_tracking_data]: both dicts lose the entries stamped
    before the cutoff. *)
Definition cleanup_old_tracking_data (current_time : Z)
    (last_alert : gmap string alert_record)
    (completed_trades : gmap string completed_record)
  : gmap string alert_record * gmap string completed_record :=
  let cutoff_time :=
    current_time
    - seconds (Z.max DUPLICATE_THRESHOLD_SECONDS COMPLETED_TRADE_COOLDOWN * 2) in
  (filter (λ kv, ¬ (timestamp kv.2 < cutoff_time)) last_alert,
   filter (λ kv, ¬ (completion_time kv.2 < cutoff_time)) completed_trades).

(** *** Reconciliation helpers (the same text in main.py and enhanced_main.py) *)

Definition terminal_statuses : list pyval :=
  [PStr "Filled"; PStr "Cancelled"; PStr "Rejected"].

Definition working_statuses : list pyval := [PStr "Working"; PStr "Accepted"].

(** The list comprehension of [cancel_all_orders]. *)
Definition not_terminal_for (symbol : pyval) (o : dict) : bool :=
  py_eq (get o "symbol") symbol && negb (py_in (get o "status") terminal_statuses).

(** The list comprehension of [wait_until_no_open_orders]. *)
Definition working_for (symbol : pyval) (o : dict) : bool :=
  py_eq (get o "symbol") symbol && py_in (get o "status") working_statuses.

Definition list_orders : M (list dict) :=
  resp ← send GET_order_list;
  raise_for_status resp;;
  json_list resp.

(** The body of [for order in open_orders]. *)
Definition cancel_one (order : dict) : M unit :=
  let oid := get order "id" in
  if truthy oid then
    r ← attempt (send (POST_order_cancel oid));
    match r with
    | inr _ => mret ()
    | inl _ => log (LogCancelFailed oid)
    end
  else mret ().

Definition max_retries : nat := 8.

(** [for attempt in range(max_retries)] with [remaining] rounds to go. *)
Fixpoint cancel_rounds (remaining : nat) (symbol : pyval) : M unit :=
  match remaining with
  | O => mret ()
  | S k =>
      orders ← list_orders;
      let open_orders := List.filter (not_terminal_for symbol) orders in
      match open_orders with
      | [] => mret ()                                   (* break *)
      | _ =>
          for_each open_orders cancel_one;;
          sleep 500;;
          cancel_rounds k symbol
      end
  end.

Definition cancel_all_orders (symbol : pyval) : M unit :=
  cancel_rounds max_retries symbol;;
  orders ← list_orders;
  let open_orders := List.filter (not_terminal_for symbol) orders in
  match open_orders with
  | [] => mret ()
  | _ => log (LogStillOpen symbol (map (λ o, get o "id") open_orders)
                           (map (λ o, get o "status") open_orders))
  end.

(** *** The sweep as a grammar of traces

    The events one run of [cancel_all_orders] may leave, oldest first,
    against its outcome: rounds of "list, cancel what is open, sleep",
    ended by a listing with nothing open or by the budget, then the closing
    listing and the error line when something is still open. *)

(** What a listing reply amounts to once [raise_for_status] and [.json()]
    have looked at it. *)
Definition read_listing (a : reply) : exn + list dict :=
  match a with
  | Failure => inl (PyError "httpx.TransportError")
  | Answer resp =>
      if is_success (status_code resp) then
        match body resp with
        | JList l => inr l
        | JObj d => if decide (d = ∅) then inr [] else inl (PyError "AttributeError")
        | JInvalid => inl (PyError "JSONDecodeError")
        end
      else inl (HTTPStatusError resp)
  end.

(** The cancel requests of one round: one per open order that carries an
    id, in listing order; a request that fails in transit is logged. *)
Inductive cancels_for : list dict → list event → Prop :=
| cancels_done : cancels_for [] []
| cancels_no_id o rest evs :
    truthy (get o "id") = false →
    cancels_for rest evs →
    cancels_for (o :: rest) evs
| cancels_sent o rest evs resp :
    truthy (get o "id") = true →
    cancels_for rest evs →
    cancels_for (o :: rest) (Call (POST_order_cancel (get o "id")) (Answer resp) :: evs)
| cancels_lost o rest evs :
    truthy (get o "id") = true →
    cancels_for rest evs →
    cancels_for (o :: rest)
      (Call (POST_order_cancel (get o "id")) Failure
       :: Logged (LogCancelFailed (get o "id")) :: evs).

Inductive closing (symbol : pyval) : list event → outcome unit → Prop :=
| closing_failed a e :
    read_listing a = inl e →
    closing symbol [Call GET_order_list a] (Raise e)
| closing_clear a orders :
    read_listing a = inr orders →
    List.filter (not_terminal_for symbol) orders = [] →
    closing symbol [Call GET_order_list a] (Ret ())
| closing_left a orders :
    read_listing a = inr orders →
    List.filter (not_terminal_for symbol) orders ≠ [] →
    closing symbol
      [Call GET_order_list a;
       Logged (LogStillOpen symbol
                 (map (λ o, get o "id") (List.filter (not_terminal_for symbol) orders))
                 (map (λ o, get o "status") (List.filter (not_terminal_for symbol) orders)))]
      (Ret ()).

Inductive swept (symbol : pyval) : nat → list event → outcome unit → Prop :=
| swept_budget evs out :
    closing symbol evs out →
    swept symbol 0 evs out
| swept_failed k a e :
    read_listing a = inl e →
    swept symbol (S k) [Call GET_order_list a] (Raise e)
| swept_clear k a orders evs out :
    read_listing a = inr orders →
    List.filter (not_terminal_for symbol) orders = [] →
    closing symbol evs out →
    swept symbol (S k) (Call GET_order_list a :: evs) out
| swept_round k a orders cancels evs out :
    read_listing a = inr orders →
    List.filter (not_terminal_for symbol) orders ≠ [] →
    cancels_for (List.filter (not_terminal_for symbol) orders) cancels →
    swept symbol k evs out →
    swept symbol (S k) (Call GET_order_list a :: cancels ++ Slept 500 :: evs) out.

(** Counting in a trace. *)
Definition is_listing (e : event) : bool :=
  match e with Call GET_order_list _ => true | _ => false end.

Definition is_sleep (e : event) : bool :=
  match e with Slept _ => true | _ => false end.

Definition count (p : event → bool) (tr : list event) : nat :=
  List.length (List.filter p tr).

Definition flatten_position (symbol : pyval) : M unit :=
  send (POST_position_closeposition {[ "symbol" := symbol ]});;
  mret ().

(** [wait_until_no_open_orders(symbol, timeout)]; [timeout] in
    milliseconds.  [fuel] bounds the passes of [while True]. *)
Fixpoint wait_loop (fuel : nat) (symbol : pyval) (timeout start : Z) : M unit :=
  match fuel with
  | O => spin
  | S k =>
      orders ← list_orders;
      match List.filter (working_for symbol) orders with
      | [] => mret ()
      | _ =>
          now ← loop_time;
          if now - start >? timeout then log (LogWaitTimeout symbol)
          else sleep 500;; wait_loop k symbol timeout start
      end
  end.

Definition wait_until_no_open_orders (fuel : nat) (symbol : pyval) (timeout : Z)
  : M unit :=
  start ← loop_time;
  wait_loop fuel symbol timeout start.

(** *** The order monitor *)

(** Which [return] statement ended the monitor. *)
Inductive exit :=
| StopFilled
| TakeProfitFilled
| TimedOut
| NoActiveOrders.

(** [order_tracking]: a dict from leg label to order id, in insertion
    order. *)
Abbreviation tracking := (list (string * pyval)).

(** [order_tracking.get(label)] *)
Fixpoint tracked (t : tracking) (label : string) : pyval :=
  match t with
  | [] => PNone
  | (k, v) :: rest => if String.eqb k label then v else tracked rest label
  end.

(** [status and status.lower() == "filled"]; [None] when [.lower()]
    raises [AttributeError]. *)
Definition filled_ci (status : pyval) : option bool :=
  if truthy status then
    match status with
    | PStr s => Some (String.eqb (lower s) "filled")
    | _ => None
    end
  else Some false.

(** [not stop_order_data] *)
Definition no_data (stop_order_data : option dict) : bool :=
  match stop_order_data with
  | Some d => bool_decide (d = ∅)
  | None => true
  end.

Definition data_get (stop_order_data : option dict) (k : string) : pyval :=
  match stop_order_data with
  | Some d => get d k
  | None => PNone
  end.

(** The local variables that live across passes of [while True]. *)
Record locals := {
  entry_filled : bool;
  stop_placed : bool;
}.

(** How one pass over [order_tracking.items()] ends: it runs to the end
    of the [for], it hits a [return], or it raises into the enclosing
    [except Exception]. *)
Inductive pass :=
| Completed (l : locals) (active_orders : tracking)
| Returned (why : exit)
| Excepted (l : locals).

Definition max_monitoring_time : Z := 3600 * 1000.

Definition order_status (order_id : pyval) : M pyval :=
  response ← send (GET_order order_id);
  raise_for_status response;;
  o ← json_any response;
  json_get o "status".

(** The OSO request sent when ENTRY is seen filled. *)
Definition place_oso (stop_order_data : dict) : M bool :=
  c ← get_client;
  let oso_payload : dict :=
    {[ "accountSpec" := account_spec c;
       "accountId" := account_id c;
       "action" := get stop_order_data "action";
       "symbol" := get stop_order_data "symbol";
       "orderQty" := default (PInt 1) (stop_order_data !! "orderQty");
       "orderType" := PStr "Stop";
       "price" := get stop_order_data "stopPrice";
       "isAutomated" := PBool true ]} in
  let bracket1 : dict :=
    {[ "action" := PStr (if py_eq (get stop_order_data "action") (PStr "Buy")
                         then "Sell" else "Buy");
       "orderType" := PStr "Limit";
       "price" := get stop_order_data "T1";
       "timeInForce" := PStr "GTC" ]} in
  r ← attempt (response ← send (POST_order_placeOSO oso_payload bracket1);
               raise_for_status response;;
               oso_result ← json_any response;
               match oso_result with
               | JObj d => if contains d "orderId" then mret ()
                           else raise (PyError "ValueError")
               | _ => raise (PyError "ValueError")
               end);
  match r with
  | inr _ => mret true
  | inl _ => log (LogError "Error placing OSO order");; mret false
  end.

(** [mark_trade_completed(symbol, direction)] as the monitor calls it:
    [direction.lower()] raises on anything but a string. *)
Definition mark_completed (symbol : pyval) (dir : pyval) : M unit :=
  match dir with
  | PStr d => emit (TradeCompleted symbol (PStr (lower d)))
  | _ => raise (PyError "AttributeError")
  end.

(** The two exit branches: record the completion, cancel the other leg
    when it is tracked, return. *)
Definition exit_leg (order_tracking : tracking) (symbol : pyval)
    (stop_order_data : option dict) (other : string) (l : locals) (why : exit)
  : M pass :=
  let trade_direction :=
    if no_data stop_order_data then PStr "unknown"
    else match stop_order_data with
         | Some d => default (PStr "unknown") (d !! "action")
         | None => PStr "unknown"
         end in
  r ← attempt (mark_completed symbol trade_direction);
  match r with
  | inl _ => mret (Excepted l)
  | inr _ =>
      (if truthy (tracked order_tracking other) then
         r ← attempt (send (POST_order_cancel (tracked order_tracking other)));
         match r with
         | inr resp =>
             if status_code resp =? 200 then mret ()
             else log (LogWarning "Failed to cancel the other leg")
         | inl _ => log (LogError "Exception while cancelling the other leg")
         end
       else mret ());;
      mret (Returned why)
  end.

(** One pass of [for label, order_id in order_tracking.items()]. *)
Fixpoint poll (items : tracking) (order_tracking : tracking) (symbol : pyval)
    (stop_order_data : option dict) (l : locals) (active_orders : tracking)
  : M pass :=
  match items with
  | [] => mret (Completed l active_orders)
  | (label, order_id) :: rest =>
      if is_none order_id then
        poll rest order_tracking symbol stop_order_data l active_orders
      else
        r ← attempt (order_status order_id);
        match r with
        | inl _ => mret (Excepted l)
        | inr status =>
            let otherwise :=
              if py_in status working_statuses then
                poll rest order_tracking symbol stop_order_data l
                     (active_orders ++ [(label, order_id)])
              else poll rest order_tracking symbol stop_order_data l active_orders in
            if String.eqb label "ENTRY" then
              match filled_ci status with
              | None => mret (Excepted l)
              | Some true =>
                  if negb (entry_filled l) then
                    let l1 := {| entry_filled := true; stop_placed := stop_placed l |} in
                    if negb (no_data stop_order_data)
                       && bool_decide (is_Some (stop_order_data ≫= (.!! "T1"))) then
                      placed ← place_oso (default ∅ stop_order_data);
                      let l2 := {| entry_filled := true;
                                   stop_placed := stop_placed l || placed |} in
                      poll rest order_tracking symbol stop_order_data l2 active_orders
                    else poll rest order_tracking symbol stop_order_data l1 active_orders
                  else otherwise
              | Some false => otherwise
              end
            else if String.eqb label "STOP" then
              match filled_ci status with
              | None => mret (Excepted l)
              | Some true =>
                  exit_leg order_tracking symbol stop_order_data "TP1" l StopFilled
              | Some false => otherwise
              end
            else if String.eqb label "TP1" then
              match filled_ci status with
              | None => mret (Excepted l)
              | Some true =>
                  exit_leg order_tracking symbol stop_order_data "STOP" l TakeProfitFilled
              | Some false => otherwise
              end
            else otherwise
        end
  end.

(** *** The last events of a run that ends on an exit leg

    [tr] is a trace with the newest event first.  [closes_on is_filled
    marks leg_id other_id tr] says that [tr] ends with a status query for
    [leg_id] reporting a fill, then (in main.py) the completion mark,
    then one cancel request for [other_id] when that id is truthy,
    possibly followed by the warning about the cancel, and nothing
    else. *)
Definition fill_report (is_filled : pyval → bool) (leg_id : pyval) (e : event) : Prop :=
  reports is_filled leg_id e = true.

Definition after_report (is_filled : pyval → bool) (marks : bool) (leg_id : pyval)
    (tr : list event) : Prop :=
  if marks then
    ∃ sym dir q older,
      tr = TradeCompleted sym dir :: q :: older ∧ fill_report is_filled leg_id q
  else ∃ q older, tr = q :: older ∧ fill_report is_filled leg_id q.

Definition closes_on (is_filled : pyval → bool) (marks : bool)
    (leg_id other_id : pyval) (tr : list event) : Prop :=
  if truthy other_id then
    ∃ a rest,
      after_report is_filled marks leg_id rest
      ∧ (tr = Call (POST_order_cancel other_id) a :: rest
         ∨ ∃ l, tr = Logged l :: Call (POST_order_cancel other_id) a :: rest)
  else after_report is_filled marks leg_id tr.

Definition filled_ci_true (status : pyval) : bool :=
  match filled_ci status with Some true => true | _ => false end.

(** The status the broker would report for [order_id] if asked now. *)
Definition status_now (w : world) (order_id : pyval) : pyval :=
  match (broker w (calls w) (GET_order order_id)).1 with
  | Answer resp =>
      match body resp with
      | JObj d => get d "status"
      | _ => PNone
      end
  | Failure => PNone
  end.

(** What "exactly one exit leg is filled, the other cancelled or not
    tracked" says of the broker's books when the monitor is done. *)
Definition one_leg_filled (w : world) (order_tracking : tracking) : Prop :=
  let tp := status_now w (tracked order_tracking "TP1") in
  let st := status_now w (tracked order_tracking "STOP") in
  (filled_ci_true tp = true ∧ filled_ci_true st = false
   ∧ (is_none (tracked order_tracking "STOP") = true ∨ py_eq st (PStr "Cancelled") = true))
  ∨ (filled_ci_true st = true ∧ filled_ci_true tp = false
     ∧ (is_none (tracked order_tracking "TP1") = true ∨ py_eq tp (PStr "Cancelled") = true)).

(** [while True], with [fuel] passes allowed. *)
Fixpoint monitor_loop (fuel : nat) (order_tracking : tracking) (symbol : pyval)
    (stop_order_data : option dict) (monitoring_start_time : Z) (l : locals)
  : M exit :=
  match fuel with
  | O => spin
  | S k =>
      p ← poll order_tracking order_tracking symbol stop_order_data l [];
      match p with
      | Returned why => mret why
      | Excepted l' =>
          log LogMonitorError;;
          sleep 2000;;
          monitor_loop k order_tracking symbol stop_order_data monitoring_start_time l'
      | Completed l' active_orders =>
          now ← loop_time;
          if now - monitoring_start_time >? max_monitoring_time then
            log (LogMonitorTimeout symbol);; mret TimedOut
          else
            match active_orders with
            | [] => log LogNoActiveOrders;; mret NoActiveOrders
            | _ =>
                sleep (if negb (entry_filled l') then 500 else 1000);;
                monitor_loop k order_tracking symbol stop_order_data
                             monitoring_start_time l'
            end
      end
  end.

Definition monitor_all_orders (fuel : nat) (order_tracking : tracking)
    (symbol : pyval) (stop_order_data : option dict) : M exit :=
  monitoring_start_time ← loop_time;
  (if no_data stop_order_data
   then log (LogError "CRITICAL: No stop_order_data provided when starting monitoring")
   else mret ());;
  monitor_loop fuel order_tracking symbol stop_order_data monitoring_start_time
               {| entry_filled := false; stop_placed := false |}.

End Main.

(** ** main_fixed.py *)

Module MainFixed.

Export Main (exit, StopFilled, TakeProfitFilled, TimedOut, NoActiveOrders,
             tracked, no_data, working_statuses, working_for, list_orders).

(** [order_tracking[label] = v]: an existing key keeps its place; a new
    key is appended, which changes the size of the dict ([true]). *)
Fixpoint set_item (t : Main.tracking) (label : string) (v : pyval)
  : Main.tracking * bool :=
  match t with
  | [] => ([(label, v)], true)
  | (k, x) :: rest =>
      if String.eqb k label then ((k, v) :: rest, false)
      else let '(rest', grew) := set_item rest label v in ((k, x) :: rest', grew)
  end.

(** One leg of [order_plan].  [price] and [stopPrice] are what
    [order.get("price")] and [order.get("stopPrice")] return, so [PNone]
    when the key was not set. *)
Record leg := {
  label : string;
  action : pyval;
  orderType : string;
  price : pyval;
  stopPrice : pyval;
  qty : pyval;
}.

(** ["Sell" if action.lower() == "buy" else "Buy"] *)
Definition opposite (action : string) : string :=
  if String.eqb (lower action) "buy" then "Sell" else "Buy".

Definition take_profit_leg (action : string) (t1 : pyval) : leg :=
  {| label := "TP1"; action := PStr (opposite action); orderType := "Limit";
     price := t1; stopPrice := PNone; qty := PInt 1 |}.

Definition entry_leg (action : string) (entry_price : pyval) : leg :=
  {| label := "ENTRY"; action := PStr action; orderType := "Stop";
     price := PNone; stopPrice := entry_price; qty := PInt 1 |}.

Definition stop_spec (account_id symbol : pyval) (action : string) (stop : pyval)
  : dict :=
  {[ "accountId" := account_id;
     "symbol" := symbol;
     "action" := PStr (opposite action);
     "orderQty" := PInt 1;
     "orderType" := PStr "Stop";
     "stopPrice" := stop;
     "timeInForce" := PStr "GTC";
     "isAutomated" := PBool true ]}.

(** The payload built for one leg in the execution loop. *)
Definition order_payload (account_id symbol : pyval) (order : leg) : dict :=
  {[ "accountId" := account_id;
     "symbol" := symbol;
     "action" := action order;
     "orderQty" := qty order;
     "orderType" := PStr (orderType order);
     "price" := price order;
     "stopPrice" := stopPrice order;
     "timeInForce" := PStr "GTC";
     "isAutomated" := PBool true ]}.

Definition cancel_all_orders (symbol : pyval) : M unit :=
  send (POST_order_cancelallorders {[ "symbol" := symbol ]});;
  mret ().

(** [abs(v) > 0]; [None] when [abs] raises [TypeError]. *)
Definition abs_positive (v : pyval) : option bool :=
  match v with
  | PBool b => Some b
  | PInt n => Some (negb (n =? 0))
  | PFloat (S754_zero _) => Some false
  | PFloat S754_nan => Some false
  | PFloat _ => Some true
  | _ => None
  end.

(** [for pos in positions: if pos.get("symbol") == symbol and
    abs(pos.get("netPos", 0)) > 0: ...]: the first such position. *)
Fixpoint open_position (symbol : pyval) (positions : list dict) : M (option dict) :=
  match positions with
  | [] => mret None
  | pos :: rest =>
      if py_eq (get pos "symbol") symbol then
        match abs_positive (default (PInt 0) (pos !! "netPos")) with
        | None => raise (PyError "TypeError")
        | Some true => mret (Some pos)
        | Some false => open_position symbol rest
        end
      else open_position symbol rest
  end.

Definition list_positions : M (list dict) :=
  pos_resp ← send GET_position_list;
  raise_for_status pos_resp;;
  json_list pos_resp.

Section Handler.
Context `{Runtime}.

(** The local state of the monitor that lives across passes. *)
Record locals := {
  entry_filled : bool;
  order_tracking : Main.tracking;
}.

Inductive pass :=
| Completed (l : locals) (active_orders : Main.tracking)
| Returned (why : exit) (l : locals)
| Excepted (l : locals).

(** Placing the STOP once ENTRY is seen filled: through the adapter
    first, by a direct request when that raises. *)
Definition place_stop (symbol : pyval) (stop_order_data : dict) (l : locals)
  : M (locals * bool) :=
  let store v :=
    let '(t, grew) := set_item (order_tracking l) "STOP" v in
    ({| entry_filled := entry_filled l; order_tracking := t |}, grew) in
  r ← attempt
        (match stop_order_data !! "action", stop_order_data !! "orderQty" with
         | Some a, Some q =>
             stop_result ← TradovateApi.place_order symbol a q (Some stop_order_data);
             json_get stop_result "id"
         | _, _ => raise (PyError "KeyError")
         end);
  match r with
  | inr id => mret (store id)
  | inl _ =>
      log (LogError "Error placing STOP order after ENTRY fill");;
      r2 ← attempt (response ← send (POST_order_placeorder stop_order_data);
                    raise_for_status response;;
                    stop_result ← json_any response;
                    json_get stop_result "id");
      match r2 with
      | inr id => mret (store id)
      | inl _ =>
          log (LogError "Failed to place STOP order with fallback method");;
          mret (l, false)
      end
  end.

(** The two exit branches: cancel the other leg when tracked, return.
    The cancel is not guarded, so a transport failure raises into the
    enclosing [except]. *)
Definition exit_leg (other : string) (l : locals) (why : exit) : M pass :=
  if truthy (tracked (order_tracking l) other) then
    r ← attempt (send (POST_order_cancel (tracked (order_tracking l) other)));
    match r with
    | inr _ => mret (Returned why l)
    | inl _ => mret (Excepted l)
    end
  else mret (Returned why l).

(** One pass of [for label, order_id in order_tracking.items()], at
    position [pos] with [todo] items to go.  The items are read from
    the live dict, so an id stored mid-pass is seen later in the same
    pass; a dict that grew makes the next step of the iteration raise
    [RuntimeError]. *)
Fixpoint poll (todo pos : nat) (symbol : pyval) (stop_order_data : option dict)
    (l : locals) (active_orders : Main.tracking) : M pass :=
  match todo with
  | O => mret (Completed l active_orders)
  | S k =>
      match nth_error (order_tracking l) pos with
      | None => mret (Completed l active_orders)
      | Some (label, order_id) =>
          if is_none order_id then
            poll k (S pos) symbol stop_order_data l active_orders
          else
            r ← attempt (Main.order_status order_id);
            match r with
            | inl _ => mret (Excepted l)
            | inr status =>
                if py_eq status (PStr "Filled") then
                  if String.eqb label "ENTRY" && negb (entry_filled l) then
                    let l1 := {| entry_filled := true;
                                 order_tracking := order_tracking l |} in
                    if negb (no_data stop_order_data) then
                      '(l2, grew) ← place_stop symbol (default ∅ stop_order_data) l1;
                      if grew : bool then mret (Excepted l2)
                      else poll k (S pos) symbol stop_order_data l2 active_orders
                    else poll k (S pos) symbol stop_order_data l1 active_orders
                  else if String.eqb label "TP1" && entry_filled l then
                    exit_leg "STOP" l TakeProfitFilled
                  else if String.eqb label "STOP" && entry_filled l then
                    exit_leg "TP1" l StopFilled
                  else poll k (S pos) symbol stop_order_data l active_orders
                else if py_in status working_statuses then
                  poll k (S pos) symbol stop_order_data l
                       (active_orders ++ [(label, order_id)])
                else poll k (S pos) symbol stop_order_data l active_orders
            end
      end
  end.

Fixpoint monitor_loop (fuel : nat) (symbol : pyval)
    (stop_order_data : option dict) (l : locals) : M (exit * Main.tracking) :=
  match fuel with
  | O => spin
  | S k =>
      p ← poll (List.length (order_tracking l)) 0 symbol stop_order_data l [];
      match p with
      | Returned why l' => mret (why, order_tracking l')
      | Excepted l' =>
          log LogMonitorError;;
          sleep 5000;;
          monitor_loop k symbol stop_order_data l'
      | Completed l' active_orders =>
          match active_orders with
          | [] => log LogNoActiveOrders;; mret (NoActiveOrders, order_tracking l')
          | _ => sleep 1000;; monitor_loop k symbol stop_order_data l'
          end
      end
  end.

(** [monitor_all_orders]; it returns which [return] ended it and the
    [order_tracking] dict as it left it. *)
Definition monitor_all_orders (fuel : nat) (order_tracking : Main.tracking)
    (symbol : pyval) (stop_order_data : option dict) : M (exit * Main.tracking) :=
  monitor_loop fuel symbol stop_order_data
               {| entry_filled := false; order_tracking := order_tracking |}.

(** *** The webhook, from the line after the duplicate check *)

(** Lines 283-309: cancel, flatten, wait, then the two fresh listings.
    [None] means flat; [Some detail] is the reason to skip. *)
Definition reconcile (fuel : nat) (symbol : pyval) : M (option string) :=
  cancel_all_orders symbol;;
  Main.flatten_position symbol;;
  Main.wait_until_no_open_orders fuel symbol 10000;;
  positions ← list_positions;
  still ← open_position symbol positions;
  match still with
  | Some _ =>
      log (LogWarning "Position is not flat after flatten. Skipping order placement.");;
      mret (Some "Position not flat after flatten.")
  | None =>
      orders ← list_orders;
      match List.filter (working_for symbol) orders with
      | [] => mret None
      | _ =>
          log (LogWarning "Open orders still exist after cancel. Skipping order placement.");;
          mret (Some "Open orders still exist after cancel.")
      end
  end.

(** Lines 311-358: the order plan and the stop specification held back
    for the monitor. *)
Definition make_plan (data : dict) (action : string) (symbol : pyval)
  : M (list leg * option dict) :=
  plan1 ← match data !! "T1" with
          | Some t1 => mret [take_profit_leg action t1]
          | None =>
              log (LogWarning "T1 not found in alert data - no take profit order will be placed");;
              mret []
          end;
  plan2 ← match data !! "PRICE" with
          | Some p => mret (plan1 ++ [entry_leg action p])
          | None =>
              log (LogWarning "PRICE not found in alert data - no entry order will be placed");;
              mret plan1
          end;
  c ← get_client;
  sod ← match data !! "STOP" with
         | Some st => mret (Some (stop_spec (account_id c) symbol action st))
         | None =>
             log (LogWarning "STOP not found in alert data - no stop loss order will be prepared");;
             mret None
         end;
  mret (plan2, sod).

(** Lines 374-404: the execution loop. *)
Fixpoint execute_plan (order_plan : list leg) (symbol : pyval)
    (order_tracking : Main.tracking) (order_results : list (string * json))
  : M (Main.tracking * list (string * json)) :=
  match order_plan with
  | [] => mret (order_tracking, order_results)
  | order :: rest =>
      c ← get_client;
      let payload := order_payload (account_id c) symbol order in
      r ← attempt (result ← TradovateApi.place_order symbol (action order)
                               (qty order) (Some payload);
                   order_id ← json_get result "id";
                   mret (order_id, result));
      match r with
      | inr (order_id, result) =>
          execute_plan rest symbol
            (set_item order_tracking (label order) order_id).1
            (order_results ++ [(label order, result)])
      | inl _ =>
          log (LogError "Error placing order");;
          execute_plan rest symbol order_tracking order_results
      end
  end.

Inductive response :=
| Skipped (detail : string)
| Success (order_responses : list (string * json)).

(** What the handler hands to [asyncio.create_task]. *)
Record task := {
  task_tracking : Main.tracking;
  task_symbol : pyval;
  task_stop_order_data : option dict;
}.

Definition map_symbol (symbol : pyval) : pyval :=
  if py_eq symbol (PStr "CME_MINI:NQ1!") || py_eq symbol (PStr "NQ1!")
  then PStr "NQM5" else symbol.

Definition webhook_body (fuel : nat) (data : dict) : M (response * option task) :=
  match data !! "action" with
  | Some (PStr raw_action) =>
      let action := capitalize raw_action in
      match data !! "symbol" with
      | None => raise (PyError "KeyError")
      | Some raw_symbol =>
          let symbol := map_symbol raw_symbol in
          positions ← list_positions;
          _ ← open_position symbol positions;
          verdict ← reconcile fuel symbol;
          match verdict with
          | Some detail => mret (Skipped detail, None)
          | None =>
              '(order_plan, stop_order_data) ← make_plan data action symbol;
              '(order_tracking, order_results) ←
                execute_plan order_plan symbol
                  [("ENTRY", PNone); ("TP1", PNone); ("STOP", PNone)] [];
              mret (Success order_results,
                    Some {| task_tracking := order_tracking;
                            task_symbol := symbol;
                            task_stop_order_data := stop_order_data |})
          end
      end
  | Some _ => raise (PyError "AttributeError")
  | None => raise (PyError "KeyError")
  end.

(** The handler from line 253 on, inside its [try ... except Exception]. *)
Definition webhook (fuel : nat) (data : dict) : M (response * option task) :=
  try_except (webhook_body fuel data)
             (λ _, log (LogError "Unexpected error in webhook");;
                   raise (HTTPException 500 "Internal server error")).

End Handler.

(** *** Reading the plan and the traces of the handler *)

(** The legs lines 316-340 build for an alert, and the stop lines 343-353
    hold back. *)
Definition planned_legs (data : dict) (action : string) : list leg :=
  match data !! "T1" with Some t1 => [take_profit_leg action t1] | None => [] end
  ++ match data !! "PRICE" with Some p => [entry_leg action p] | None => [] end.

Definition planned_stop (account_id symbol : pyval) (action : string) (data : dict)
  : option dict :=
  match data !! "STOP" with
  | Some st => Some (stop_spec account_id symbol action st)
  | None => None
  end.

(** The handler did not answer with an error. *)
Definition rejected {A} (out : outcome A) : Prop := ∃ e, out = Raise e.

End MainFixed.

(** ** enhanced_main.py *)

Module EnhancedMain.

Import MainFixed (leg, label, action, orderType, price, stopPrice, qty,
                  opposite, take_profit_leg, entry_leg, stop_spec,
                  order_payload, set_item, open_position, list_positions,
                  locals, entry_filled, order_tracking,
                  pass, Completed, Returned, Excepted, execute_plan).

(** [cancel_all_orders], [flatten_position] and
    [wait_until_no_open_orders] read exactly as in main.py. *)
Definition cancel_all_orders := Main.cancel_all_orders.
Definition flatten_position := Main.flatten_position.
Definition wait_until_no_open_orders := Main.wait_until_no_open_orders.

Definition required_fields : list string :=
  ["accountId"; "symbol"; "action"; "orderQty"; "orderType"; "stopPrice"].

(** [place_stop_loss_order]: the id of the new order, or [None]. *)
Definition place_stop_loss_order (stop_order_data : dict) : M pyval :=
  if forallb (contains stop_order_data) required_fields then
    r ← attempt
          (response ← send (POST_order_placeorder stop_order_data);
           raise_for_status response;;
           stop_result ← json_any response;
           match stop_result with
           | JObj d =>
               if contains d "errorText" then
                 log (LogError "STOP LOSS order placement failed with API error");;
                 mret PNone
               else if truthy (get d "id") then mret (get d "id")
               else
                 log (LogError "STOP LOSS order placement returned no order ID");;
                 mret PNone
           | _ => raise (PyError "AttributeError")
           end);
    match r with
    | inr stop_id => mret stop_id
    | inl _ => log (LogError "Error placing STOP LOSS order");; mret PNone
    end
  else
    log (LogError "Missing required field in stop_order_data");;
    mret PNone.

Definition max_monitoring_time : Z := 3600 * 1000.

(** The TP1 branch guards its cancel with [try]; the STOP branch does
    not. *)
Definition exit_take_profit (l : locals) : M pass :=
  (if truthy (Main.tracked (order_tracking l) "STOP") then
     r ← attempt (send (POST_order_cancel (Main.tracked (order_tracking l) "STOP")));
     match r with
     | inr resp =>
         if status_code resp =? 200 then mret ()
         else log (LogWarning "Failed to cancel STOP order after TP1 fill")
     | inl _ => log (LogError "Exception while cancelling STOP order after TP1 fill")
     end
   else mret ());;
  mret (Returned Main.TakeProfitFilled l).

Definition exit_stop (l : locals) : M pass :=
  if truthy (Main.tracked (order_tracking l) "TP1") then
    r ← attempt (send (POST_order_cancel (Main.tracked (order_tracking l) "TP1")));
    match r with
    | inr _ => mret (Returned Main.StopFilled l)
    | inl _ => mret (Excepted l)
    end
  else mret (Returned Main.StopFilled l).

Fixpoint poll (todo pos : nat) (symbol : pyval) (stop_order_data : option dict)
    (l : locals) (active_orders : Main.tracking) : M pass :=
  match todo with
  | O => mret (Completed l active_orders)
  | S k =>
      match nth_error (order_tracking l) pos with
      | None => mret (Completed l active_orders)
      | Some (label, order_id) =>
          if is_none order_id then
            poll k (S pos) symbol stop_order_data l active_orders
          else
            r ← attempt (Main.order_status order_id);
            match r with
            | inl _ => mret (Excepted l)
            | inr status =>
                match Main.filled_ci status with
                | None => mret (Excepted l)
                | Some true =>
                    if String.eqb label "ENTRY" && negb (entry_filled l) then
                      let l1 := {| entry_filled := true;
                                   order_tracking := order_tracking l |} in
                      if negb (Main.no_data stop_order_data) then
                        stop_id ← place_stop_loss_order (default ∅ stop_order_data);
                        if truthy stop_id then
                          let '(t, grew) := set_item (order_tracking l1) "STOP" stop_id in
                          let l2 := {| entry_filled := true; order_tracking := t |} in
                          if grew : bool then mret (Excepted l2)
                          else poll k (S pos) symbol stop_order_data l2 active_orders
                        else
                          log (LogError "Position will remain UNPROTECTED by stop loss!");;
                          poll k (S pos) symbol stop_order_data l1 active_orders
                      else
                        log (LogWarning "No stop_order_data provided - position will remain UNPROTECTED!");;
                        poll k (S pos) symbol stop_order_data l1 active_orders
                    else if String.eqb label "TP1" && entry_filled l then
                      exit_take_profit l
                    else if String.eqb label "STOP" && entry_filled l then
                      exit_stop l
                    else poll k (S pos) symbol stop_order_data l active_orders
                | Some false =>
                    if py_in status Main.working_statuses then
                      poll k (S pos) symbol stop_order_data l
                           (active_orders ++ [(label, order_id)])
                    else poll k (S pos) symbol stop_order_data l active_orders
                end
            end
      end
  end.

Fixpoint monitor_loop (fuel : nat) (symbol : pyval) (stop_order_data : option dict)
    (monitoring_start_time : Z) (l : locals) : M (Main.exit * Main.tracking) :=
  match fuel with
  | O => spin
  | S k =>
      p ← poll (List.length (order_tracking l)) 0 symbol stop_order_data l [];
      match p with
      | Returned why l' => mret (why, order_tracking l')
      | Excepted l' =>
          log LogMonitorError;;
          sleep 5000;;
          monitor_loop k symbol stop_order_data monitoring_start_time l'
      | Completed l' active_orders =>
          now ← loop_time;
          if now - monitoring_start_time >? max_monitoring_time then
            log (LogMonitorTimeout symbol);; mret (Main.TimedOut, order_tracking l')
          else
            match active_orders with
            | [] => log LogNoActiveOrders;;
                    mret (Main.NoActiveOrders, order_tracking l')
            | _ => sleep 1000;;
                   monitor_loop k symbol stop_order_data monitoring_start_time l'
            end
      end
  end.

Definition monitor_all_orders (fuel : nat) (order_tracking : Main.tracking)
    (symbol : pyval) (stop_order_data : option dict)
  : M (Main.exit * Main.tracking) :=
  monitoring_start_time ← loop_time;
  monitor_loop fuel symbol stop_order_data monitoring_start_time
               {| entry_filled := false; order_tracking := order_tracking |}.

Section Handler.
Context `{Runtime}.

(** Lines 339-358: flatten when a position is open, cancel, wait.  No
    listing is read again afterwards. *)
Definition reconcile (fuel : nat) (symbol : pyval) : M unit :=
  positions ← list_positions;
  found ← open_position symbol positions;
  (match found with
   | Some _ => flatten_position symbol
   | None => mret ()
   end);;
  cancel_all_orders symbol;;
  wait_until_no_open_orders fuel symbol 10000.

(** [float(data[k])] for a key that is present. *)
Definition float_field (v : pyval) : M pyval :=
  match float v with
  | Some x => mret (PFloat x)
  | None => raise (PyError "ValueError")
  end.

(** [float(data[k])] when [k] is present: absent, converted, or raising. *)
Definition converted (field : option pyval) : option (option spec_float) :=
  match field with
  | None => Some None
  | Some v => match float v with Some x => Some (Some x) | None => None end
  end.

(** Lines 360-413: the order plan and the held-back stop. *)
Definition make_plan (data : dict) (action : string) (symbol : pyval)
  : M (list leg * option dict) :=
  plan1 ← match data !! "T1" with
          | Some t1 =>
              tp_price ← float_field t1;
              mret [take_profit_leg action tp_price]
          | None =>
              log (LogWarning "T1 not found in alert data - no take profit order will be placed");;
              mret []
          end;
  plan2 ← match data !! "PRICE" with
          | Some p =>
              entry_price ← float_field p;
              mret (plan1 ++ [entry_leg action entry_price])
          | None =>
              log (LogWarning "PRICE not found in alert data - no entry order will be placed");;
              mret plan1
          end;
  c ← get_client;
  sod ← match data !! "STOP" with
         | Some st =>
             stop_price ← float_field st;
             mret (Some (stop_spec (account_id c) symbol action stop_price))
         | None =>
             log (LogWarning "STOP not found in alert data - no stop loss order will be placed");;
             mret None
         end;
  mret (plan2, sod).

(** The handler from line 332 on, entered with the mapped [symbol] and
    the alert's [action]; the monitor is awaited before the handler
    answers. *)
Definition webhook_body (fuel : nat) (symbol : pyval) (action : string)
    (data : dict) : M (list (string * json)) :=
  reconcile fuel symbol;;
  '(order_plan, stop_order_data) ← make_plan data action symbol;
  '(order_tracking, order_results) ←
    execute_plan order_plan symbol
      [("ENTRY", PNone); ("TP1", PNone); ("STOP", PNone)] [];
  r ← attempt (monitor_all_orders fuel order_tracking symbol stop_order_data);
  match r with
  | inr _ => mret order_results
  | inl _ => log (LogError "Error monitoring orders");; mret order_results
  end.

Definition webhook (fuel : nat) (symbol : pyval) (action : string) (data : dict)
  : M (list (string * json)) :=
  try_except (webhook_body fuel symbol action data)
             (λ _, log (LogError "Unexpected error in webhook");;
                   raise (HTTPException 500 "Internal server error")).

End Handler.

(** The legs lines 366-391 build when every [float(...)] succeeds. *)
Definition planned_legs (tp_price entry_price : option spec_float) (action : string)
  : list leg :=
  match tp_price with Some x => [take_profit_leg action (PFloat x)] | None => [] end
  ++ match entry_price with Some x => [entry_leg action (PFloat x)] | None => [] end.

End EnhancedMain.

(** ** tradovate_api.py: listing, cancelling and closing *)

Module TradovateClient.

Section Methods.
Context `{Runtime}.

Definition pending_statuses : list pyval :=
  [PStr "Pending"; PStr "Working"; PStr "Submitted"].

(** The list comprehension of [get_pending_orders]; it reads the key
    [ordStatus]. *)
Definition is_pending (order : dict) : bool :=
  py_in (get order "ordStatus") pending_statuses.

(** The two [except] clauses every method below ends with: a status
    error keeps its code, anything else becomes 500.  Both log first. *)
Definition reraise {A} (what : string) (detail detail500 : string) (e : exn) : M A :=
  log (LogError what);;
  match e with
  | HTTPStatusError resp => raise (HTTPException (status_code resp) detail)
  | _ => raise (HTTPException 500 detail500)
  end.

Definition get_pending_orders : M (list dict) :=
  TradovateApi.ensure_token;;
  try_except
    (response ← send GET_order_list;
     raise_for_status response;;
     orders ← json_list response;
     mret (List.filter is_pending orders))
    (reraise "Failed to get orders" "Failed to get orders"
             "Internal server error getting orders").

(** The entry [cancel_all_pending_orders] records for an order whose
    cancel was refused with 404. *)
Definition already_handled (order_id : pyval) : dict :=
  {[ "id" := order_id; "status" := PStr "already_handled" ]}.

(** [for order in pending_orders] of [cancel_all_pending_orders], with
    the list [cancelled_orders] built so far. *)
Fixpoint cancel_each (pending_orders : list dict) (cancelled_orders : list json)
  : M (list json) :=
  match pending_orders with
  | [] => mret cancelled_orders
  | order :: rest =>
      let order_id := get order "id" in
      if truthy order_id then
        r ← attempt (TradovateApi.cancel_order order_id);
        match r with
        | inr result => cancel_each rest (cancelled_orders ++ [result])
        | inl (HTTPException code _) =>
            if code =? 404 then
              cancel_each rest (cancelled_orders ++ [JObj (already_handled order_id)])
            else
              log (LogCancelFailed order_id);;
              cancel_each rest cancelled_orders
        | inl _ =>
            log (LogCancelFailed order_id);;
            cancel_each rest cancelled_orders
        end
      else cancel_each rest cancelled_orders
  end.

Definition cancel_all_pending_orders : M (list json) :=
  try_except
    (pending_orders ← get_pending_orders;
     cancel_each pending_orders [])
    (λ _, log (LogError "Error cancelling all pending orders");;
          raise (HTTPException 500 "Internal server error cancelling orders")).

(** [pos.get("netPos", 0)] *)
Definition net_pos (position : dict) : pyval := default (PInt 0) (position !! "netPos").

(** The list comprehension of [get_positions]. *)
Definition is_open (position : dict) : bool := negb (py_eq (net_pos position) (PInt 0)).

Definition get_positions : M (list dict) :=
  TradovateApi.ensure_token;;
  try_except
    (response ← send GET_position_list;
     raise_for_status response;;
     positions ← json_list response;
     mret (List.filter is_open positions))
    (reraise "Failed to get positions" "Failed to get positions"
             "Internal server error getting positions").

(** [v > 0]; [None] stands for the [TypeError] of comparing [None] or a
    string with an integer. *)
Definition gt_zero (v : pyval) : option bool :=
  match v with
  | PBool b => Some b
  | PInt n => Some (0 <? n)
  | PFloat (S754_finite false _ _) | PFloat (S754_infinity false) => Some true
  | PFloat _ => Some false
  | _ => None
  end.

(** [abs(v)] *)
Definition py_abs (v : pyval) : option pyval :=
  match v with
  | PBool b => Some (PInt (if b then 1 else 0))
  | PInt n => Some (PInt (Z.abs n))
  | PFloat x => Some (PFloat (SFabs x))
  | _ => None
  end.

(** What [close_position] returns: one of its two status dicts (whose
    message renders the symbol), or the broker's answer to the closing
    order. *)
Inductive closed :=
| NoPosition (symbol : pyval)
| AlreadyClosed (symbol : pyval)
| CloseOrder (response_data : json).

(** The market order [close_position] builds. *)
Definition close_order (c : client_state) (symbol : pyval) (close_action : string)
    (close_quantity : pyval) : dict :=
  {[ "accountSpec" := account_spec c;
     "accountId" := account_id c;
     "action" := PStr close_action;
     "symbol" := symbol;
     "orderQty" := close_quantity;
     "orderType" := PStr "Market";
     "timeInForce" := PStr "GTC";
     "isAutomated" := PBool true ]}.

(** [for position in positions: if position.get("symbol") == symbol: ...
    break] *)
Definition target_position (symbol : pyval) (positions : list dict) : option dict :=
  List.find (λ position, py_eq (get position "symbol") symbol) positions.

Definition close_position (symbol : pyval) : M closed :=
  TradovateApi.ensure_token;;
  try_except
    (positions ← get_positions;
     match target_position symbol positions with
     | None => mret (NoPosition symbol)
     | Some target =>
         if decide (target = ∅) then mret (NoPosition symbol)
         else if py_eq (net_pos target) (PInt 0) then mret (AlreadyClosed symbol)
         else
           match gt_zero (net_pos target), py_abs (net_pos target) with
           | Some positive, Some close_quantity =>
               c ← get_client;
               let order := close_order c symbol (if positive then "Sell" else "Buy")
                                        close_quantity in
               response ← send (POST_order_placeorder order);
               raise_for_status response;;
               response_data ← json_any response;
               mret (CloseOrder response_data)
           | _, _ => raise (PyError "TypeError")
           end
     end)
    (reraise "Failed to close position" "Failed to close position"
             "Internal server error closing position").

(** [for position in positions] of [close_all_positions]. *)
Fixpoint close_each (positions : list dict) (closed_positions : list closed)
  : M (list closed) :=
  match positions with
  | [] => mret closed_positions
  | position :: rest =>
      let symbol := get position "symbol" in
      if truthy symbol && negb (py_eq (net_pos position) (PInt 0)) then
        r ← attempt (close_position symbol);
        match r with
        | inr result => close_each rest (closed_positions ++ [result])
        | inl _ =>
            log (LogError "Failed to close position");;
            close_each rest closed_positions
        end
      else close_each rest closed_positions
  end.

Definition close_all_positions : M (list closed) :=
  try_except
    (positions ← get_positions;
     close_each positions [])
    (λ _, log (LogError "Error closing all positions");;
          raise (HTTPException 500 "Internal server error closing positions")).

End Methods.

(** The requests of a trace, in the order of the trace. *)
Definition sent (tr : list event) : list request :=
  omap (λ e, match e with Call r _ => Some r | _ => None end) tr.

End TradovateClient.

(** ** parse_alert_to_tradovate_json (main.py, enhanced_main.py, main_fixed.py)

    The three handlers carry the same parser for alerts sent as plain
    text.  Text is read as ASCII: whitespace and letter case are those of
    the ASCII characters. *)

Module AlertText.

(** [c.isspace()] for an ASCII character: tab, line feed, vertical tab,
    form feed, carriage return, the four separators 0x1c-0x1f, space. *)
Definition is_space (c : ascii) : bool :=
  let n := nat_of_ascii c in
  ((9 <=? n) && (n <=? 13) || (28 <=? n) && (n <=? 32))%nat.

Fixpoint lstrip (s : string) : string :=
  match s with
  | EmptyString => EmptyString
  | String c r => if is_space c then lstrip r else s
  end.

Fixpoint rstrip (s : string) : string :=
  match s with
  | EmptyString => EmptyString
  | String c r =>
      match rstrip r with
      | EmptyString => if is_space c then EmptyString else String c EmptyString
      | r' => String c r'
      end
  end.

(** [s.strip()] *)
Definition strip (s : string) : string := rstrip (lstrip s).

(** [s.upper()] *)
Fixpoint upper (s : string) : string :=
  match s with
  | EmptyString => EmptyString
  | String c r => String (upper_char c) (upper r)
  end.

(** [s.split(sep)] for a one-character separator: never empty. *)
Fixpoint split (sep : ascii) (s : string) : list string :=
  match s with
  | EmptyString => [EmptyString]
  | String c r =>
      if Ascii.eqb c sep then EmptyString :: split sep r
      else match split sep r with
           | [] => [String c EmptyString]
           | l :: ls => String c l :: ls
           end
  end.

(** [s.split(sep, 1)] when [sep] occurs in [s]: the text before its first
    occurrence and the text after; [None] when it does not occur (the
    split then has one element). *)
Fixpoint cut (sep : ascii) (s : string) : option (string * string) :=
  match s with
  | EmptyString => None
  | String c r =>
      if Ascii.eqb c sep then Some (EmptyString, r)
      else match cut sep r with
           | Some (a, b) => Some (String c a, b)
           | None => None
           end
  end.

Definition newline : ascii := "010"%char.
Definition equals : ascii := "="%char.

(** [parsed_data.update(json.loads(json_part))] on the empty
    [parsed_data]: the dict it leaves, or the name of the exception
    class that [json.loads] or [update] raises. *)
Class JsonLoads := {
  loads_into : string → string + dict;
}.

Section Parser.
Context `{Runtime} `{JsonLoads}.

(** The body of [for line in alert_text.split("\n")]. *)
Definition parse_line (parsed_data : dict) (line : string) : dict :=
  match cut equals line with
  | Some (key, value) => <[strip key := PStr (strip value)]> parsed_data
  | None =>
      if bool_decide (upper (strip line) ∈ ["BUY"; "SELL"]) then
        <["action" := PStr (capitalize (strip line))]> parsed_data
      else parsed_data
  end.

(** [field not in parsed_data or not parsed_data[field]] *)
Definition missing (parsed_data : dict) (field : string) : bool :=
  match parsed_data !! field with
  | Some v => negb (truthy v)
  | None => true
  end.

(** The class of the exception [float(v)] raises. *)
Definition float_error (v : pyval) : string :=
  match v with
  | PStr _ => "ValueError"
  | PNone => "TypeError"
  | _ => "OverflowError"
  end.

(** [for target in ["T1", "STOP", "PRICE"]: if target in parsed_data:
    parsed_data[target] = float(parsed_data[target])] *)
Fixpoint convert (targets : list string) (parsed_data : dict) : exn + dict :=
  match targets with
  | [] => inr parsed_data
  | target :: rest =>
      match parsed_data !! target with
      | None => convert rest parsed_data
      | Some v =>
          match float v with
          | Some x => convert rest (<[target := PFloat x]> parsed_data)
          | None => inl (PyError (float_error v))
          end
      end
  end.

(** The parser of main.py and enhanced_main.py. *)
Definition parse_alert_to_tradovate_json (alert_text : string) : exn + dict :=
  let start : exn + (dict * string) :=
    match alert_text with
    | String c rest =>
        if Ascii.eqb c equals then
          match cut newline rest with
          | None => inl (PyError "ValueError")
          | Some (json_part, remaining_text) =>
              match loads_into json_part with
              | inr json_data => inr (json_data, remaining_text)
              | inl kind =>
                  if bool_decide (kind ∈ ["JSONDecodeError"; "ValueError"])
                  then inl (PyError "ValueError")
                  else inl (PyError kind)
              end
          end
        else inr (∅, alert_text)
    | EmptyString => inr (∅, alert_text)
    end in
  match start with
  | inl e => inl e
  | inr (parsed_data, alert_text) =>
      let parsed_data := foldl parse_line parsed_data (split newline alert_text) in
      if missing parsed_data "symbol" || missing parsed_data "action" then
        inl (PyError "ValueError")
      else convert ["T1"; "STOP"; "PRICE"] parsed_data
  end.

(** The parser of main_fixed.py: the same, inside [try ... except
    Exception] that raises [ValueError] for whatever went wrong. *)
Definition parse_alert_fixed (alert_text : string) : exn + dict :=
  match parse_alert_to_tradovate_json alert_text with
  | inl _ => inl (PyError "ValueError")
  | inr parsed_data => inr parsed_data
  end.

End Parser.

(** *** Writing an alert as text *)

(** One line per item, [key=value], joined by line feeds. *)
Fixpoint render (items : list (string * string)) : string :=
  match items with
  | [] => EmptyString
  | [(k, v)] => (k ++ String equals v)%string
  | (k, v) :: rest => (k ++ String equals v ++ String newline (render rest))%string
  end.

(** The characters of [s]. *)
Fixpoint chars (s : string) : list ascii :=
  match s with
  | EmptyString => []
  | String c r => c :: chars r
  end.

(** A key that survives the parser unchanged: not empty, no [=], no line
    feed, no whitespace at either end. *)
Definition clean_key (k : string) : Prop :=
  k ≠ EmptyString ∧ (equals ∉ chars k) ∧ (newline ∉ chars k) ∧ strip k = k.

(** A value that does: no line feed, no whitespace at either end. *)
Definition clean_value (v : string) : Prop :=
  (newline ∉ chars v) ∧ strip v = v.

End AlertText.

(** ** main.py: start-up *)

Module MainStartup.

Section Startup.
Context `{Runtime}.

(** [startup_event]: authenticate, then sweep positions and pending
    orders; a failing sweep is logged and forgotten, a failing
    authentication is logged (three lines) and raised again. *)
Definition startup_event : M unit :=
  try_except
    (TradovateApi.authenticate;;
     r ← attempt (closed_positions ← TradovateClient.close_all_positions;
                  cancelled_orders ← TradovateClient.cancel_all_pending_orders;
                  mret ());
     match r with
     | inr _ => mret ()
     | inl _ => log (LogWarning "Startup cleanup failed (non-critical)")
     end)
    (λ e, log (LogError "=== AUTHENTICATION FAILED ===");;
          log (LogError "Error");;
          log (LogError "Traceback");;
          raise e).

End Startup.

End MainStartup.

(** ** enhanced_main.py: the head of the webhook (lines 306-330) *)

Module EnhancedHead.

(** One entry of the global [last_alert] dict. *)
Record last_record := {
  direction : string;
  timestamp : Z;
}.

(** The dict [last_alert].  Its keys are whatever [data.get("symbol")]
    gave, so they are compared as Python compares keys: by [==]. *)
Definition alerts := list (pyval * last_record).

(** [last_alert.get(symbol)] *)
Fixpoint dict_get (symbol : pyval) (last_alert : alerts) : option last_record :=
  match last_alert with
  | [] => None
  | (k, v) :: rest => if py_eq k symbol then Some v else dict_get symbol rest
  end.

(** [last_alert[symbol] = v] *)
Fixpoint dict_set (symbol : pyval) (v : last_record) (last_alert : alerts) : alerts :=
  match last_alert with
  | [] => [(symbol, v)]
  | (k, v') :: rest =>
      if py_eq k symbol then (k, v) :: rest else (k, v') :: dict_set symbol v rest
  end.

(** How the head ends when it does not raise: the alert is ignored, or the
    handler goes on with the mapped symbol and the action. *)
Inductive verdict :=
| Ignored
| Accepted (symbol : pyval) (action : string).

(** Lines 306-330, with [now] the value of [datetime.utcnow()]: the head
    ends in an exception or a verdict, and leaves [last_alert]. *)
Definition head (WEBHOOK_SECRET : option string) (now : Z) (data : dict)
    (last_alert : alerts) : (exn + verdict) * alerts :=
  match WEBHOOK_SECRET with
  | None => (inl (HTTPException 500 "Missing WEBHOOK_SECRET"), last_alert)
  | Some _ =>
      let symbol := get data "symbol" in
      let action := get data "action" in
      if negb (truthy symbol) || negb (truthy action) then
        (inl (HTTPException 400 "Missing required fields: symbol or action"), last_alert)
      else
        let symbol := MainFixed.map_symbol symbol in
        match action with
        | PStr a =>
            let direction := lower a in
            let accept :=
              (inr (Accepted symbol a),
               dict_set symbol {| direction := direction; timestamp := now |} last_alert) in
            match dict_get symbol last_alert with
            | Some last =>
                if String.eqb (EnhancedHead.direction last) direction
                then (inr Ignored, last_alert)
                else accept
            | None => accept
            end
        | _ => (inl (PyError "AttributeError"), last_alert)
        end
  end.

(** The head run over a sequence of alerts, each with its arrival time. *)
Definition run (WEBHOOK_SECRET : option string) (history : list (Z * dict))
    (last_alert : alerts) : alerts :=
  foldl (λ la h, (head WEBHOOK_SECRET h.1 h.2 la).2) last_alert history.

(** The symbol under which the guard files an alert. *)
Definition filed_under (data : dict) : pyval := MainFixed.map_symbol (get data "symbol").

End EnhancedHead.

(** ** Histories of the deduplication guard

    The guard is driven by a sequence of calls: alerts passed to
    [is_duplicate_alert] and runs of [cleanup_old_tracking_data].  Next to
    the [last_alert] dict of the code, the replay keeps, per symbol, the
    last alert the guard let through (its time and payload). *)

Module History.

Inductive call :=
| Alert (t : Z) (symbol action : string) (data : dict)
| Cleanup (t : Z).

Definition time_of (c : call) : Z :=
  match c with
  | Alert t _ _ _ => t
  | Cleanup t => t
  end.

Record replay := {
  last_alert : gmap string Main.alert_record;      (* the code's dict *)
  let_through : gmap string (Z * dict);            (* ghost: last accepted alert *)
}.

Definition boot : replay := {| last_alert := ∅; let_through := ∅ |}.

Section Replay.
Context `{Runtime}.

Definition step (r : replay) (c : call) : replay :=
  match c with
  | Alert t symbol action data =>
      let '(dup, la) := Main.is_duplicate_alert t symbol action data (last_alert r) in
      {| last_alert := la;
         let_through := if dup then let_through r
                        else <[symbol := (t, data)]> (let_through r) |}
  | Cleanup t =>
      {| last_alert := (Main.cleanup_old_tracking_data t (last_alert r) ∅).1;
         let_through := let_through r |}
  end.

Definition run (h : list call) : replay := fold_left step h boot.

(** The clock never runs backwards along the history. *)
Definition chronological (h : list call) : Prop :=
  Sorted Z.le (map time_of h).

(** Two payloads differ in direction or in a price field. *)
Definition differ (d1 d2 : dict) : Prop :=
  get d1 "action" ≠ get d2 "action" ∨ get d1 "PRICE" ≠ get d2 "PRICE"
  ∨ get d1 "T1" ≠ get d2 "T1" ∨ get d1 "STOP" ≠ get d2 "STOP".

(** The digest does not collide on the two payloads. *)
Definition collision_free (d1 d2 : dict) : Prop :=
  Main.hash_alert d1 = Main.hash_alert d2 →
  Main.essential_fields d1 = Main.essential_fields d2.

(** Two payloads agree on the five fingerprinted fields. *)
Definition agree (d1 d2 : dict) : Prop :=
  get d1 "symbol" = get d2 "symbol" ∧ get d1 "action" = get d2 "action"
  ∧ get d1 "PRICE" = get d2 "PRICE" ∧ get d1 "T1" = get d2 "T1"
  ∧ get d1 "STOP" = get d2 "STOP".

End Replay.

End History.

(** ** A runtime and a broker to run the model on examples *)

Module Examples.

Definition render (v : pyval) : string :=
  match v with
  | PNone => "null"
  | PBool true => "true"
  | PBool false => "false"
  | PInt n => pretty n
  | PFloat (S754_finite s m e) =>
      (if s then "-" else EmptyString) ++ pretty (Z.pos m) ++ "p" ++ pretty e
  | PFloat _ => "0.0"
  | PStr s => ("'" ++ s ++ "'")%string
  end.

Fixpoint digits (s : string) (acc : Z) : option Z :=
  match s with
  | EmptyString => Some acc
  | String c r =>
      let n := nat_of_ascii c in
      if ((48 <=? n) && (n <=? 57))%nat then digits r (10 * acc + Z.of_nat (n - 48))
      else None
  end.

Definition decimal (s : string) : option Z :=
  match s with
  | EmptyString => None
  | _ => digits s 0
  end.

(** A stand-in runtime: the serialiser writes [key:value;] runs, the
    digest is the identity, [int] reads unsigned decimal literals. *)
#[local] Instance plain : Runtime := {|
  json_dumps_sort_keys kvs :=
    fold_right (λ kv acc, (kv.1 ++ ":" ++ render kv.2 ++ ";" ++ acc)%string) EmptyString kvs;
  sha256_hexdigest s := s;
  float_of_str _ := None;
  int_of_str := decimal;
|}.

(** 18500.0, 18550.0 and 18450.0 as binary64 values. *)
Definition f18500 : pyval := PFloat (S754_finite false 4625 2).
Definition f18550 : pyval := PFloat (S754_finite false 9275 1).
Definition f18450 : pyval := PFloat (S754_finite false 9225 1).

Definition buy_alert : dict :=
  {[ "symbol" := PStr "NQM5"; "action" := PStr "Buy";
     "PRICE" := f18500; "T1" := f18550; "STOP" := f18450 ]}.

Definition sell_alert : dict := <["action" := PStr "Sell"]> buy_alert.

Definition buy_alert_tagged : dict := <["config_id" := PStr "cfg-7"]> buy_alert.

(** A client that already holds a token, and the world at start-up for a
    given broker. *)
Definition authed : client_state :=
  {| access_token := PStr "token"; account_id := PInt 42; account_spec := PStr "DEMO" |}.

Definition boot_world (b : nat → request → reply * Z) : world :=
  {| broker := b; environ := λ _, None; calls := 0; clock := 0; trace := [];
     client := authed |}.

Definition answers (code : Z) (hdr : option string) (b : json) : reply * Z :=
  (Answer {| status_code := code; retry_after := hdr; body := b |}, 0).

(** A broker that answers every request with the same status and an empty
    object. *)
Definition always (code : Z) (hdr : option string) : nat → request → reply * Z :=
  λ _ _, answers code hdr (JObj ∅).

(** An order for NQM5 that the broker lists as Working whatever is asked
    of it, and a broker that lists it on every listing and answers every
    other request with 200 and an empty object. *)
Definition order7 : dict :=
  {[ "id" := PInt 7; "symbol" := PStr "NQM5"; "status" := PStr "Working" ]}.

Definition stubborn : nat → request → reply * Z :=
  λ _ r, match r with
         | GET_order_list => answers 200 None (JList [order7])
         | GET_position_list => answers 200 None (JList [])
         | _ => answers 200 None (JObj ∅)
         end.

(** A flat account: nothing listed, every placement accepted without an
    id. *)
Definition flat : nat → request → reply * Z :=
  λ _ r, match r with
         | GET_order_list | GET_position_list => answers 200 None (JList [])
         | _ => answers 200 None (JObj ∅)
         end.

(** The buy alert without its entry price. *)
Definition alert_without_price : dict := delete "PRICE" buy_alert.

(** A broker on whose books every order is Filled, and that answers every
    other request with 200 and an empty object. *)
Definition all_filled : nat → request → reply * Z :=
  λ _ r, match r with
         | GET_order _ => answers 200 None (JObj {[ "status" := PStr "Filled" ]})
         | _ => answers 200 None (JObj ∅)
         end.

Definition three_legs : Main.tracking :=
  [("ENTRY", PInt 1); ("TP1", PInt 2); ("STOP", PInt 3)].

(** The stop the planner holds back for the buy alert. *)
Definition held_stop : dict :=
  MainFixed.stop_spec (PInt 42) (PStr "NQM5") "Buy" f18450.

(** A broker on whose books every order is Working, and that answers
    every other request with 200 and an empty object. *)
Definition all_working : nat → request → reply * Z :=
  λ _ r, match r with
         | GET_order _ => answers 200 None (JObj {[ "status" := PStr "Working" ]})
         | _ => answers 200 None (JObj ∅)
         end.

(** An account long two contracts of NQM5; every other request is
    answered with 200 and an empty object. *)
Definition long_two : nat → request → reply * Z :=
  λ _ r, match r with
         | GET_position_list =>
             answers 200 None
               (JList [ {[ "symbol" := PStr "NQM5"; "netPos" := PInt 2 ]} ])
         | _ => answers 200 None (JObj ∅)
         end.

(** A stand-in for [json.loads]: nothing reads as JSON. *)
#[local] Instance no_json : AlertText.JsonLoads := {|
  AlertText.loads_into _ := inl "JSONDecodeError";
|}.

End Examples.

(** * Properties *)

(** ** The deduplication guard *)

Section GuardFacts.
Context `{Runtime}.
Import History.

Lemma verdict_true t s a d (la : gmap string Main.alert_record) :
  (Main.is_duplicate_alert t s a d la).1 = true ↔
  ∃ r, la !! s = Some r ∧ Main.alert_hash r = Main.hash_alert d
       ∧ t - Main.timestamp r < Main.seconds Main.DUPLICATE_THRESHOLD_SECONDS.
Proof.
  unfold Main.is_duplicate_alert.
  destruct (la !! s) as [r|] eqn:E; simpl.
  - destruct (String.eqb_spec (Main.alert_hash r) (Main.hash_alert d)) as [Eh|Nh]; simpl.
    + destruct (Z.ltb_spec (t - Main.timestamp r)
                  (Main.seconds Main.DUPLICATE_THRESHOLD_SECONDS)); simpl.
      * split; [intros _; eauto | done].
      * split; [done | intros (r' & [= <-] & _ & ?); lia].
    + split; [done | intros (r' & [= <-] & ? & _); done].
  - split; [done | intros (r' & ? & _); done].
Qed.

Lemma verdict_false_state t s a d (la : gmap string Main.alert_record) :
  (Main.is_duplicate_alert t s a d la).1 = false →
  (Main.is_duplicate_alert t s a d la).2 =
    <[s := {| Main.direction := lower a; Main.timestamp := t;
              Main.alert_hash := Main.hash_alert d |}]> la.
Proof.
  unfold Main.is_duplicate_alert.
  destruct (match la !! s with Some _ => _ | None => _ end); simpl; [done | done].
Qed.

Lemma verdict_true_state t s a d (la : gmap string Main.alert_record) :
  (Main.is_duplicate_alert t s a d la).1 = true →
  (Main.is_duplicate_alert t s a d la).2 = la.
Proof.
  unfold Main.is_duplicate_alert.
  destruct (match la !! s with Some _ => _ | None => _ end); simpl; [done | done].
Qed.

Lemma run_snoc h c : run (h ++ [c]) = step (run h) c.
Proof. unfold run. by rewrite fold_left_app. Qed.

(** What the code's dict and the ghost record have to do with each other. *)
Definition coherent (h : list call) (r : replay) : Prop :=
  (∀ s rec, last_alert r !! s = Some rec →
     ∃ d0, let_through r !! s = Some (Main.timestamp rec, d0)
           ∧ Main.alert_hash rec = Main.hash_alert d0)
  ∧ (∀ s t0 d0, last_alert r !! s = None → let_through r !! s = Some (t0, d0) →
     ∃ T, T ∈ map time_of h ∧ t0 + Main.seconds 60 < T).

Lemma run_coherent h : coherent h (run h).
Proof.
  induction h as [|c h IH] using rev_ind.
  - split; intros *; cbn; rewrite lookup_empty; done.
  - rewrite run_snoc. destruct IH as [IH1 IH2].
    assert (Hmono : ∀ T, T ∈ map time_of h → T ∈ map time_of (h ++ [c])).
    { intros T HT. rewrite map_app. apply elem_of_app. by left. }
    destruct c as [t s a d | T]; cbn [step].
    + destruct (Main.is_duplicate_alert t s a d (last_alert (run h)))
        as [dup la] eqn:E.
      destruct dup.
      * assert (la = last_alert (run h)) as ->.
        { pose proof (verdict_true_state t s a d (last_alert (run h))) as Hs.
          rewrite E in Hs. by apply Hs. }
        split; cbn.
        -- apply IH1.
        -- intros s' t0 d0 Hn Hl. destruct (IH2 _ _ _ Hn Hl) as (T & ? & ?). eauto.
      * assert (la = <[s := {| Main.direction := lower a; Main.timestamp := t;
                                Main.alert_hash := Main.hash_alert d |}]>
                       (last_alert (run h))) as ->.
        { pose proof (verdict_false_state t s a d (last_alert (run h))) as Hs.
          rewrite E in Hs. by apply Hs. }
        split; cbn.
        -- intros s' rec. destruct (decide (s = s')) as [->|Hne].
           ++ rewrite !lookup_insert_eq. intros [= <-]. cbn. eauto.
           ++ rewrite !lookup_insert_ne by done. apply IH1.
        -- intros s' t0 d0. destruct (decide (s = s')) as [->|Hne].
           ++ rewrite lookup_insert_eq. done.
           ++ rewrite !lookup_insert_ne by done. intros Hn Hl.
              destruct (IH2 _ _ _ Hn Hl) as (T & ? & ?). eauto.
    + split; cbn.
      * intros s rec Hs. apply map_lookup_filter_Some in Hs as [Hs _]. by apply IH1.
      * intros s t0 d0 Hn Hl.
        destruct (last_alert (run h) !! s) as [rec|] eqn:Es.
        -- destruct (IH1 _ _ Es) as (d1 & Hl1 & _).
           rewrite Hl in Hl1. injection Hl1 as -> ->.
           apply map_lookup_filter_None in Hn as [Hn | Hn]; [congruence|].
           specialize (Hn _ Es). cbn in Hn.
           exists T. split.
           ++ rewrite map_app. apply elem_of_app. right. cbn. set_solver.
           ++ apply dec_stable in Hn. unfold Main.seconds in *.
              unfold Main.DUPLICATE_THRESHOLD_SECONDS, Main.COMPLETED_TRADE_COOLDOWN in Hn.
              lia.
        -- destruct (IH2 _ _ _ Es Hl) as (T' & ? & ?). eauto.
Qed.

Lemma chronological_last h c :
  chronological (h ++ [c]) → ∀ T, T ∈ map time_of h → T ≤ time_of c.
Proof.
  unfold chronological. rewrite map_app. cbn. intros Hs T HT.
  apply Sorted_StronglySorted in Hs; [| intros x y z; lia].
  induction (map time_of h) as [|x l IHl]; [by apply elem_of_nil in HT|].
  cbn in Hs. apply StronglySorted_inv in Hs as [Hs Hx].
  apply elem_of_cons in HT as [->|HT]; [| apply IHl; assumption].
  rewrite Forall_app, Forall_singleton in Hx. destruct Hx as [_ Hx]. exact Hx.
Qed.

End GuardFacts.

Section GuardClaims.
Context `{Runtime}.
Import History.

Lemma differ_fields d1 d2 :
  differ d1 d2 → Main.essential_fields d1 ≠ Main.essential_fields d2.
Proof.
  unfold differ, Main.essential_fields. intros Hd E.
  injection E as _ Ea Ep Et Es. tauto.
Qed.

Lemma agree_fields d1 d2 :
  agree d1 d2 → Main.essential_fields d1 = Main.essential_fields d2.
Proof.
  unfold agree, Main.essential_fields. intros (-> & -> & -> & -> & ->). done.
Qed.



End GuardClaims.



(** ** The adapter *)

Section MonadFacts.

Lemma bind_ret {A B} (m : M A) (f : A → M B) w a w' :
  m w = (Ret a, w') → (m ≫= f) w = f a w'.
Proof. unfold mbind, M_bind. by intros ->. Qed.

Lemma bind_raise {A B} (m : M A) (f : A → M B) w e w' :
  m w = (Raise e, w') → (m ≫= f) w = (Raise e, w').
Proof. unfold mbind, M_bind. by intros ->. Qed.

Lemma bind_spin {A B} (m : M A) (f : A → M B) w w' :
  m w = (Spin, w') → (m ≫= f) w = (Spin, w').
Proof. unfold mbind, M_bind. by intros ->. Qed.

Lemma attempt_ret {A} (m : M A) w a w' :
  m w = (Ret a, w') → attempt m w = (Ret (inr a), w').
Proof. unfold attempt. by intros ->. Qed.

Lemma attempt_raise {A} (m : M A) w e w' :
  m w = (Raise e, w') → attempt m w = (Ret (inl e), w').
Proof. unfold attempt. by intros ->. Qed.

Lemma send_answer r w resp took :
  broker w (calls w) r = (Answer resp, took) →
  send r w = (Ret resp, after_call w r).
Proof. unfold send. by intros ->. Qed.

Lemma send_failure r w took :
  broker w (calls w) r = (Failure, took) →
  send r w = (Raise (PyError "httpx.TransportError"), after_call w r).
Proof. unfold send. by intros ->. Qed.

Lemma wp_ret {A} (a : A) w Q : Q (Ret a) w → wp (mret a) w Q.
Proof. done. Qed.

Lemma wp_raise {A} (e : exn) w (Q : outcome A → world → Prop) :
  Q (Raise e) w → wp (raise e) w Q.
Proof. done. Qed.

Lemma wp_spin {A} w (Q : outcome A → world → Prop) : Q Spin w → wp spin w Q.
Proof. done. Qed.

Lemma wp_bind {A B} (m : M A) (f : A → M B) w Q :
  wp m w (λ o w', match o with
                  | Ret a => wp (f a) w' Q
                  | Raise e => Q (Raise e) w'
                  | Spin => Q Spin w'
                  end) →
  wp (m ≫= f) w Q.
Proof. unfold wp, mbind, M_bind. by destruct (m w) as [[a|e|] w']. Qed.

Lemma wp_attempt {A} (m : M A) w Q :
  wp m w (λ o w', match o with
                  | Ret a => Q (Ret (inr a)) w'
                  | Raise e => Q (Ret (inl e)) w'
                  | Spin => Q Spin w'
                  end) →
  wp (attempt m) w Q.
Proof. unfold wp, attempt. by destruct (m w) as [[a|e|] w']. Qed.

Lemma wp_try_except {A} (m : M A) h w Q :
  wp m w (λ o w', match o with
                  | Ret a => Q (Ret a) w'
                  | Raise e => wp (h e) w' Q
                  | Spin => Q Spin w'
                  end) →
  wp (try_except m h) w Q.
Proof. unfold wp, try_except. by destruct (m w) as [[a|e|] w']. Qed.

Lemma wp_send r w Q :
  (∀ resp, (broker w (calls w) r).1 = Answer resp → Q (Ret resp) (after_call w r)) →
  ((broker w (calls w) r).1 = Failure →
   Q (Raise (PyError "httpx.TransportError")) (after_call w r)) →
  wp (send r) w Q.
Proof.
  unfold wp, send. intros Ha Hf.
  destruct ((broker w (calls w) r).1) as [resp|]; cbn; auto.
Qed.

Lemma wp_emit e w Q : Q (Ret ()) (record e w) → wp (emit e) w Q.
Proof. done. Qed.

Lemma wp_log l w Q : Q (Ret ()) (record (Logged l) w) → wp (log l) w Q.
Proof. done. Qed.

Lemma wp_sleep ms w Q : Q (Ret ()) (slept ms w) → wp (sleep ms) w Q.
Proof. done. Qed.

Lemma wp_loop_time w Q : Q (Ret (clock w)) w → wp loop_time w Q.
Proof. done. Qed.

Lemma wp_get_client w Q : Q (Ret (client w)) w → wp get_client w Q.
Proof. done. Qed.

Lemma wp_set_client c w Q : Q (Ret ()) (with_client c w) → wp (set_client c) w Q.
Proof. done. Qed.

Lemma wp_getenv n w Q : Q (Ret (environ w n)) w → wp (getenv n) w Q.
Proof. done. Qed.

Lemma wp_raise_for_status r w Q :
  (is_success (status_code r) = true → Q (Ret ()) w) →
  (is_success (status_code r) = false → Q (Raise (HTTPStatusError r)) w) →
  wp (raise_for_status r) w Q.
Proof.
  unfold raise_for_status. destruct (is_success (status_code r)); intros H1 H2.
  - by apply wp_ret, H1.
  - by apply wp_raise, H2.
Qed.

Lemma wp_mono {A} (m : M A) w (Q Q' : outcome A → world → Prop) :
  wp m w Q → (∀ o w', Q o w' → Q' o w') → wp m w Q'.
Proof. unfold wp. auto. Qed.

Lemma wp_elim {A} (m : M A) w Q : wp m w Q → Q (m w).1 (m w).2.
Proof. done. Qed.

(** Projections of the world updates. *)
Lemma trace_record e w : trace (record e w) = e :: trace w.
Proof. done. Qed.
Lemma trace_slept ms w : trace (slept ms w) = Slept ms :: trace w.
Proof. done. Qed.
Lemma trace_after_call w r :
  trace (after_call w r) = Call r (broker w (calls w) r).1 :: trace w.
Proof. done. Qed.
Lemma trace_with_client c w : trace (with_client c w) = trace w.
Proof. done. Qed.

Lemma broker_record e w : broker (record e w) = broker w.
Proof. done. Qed.
Lemma broker_slept ms w : broker (slept ms w) = broker w.
Proof. done. Qed.
Lemma broker_after_call w r : broker (after_call w r) = broker w.
Proof. done. Qed.
Lemma broker_with_client c w : broker (with_client c w) = broker w.
Proof. done. Qed.

Lemma calls_record e w : calls (record e w) = calls w.
Proof. done. Qed.
Lemma calls_slept ms w : calls (slept ms w) = calls w.
Proof. done. Qed.
Lemma calls_after_call w r : calls (after_call w r) = S (calls w).
Proof. done. Qed.
Lemma calls_with_client c w : calls (with_client c w) = calls w.
Proof. done. Qed.

Lemma clock_record e w : clock (record e w) = clock w.
Proof. done. Qed.
Lemma clock_slept ms w : clock (slept ms w) = clock w + Z.max 0 ms.
Proof. done. Qed.
Lemma clock_after_call w r :
  clock (after_call w r) = clock w + Z.max 0 (broker w (calls w) r).2.
Proof. done. Qed.
Lemma clock_with_client c w : clock (with_client c w) = clock w.
Proof. done. Qed.

Lemma client_record e w : client (record e w) = client w.
Proof. done. Qed.
Lemma client_slept ms w : client (slept ms w) = client w.
Proof. done. Qed.
Lemma client_after_call w r : client (after_call w r) = client w.
Proof. done. Qed.
Lemma client_with_client c w : client (with_client c w) = c.
Proof. done. Qed.

End MonadFacts.

Create Rewrite HintDb world.

#[global] Hint Rewrite trace_record trace_slept trace_after_call trace_with_client
  broker_record broker_slept broker_after_call broker_with_client
  calls_record calls_slept calls_after_call calls_with_client
  clock_record clock_slept clock_after_call clock_with_client
  client_record client_slept client_after_call client_with_client : world.

(** Normalise the worlds in the goal and the context, then replace each
    broker reply by what the context says it was. *)
Ltac world_simpl :=
  autorewrite with world in *;
  repeat match goal with
         | H : (broker ?w ?n ?r).1 = _ |- context [(broker ?w ?n ?r).1] => rewrite H
         end.

(** One step of symbolic execution of a handler under [wp]. *)
Ltac wp_step :=
  lazymatch goal with
  | |- wp (mbind _ _) _ _ => apply wp_bind
  | |- wp (_ ≫= _) _ _ => apply wp_bind
  | |- wp (mret _) _ _ => apply wp_ret
  | |- wp (raise _) _ _ => apply wp_raise
  | |- wp spin _ _ => apply wp_spin
  | |- wp (attempt _) _ _ => apply wp_attempt
  | |- wp (try_except _ _) _ _ => apply wp_try_except
  | |- wp (send _) _ _ => apply wp_send; [intros ? ? | intros ?]
  | |- wp (log _) _ _ => apply wp_log
  | |- wp (emit _) _ _ => apply wp_emit
  | |- wp (sleep _) _ _ => apply wp_sleep
  | |- wp loop_time _ _ => apply wp_loop_time
  | |- wp get_client _ _ => apply wp_get_client
  | |- wp (set_client _) _ _ => apply wp_set_client
  | |- wp (getenv _) _ _ => apply wp_getenv
  | |- wp (raise_for_status _) _ _ => apply wp_raise_for_status; intros ?
  | |- wp (match ?x with _ => _ end) _ _ => destruct x eqn:?
  | |- wp (if ?x then _ else _) _ _ => destruct x eqn:?
  | |- wp (let '(_, _) := ?x in _) _ _ => destruct x eqn:?
  | |- wp (let _ := _ in _) _ _ => cbn zeta
  end.

Ltac wp_run := repeat wp_step.

Section AdapterClaims.
Context `{Runtime}.

(** C9.  Once the adapter holds (or has obtained) its token, a cancel
    request answered 404 makes [cancel_order] return the "already handled"
    result without raising, and a cancel request answered with any other
    non-2xx status raises an HTTPException carrying that status. *)
Theorem cancel_404_is_success (order_id : pyval) (w w1 : world)
    (resp : http_response) (took : Z) :
  TradovateApi.ensure_token w = (Ret (), w1) →
  broker w1 (calls w1) (POST_order_cancelorder {[ "orderId" := order_id ]})
  = (Answer resp, took) →
  (status_code resp = 404 →
     (TradovateApi.cancel_order order_id w).1 = Ret (JObj TradovateApi.already_handled))
  ∧ (is_success (status_code resp) = false → status_code resp ≠ 404 →
     (TradovateApi.cancel_order order_id w).1
     = Raise (HTTPException (status_code resp) "Failed to cancel order")).
Proof.
  intros Htok Hans.
  assert (Hfail : is_success (status_code resp) = false →
    attempt (resp ← send (POST_order_cancelorder {[ "orderId" := order_id ]});
             raise_for_status resp;; json_any resp) w1
    = (Ret (inl (HTTPStatusError resp)),
       after_call w1 (POST_order_cancelorder {[ "orderId" := order_id ]}))).
  { intros Hs. apply attempt_raise.
    rewrite (bind_ret _ _ _ _ _ (send_answer _ _ _ _ Hans)).
    apply bind_raise. unfold raise_for_status. by rewrite Hs. }
  split.
  - intros H404. unfold TradovateApi.cancel_order.
    rewrite (bind_ret _ _ _ _ _ Htok).
    rewrite (bind_ret _ _ _ _ _ (Hfail ltac:(by rewrite H404))).
    by rewrite H404.
  - intros Hs Hne. unfold TradovateApi.cancel_order.
    rewrite (bind_ret _ _ _ _ _ Htok).
    rewrite (bind_ret _ _ _ _ _ (Hfail Hs)).
    destruct (Z.eqb_spec (status_code resp) 404); done.
Qed.

End AdapterClaims.

Lemma cancel_404_is_success_witness :
  (TradovateApi.cancel_order (H := Examples.plain) (PInt 7)
     (Examples.boot_world (Examples.always 404 None))).1
  = Ret (JObj TradovateApi.already_handled).
Proof.
  refine (proj1 (cancel_404_is_success (H := Examples.plain) (PInt 7)
            (Examples.boot_world (Examples.always 404 None))
            (Examples.boot_world (Examples.always 404 None))
            {| status_code := 404; retry_after := None; body := JObj ∅ |} 0 _ _) _);
    reflexivity.
Defined.

Section AdapterBackoff.
Context `{Runtime}.
Import TradovateApi.

(** Events of a round that cannot be rate-limit answers. *)
Definition calm (e : event) : Prop :=
  match e with
  | Call _ (Answer resp) => is_success (status_code resp) = true
  | Call _ Failure => True
  | _ => False
  end.

(** The events of one [authenticate_attempt] against its outcome. *)
Definition round_shape (out : outcome unit) (new : list event) : Prop :=
  match out with
  | Raise (HTTPStatusError resp) =>
      ∃ r older, new = Call r (Answer resp) :: older
                 ∧ is_success (status_code resp) = false ∧ Forall calm older
  | Spin => False
  | _ => Forall calm new
  end.

Ltac grown :=
  first [ eexists []; split; [reflexivity|]
        | eexists [_]; split; [reflexivity|]
        | eexists [_; _]; split; [reflexivity|]
        | eexists [_; _; _]; split; [reflexivity|] ].

Lemma authenticate_attempt_shape w :
  wp authenticate_attempt w
     (λ out w', ∃ new, trace w' = new ++ trace w ∧ round_shape out new).
Proof.
  unfold authenticate_attempt, set_access_token, set_account_id, set_account_spec,
    json_obj, json_list.
  wp_run; world_simpl; grown; cbn; eauto 10; repeat (constructor; cbn; try done).
Qed.

Lemma backed_off_calm i pre rest :
  Forall calm pre → backed_off i (pre ++ rest) ↔ backed_off i rest.
Proof.
  induction 1 as [|e pre He _ IH]; [done|].
  cbn [app]. destruct e as [r [resp|]| | |]; cbn in He; try done.
  cbn [backed_off]. unfold is_success in He.
  destruct (Z.eqb_spec (status_code resp) 429) as [E|_]; [|done].
  rewrite E in He. done.
Qed.

Lemma rate_limited_calm l : Forall calm l → rate_limited l = 0%nat.
Proof.
  unfold rate_limited. induction 1 as [|e l He _ IH]; [done|].
  cbn. destruct e as [r [resp|]| | |]; cbn in *; try done.
  unfold is_success in He.
  destruct (Z.eqb_spec (status_code resp) 429) as [E|_]; [|done].
  rewrite E in He. done.
Qed.

Lemma rate_limited_app l1 l2 :
  rate_limited (l1 ++ l2) = (rate_limited l1 + rate_limited l2)%nat.
Proof. unfold rate_limited. by rewrite List.filter_app, length_app. Qed.

Lemma backed_off_all_calm i l : Forall calm l → backed_off i l.
Proof.
  intros Hl. apply (backed_off_calm i l []) in Hl. rewrite app_nil_r in Hl.
  by apply Hl.
Qed.

Lemma rate_limited_round resp r older :
  Forall calm older →
  rate_limited (Call r (Answer resp) :: older)
  = if status_code resp =? 429 then 1%nat else 0%nat.
Proof.
  intros Hc. change (Call r (Answer resp) :: older)
    with ([Call r (Answer resp)] ++ older).
  rewrite rate_limited_app, (rate_limited_calm _ Hc).
  unfold rate_limited. cbn. by destruct (status_code resp =? 429).
Qed.

Lemma authenticate_from_backed_off k : ∀ i w,
  wp (authenticate_from i k) w
     (λ out w', ∃ new, trace w' = new ++ trace w
        ∧ backed_off i (rev new)
        ∧ (rate_limited new ≤ k)%nat
        ∧ (rate_limited new = k → out = Raise exhausted ∨ out = Raise (PyError "ValueError"))
        ∧ (out = Raise exhausted → rate_limited new = k)
        ∧ out ≠ Spin).
Proof.
  induction k as [|k IH]; intros i w; cbn [authenticate_from].
  - wp_run. world_simpl. exists [Logged LogMaxRetries]. cbn. eauto 10.
  - wp_step. wp_step.
    eapply wp_mono; [apply authenticate_attempt_shape|].
    intros out w1 (new1 & Ht1 & Hshape).
    destruct out as [[]|e|]; [| |done].
    + wp_run. exists new1. rewrite Ht1. cbn in Hshape.
      rewrite (rate_limited_calm _ Hshape).
      repeat split; try done; try lia.
      by apply backed_off_all_calm, Forall_rev.
    + destruct e as [resp|code detail|kind]; cbn in Hshape.
      * destruct Hshape as (r & older & -> & Hfail & Hcalm).
        pose proof (rate_limited_round resp r older Hcalm) as Hrl.
        destruct (status_code resp =? 429) eqn:E429.
        -- fold (delay_for i resp). destruct (delay_for i resp) as [delay|] eqn:Ed.
           ++ wp_step. wp_step. wp_step. wp_step.
              eapply wp_mono; [apply IH|].
              intros out w' (new & Ht & Hb & Hle & Hex & Hex' & Hns).
              exists (new ++ [Slept (delay * 1000); Logged (LogRateLimited delay)]
                          ++ Call r (Answer resp) :: older).
              split; [| split; [| split; [| split; [| split]]]].
              ** rewrite Ht. world_simpl. rewrite Ht1. by rewrite <- !app_assoc.
              ** rewrite !rev_app_distr. cbn [rev app]. rewrite <- !app_assoc.
                 apply backed_off_calm; [by apply Forall_rev|].
                 cbn [app backed_off]. rewrite E429. done.
              ** rewrite !rate_limited_app, Hrl.
                 change (rate_limited [Slept (delay * 1000); Logged (LogRateLimited delay)])
                   with 0%nat. lia.
              ** rewrite !rate_limited_app, Hrl.
                 change (rate_limited [Slept (delay * 1000); Logged (LogRateLimited delay)])
                   with 0%nat. intros E. apply Hex. lia.
              ** rewrite !rate_limited_app, Hrl.
                 change (rate_limited [Slept (delay * 1000); Logged (LogRateLimited delay)])
                   with 0%nat. intros E. specialize (Hex' E). lia.
              ** done.
           ++ wp_step. exists (Call r (Answer resp) :: older).
              split; [done|]. split; [| split; [| split; [| split]]].
              ** cbn [rev]. apply backed_off_calm; [by apply Forall_rev|].
                 cbn. by rewrite E429.
              ** rewrite Hrl. lia.
              ** auto.
              ** done.
              ** done.
        -- wp_step. exists (Call r (Answer resp) :: older).
           split; [done|]. split; [| split; [| split; [| split]]].
           ++ cbn [rev]. apply backed_off_calm; [by apply Forall_rev|].
              cbn. by rewrite E429.
           ++ rewrite Hrl. lia.
           ++ rewrite Hrl. done.
           ++ intros E. inversion E.
           ++ done.
      * wp_step. exists new1. rewrite (rate_limited_calm _ Hshape).
        repeat split; try done; try lia.
        by apply backed_off_all_calm, Forall_rev.
      * wp_step. exists new1. rewrite (rate_limited_calm _ Hshape).
        repeat split; try done; try lia.
        by apply backed_off_all_calm, Forall_rev.
Qed.

Lemma place_order_propagates w symbol action quantity payload resp :
  truthy (access_token (client w)) = true →
  payload ≠ ∅ →
  truthy (get payload "accountId") = true →
  (broker w (calls w) (POST_order_placeorder payload)).1 = Answer resp →
  is_success (status_code resp) = false →
  place_order symbol action quantity (Some payload) w
  = (Raise (HTTPException (status_code resp) "Order placement failed"),
     after_call w (POST_order_placeorder payload)).
Proof.
  intros Htok Hne Hacc Hans Hfail.
  unfold place_order, ensure_token, get_client, mbind, M_bind, attempt, send,
    raise_for_status; cbn.
  rewrite Htok; cbn. destruct (decide (payload = ∅)) as [|_]; [done|]. cbn.
  rewrite Hacc; cbn. rewrite Hans; cbn. rewrite Hfail. done.
Qed.


End AdapterBackoff.



(** ** The cancel sweep *)

Section SweepFacts.
Import Main.

Lemma wp_bind_inv {A B} (m : M A) (f : A → M B) w Q :
  wp (m ≫= f) w Q →
  wp m w (λ o w', match o with
                  | Ret a => wp (f a) w' Q
                  | Raise e => Q (Raise e) w'
                  | Spin => Q Spin w'
                  end).
Proof. unfold wp, mbind, M_bind. by destruct (m w) as [[a|e|] w']. Qed.

Lemma list_orders_wp w Q :
  (∀ orders, read_listing (broker w (calls w) GET_order_list).1 = inr orders →
             Q (Ret orders) (after_call w GET_order_list)) →
  (∀ e, read_listing (broker w (calls w) GET_order_list).1 = inl e →
        Q (Raise e) (after_call w GET_order_list)) →
  wp list_orders w Q.
Proof.
  intros Hok Herr. unfold list_orders, json_list, read_listing in *.
  wp_run.
  all: match goal with
       | Ha : (broker _ _ _).1 = _ |- _ => rewrite Ha in Hok, Herr
       end; cbn in Hok, Herr.
  all: repeat match goal with
       | Hs : is_success _ = _ |- _ => rewrite Hs in Hok, Herr
       | Hb : body _ = _ |- _ => rewrite Hb in Hok, Herr
       | Hd : decide _ = _ |- _ => rewrite Hd in Hok, Herr
       end.
  all: first [ by apply Hok | by apply Herr ].
Qed.

Lemma cancel_sweep_wp (open_orders : list dict) w :
  wp (for_each open_orders cancel_one) w
     (λ out w', out = Ret ()
                ∧ ∃ evs, trace w' = rev evs ++ trace w ∧ cancels_for open_orders evs).
Proof.
  revert w. induction open_orders as [|o rest IH]; intros w; cbn [for_each].
  - wp_run. split; [done|]. exists []. split; [done | constructor].
  - wp_step. unfold cancel_one. wp_run.
    all: eapply wp_mono; [apply IH|]; cbn beta.
    all: intros out w' (-> & evs & Ht & Hc); split; [done|].
    + eexists (_ :: evs). split; [| by apply cancels_sent].
      rewrite Ht. world_simpl. cbn [rev]. by rewrite <- app_assoc.
    + eexists (_ :: _ :: evs). split; [| by apply cancels_lost].
      rewrite Ht. world_simpl. cbn [rev]. by rewrite <- !app_assoc.
    + exists evs. split; [done | by apply cancels_no_id].
Qed.

(** The two statements after the loop. *)
Definition closing_code (symbol : pyval) : M unit :=
  orders ← list_orders;
  let open_orders := List.filter (not_terminal_for symbol) orders in
  match open_orders with
  | [] => mret ()
  | _ => log (LogStillOpen symbol (map (λ o, get o "id") open_orders)
                           (map (λ o, get o "status") open_orders))
  end.

(** Every run opens with a listing, answered as the broker answers the
    next call. *)
Definition opens_with (w : world) (evs : list event) : Prop :=
  ∃ rest, evs = Call GET_order_list (broker w (calls w) GET_order_list).1 :: rest.

Lemma closing_wp symbol w :
  wp (closing_code symbol) w
     (λ out w', ∃ evs, trace w' = rev evs ++ trace w ∧ closing symbol evs out
                       ∧ opens_with w evs).
Proof.
  unfold closing_code, opens_with. wp_step. apply list_orders_wp.
  - intros orders Hr. cbn zeta.
    destruct (List.filter (not_terminal_for symbol) orders) as [|o os] eqn:Ef.
    + wp_run. eexists [_]. split; [done|]. split; [by eapply closing_clear | eauto].
    + wp_run. eexists [_; _]. split; [done|]. split; [| eauto].
      rewrite <- Ef. eapply closing_left; [done|]. by rewrite Ef.
  - intros e Hr. eexists [_]. split; [done|]. split; [by apply closing_failed | eauto].
Qed.

Lemma cancel_rounds_swept symbol k : ∀ w,
  wp (cancel_rounds k symbol ≫= λ _, closing_code symbol) w
     (λ out w', ∃ evs, trace w' = rev evs ++ trace w ∧ swept symbol k evs out
                       ∧ opens_with w evs).
Proof.
  induction k as [|k IH]; intros w; cbn [cancel_rounds].
  - wp_step. wp_step. eapply wp_mono; [apply closing_wp|].
    intros out w' (evs & Ht & Hc & Ho). exists evs.
    split; [done|]. split; [by constructor | done].
  - wp_step. wp_step. apply list_orders_wp.
    + intros orders Hr. cbn zeta.
      destruct (List.filter (not_terminal_for symbol) orders) as [|o os] eqn:Ef.
      * wp_step. eapply wp_mono; [apply closing_wp|].
        intros out w' (evs & Ht & Hc & _). eexists (_ :: evs). split; [| split].
        -- rewrite Ht. world_simpl. cbn [rev]. by rewrite <- app_assoc.
        -- by eapply swept_clear.
        -- unfold opens_with. eauto.
      * wp_step. eapply wp_mono; [apply cancel_sweep_wp|].
        intros out w1 (-> & cancels & Ht1 & Hc). wp_step. wp_step.
        eapply wp_mono; [exact (wp_bind_inv _ _ _ _ (IH (slept 500 w1)))|].
        intros out w2 Hout. cbn beta in Hout.
        assert (Hmk : ∀ out w2, (∃ evs, trace w2 = rev evs ++ trace (slept 500 w1)
                                        ∧ swept symbol k evs out
                                        ∧ opens_with (slept 500 w1) evs) →
                  ∃ evs, trace w2 = rev evs ++ trace w ∧ swept symbol (S k) evs out
                         ∧ opens_with w evs).
        { clear -Hr Ef Ht1 Hc. intros out w2 (evs & Ht & Hs & _).
          eexists (_ :: cancels ++ Slept 500 :: evs). split; [| split].
          - rewrite Ht. world_simpl. rewrite Ht1. world_simpl.
            cbn [rev]. rewrite rev_app_distr. cbn [rev].
            by rewrite <- !app_assoc.
          - eapply swept_round; [done | by rewrite Ef | by rewrite Ef | done].
          - unfold opens_with. eauto. }
        destruct out as [[]|e|]; [| by apply Hmk | by apply Hmk].
        eapply wp_mono; [apply Hout|]. apply Hmk.
    + intros e Hr. eexists [_]. split; [done|].
      split; [by apply swept_failed | unfold opens_with; eauto].
Qed.

Lemma count_app p l1 l2 : count p (l1 ++ l2) = (count p l1 + count p l2)%nat.
Proof. unfold count. by rewrite List.filter_app, length_app. Qed.

Lemma cancels_for_quiet os evs :
  cancels_for os evs →
  count is_listing evs = 0%nat ∧ count is_sleep evs = 0%nat
  ∧ ∀ ms, Slept ms ∉ evs.
Proof.
  induction 1 as [|o rest evs _ _ IH|o rest evs resp _ _ IH|o rest evs _ _ IH].
  - repeat split; [done..|]. intros ms Hin. by apply elem_of_nil in Hin.
  - done.
  - destruct IH as (? & ? & Hs). repeat split; [done..|].
    intros ms Hin. apply elem_of_cons in Hin as [[=]|Hin]. by apply (Hs ms).
  - destruct IH as (? & ? & Hs). repeat split; [done..|].
    intros ms Hin. apply elem_of_cons in Hin as [[=]|Hin].
    apply elem_of_cons in Hin as [[=]|Hin]. by apply (Hs ms).
Qed.

Lemma cancels_for_covers os evs :
  cancels_for os evs →
  ∀ o, o ∈ os → truthy (get o "id") = true →
       ∃ a, Call (POST_order_cancel (get o "id")) a ∈ evs.
Proof.
  induction 1 as [|o' rest evs Hid _ IH|o' rest evs resp _ _ IH|o' rest evs _ _ IH];
    intros o Hin Ht.
  - by apply elem_of_nil in Hin.
  - apply elem_of_cons in Hin as [->|Hin]; [congruence | by apply IH].
  - apply elem_of_cons in Hin as [->|Hin].
    + eexists. apply elem_of_cons. by left.
    + destruct (IH o Hin Ht) as [a Ha]. exists a. apply elem_of_cons. by right.
  - apply elem_of_cons in Hin as [->|Hin].
    + eexists. apply elem_of_cons. by left.
    + destruct (IH o Hin Ht) as [a Ha]. exists a.
      apply elem_of_cons. right. apply elem_of_cons. by right.
Qed.

Lemma closing_bounds symbol evs out :
  closing symbol evs out →
  count is_listing evs = 1%nat ∧ count is_sleep evs = 0%nat
  ∧ (∀ ms, Slept ms ∉ evs) ∧ out ≠ Spin.
Proof.
  destruct 1; repeat split; try done.
  all: intros ms Hin; repeat (apply elem_of_cons in Hin as [[=]|Hin]);
    by apply elem_of_nil in Hin.
Qed.

Lemma swept_bounds symbol k evs out :
  swept symbol k evs out →
  (count is_listing evs ≤ S k)%nat ∧ (count is_sleep evs ≤ k)%nat
  ∧ (∀ ms, Slept ms ∈ evs → ms = 500) ∧ out ≠ Spin.
Proof.
  induction 1 as [evs out Hc|k a e Hr|k a orders evs out Hr Hf Hc
                 |k a orders cancels evs out Hr Hf Hcs _ IH].
  - destruct (closing_bounds _ _ _ Hc) as (Hl & Hs & Hn & Ho).
    repeat split; [lia | lia | | done]. intros ms Hin. by destruct (Hn ms).
  - repeat split; [cbn; lia | cbn; lia | | done].
    intros ms Hin. apply elem_of_cons in Hin as [[=]|Hin]. by apply elem_of_nil in Hin.
  - destruct (closing_bounds _ _ _ Hc) as (Hl & Hs & Hn & Ho).
    change (Call GET_order_list a :: evs) with ([Call GET_order_list a] ++ evs).
    rewrite !count_app, Hl, Hs. repeat split; [cbn; lia | cbn; lia | | done].
    intros ms Hin. apply elem_of_app in Hin as [Hin|Hin]; [| by destruct (Hn ms)].
    apply elem_of_cons in Hin as [[=]|Hin]. by apply elem_of_nil in Hin.
  - destruct IH as (Hl & Hs & Hms & Ho).
    destruct (cancels_for_quiet _ _ Hcs) as (Hcl & Hcsl & Hcn).
    change (Call GET_order_list a :: cancels ++ Slept 500 :: evs)
      with ([Call GET_order_list a] ++ cancels ++ [Slept 500] ++ evs).
    rewrite !count_app, Hcl, Hcsl. repeat split; [cbn; lia | cbn; lia | | done].
    intros ms Hin. apply elem_of_app in Hin as [Hin|Hin].
    { apply elem_of_cons in Hin as [[=]|Hin]. by apply elem_of_nil in Hin. }
    apply elem_of_app in Hin as [Hin|Hin]; [by destruct (Hcn ms)|].
    apply elem_of_app in Hin as [Hin|Hin]; [| by apply Hms].
    apply elem_of_cons in Hin as [[= ->]|Hin]; [done | by apply elem_of_nil in Hin].
Qed.


End SweepFacts.


(** Against the stubborn broker the sweep uses its whole budget, logs the
    order that is still open, and returns. *)
Example cancel_all_orders_exhausts_budget :
  let r := Main.cancel_all_orders (PStr "NQM5") (Examples.boot_world Examples.stubborn) in
  r.1 = Ret ()
  ∧ hd_error (trace r.2)
    = Some (Logged (LogStillOpen (PStr "NQM5") [PInt 7] [PStr "Working"]))
  ∧ Main.count Main.is_listing (trace r.2) = 9%nat
  ∧ Main.count Main.is_sleep (trace r.2) = 8%nat
  ∧ clock r.2 = 4000.
Proof. vm_compute. repeat split; reflexivity. Qed.

(** ** The bracket planner *)

Section PlannerFacts.
Context `{Runtime}.

Lemma make_plan_fixed data action symbol w :
  (MainFixed.make_plan data action symbol w).1
  = Ret (MainFixed.planned_legs data action,
         MainFixed.planned_stop (account_id (client w)) symbol action data)
  ∧ placed (trace (MainFixed.make_plan data action symbol w).2)
    = placed (trace w)
  ∧ client (MainFixed.make_plan data action symbol w).2 = client w
  ∧ broker (MainFixed.make_plan data action symbol w).2 = broker w
  ∧ calls (MainFixed.make_plan data action symbol w).2 = calls w.
Proof.
  unfold MainFixed.make_plan, MainFixed.planned_legs, MainFixed.planned_stop.
  destruct (data !! "T1"), (data !! "PRICE"), (data !! "STOP"); done.
Qed.

Lemma make_plan_enhanced data action symbol w :
  (EnhancedMain.make_plan data action symbol w).1
  = match EnhancedMain.converted (data !! "T1"), EnhancedMain.converted (data !! "PRICE"),
          EnhancedMain.converted (data !! "STOP") with
    | Some tp, Some en, Some st =>
        Ret (EnhancedMain.planned_legs tp en action,
             (λ x, MainFixed.stop_spec (account_id (client w)) symbol action (PFloat x))
               <$> st)
    | _, _, _ => Raise (PyError "ValueError")
    end.
Proof.
  unfold EnhancedMain.make_plan, EnhancedMain.planned_legs, EnhancedMain.converted,
    EnhancedMain.float_field.
  destruct (data !! "T1") as [t1|], (data !! "PRICE") as [p|],
    (data !! "STOP") as [st|];
    repeat match goal with
           | |- context [float ?v] => destruct (float v)
           end; done.
Qed.

Lemma order_payload_account a s l :
  get (MainFixed.order_payload a s l) "accountId" = a.
Proof. done. Qed.

Lemma order_payload_nonempty a s l : MainFixed.order_payload a s l ≠ ∅.
Proof.
  intros E. apply (f_equal (λ d : dict, d !! "orderType")) in E.
  by rewrite lookup_empty in E.
Qed.

Lemma placed_app l1 l2 :
  placed (l1 ++ l2) = placed l1 ++ placed l2.
Proof.
  induction l1 as [|e l1 IH]; [done|].
  destruct e as [[] ?| | |]; cbn; by rewrite ?IH.
Qed.

Lemma wp_known {A} (m : M A) w o w' (Q : outcome A → world → Prop) :
  m w = (o, w') → Q o w' → wp m w Q.
Proof. unfold wp. by intros ->. Qed.

Lemma place_order_once w symbol action quantity payload :
  truthy (access_token (client w)) = true →
  payload ≠ ∅ →
  truthy (get payload "accountId") = true →
  TradovateApi.place_order symbol action quantity (Some payload) w
  = (TradovateApi.placement_result (broker w (calls w) (POST_order_placeorder payload)).1,
     after_call w (POST_order_placeorder payload)).
Proof.
  intros Htok Hne Hacc.
  unfold TradovateApi.place_order, TradovateApi.ensure_token, get_client, mbind,
    M_bind, attempt, send, raise_for_status, json_any, TradovateApi.placement_result; cbn.
  rewrite Htok; cbn. destruct (decide (payload = ∅)) as [|_]; [done|]. cbn.
  rewrite Hacc; cbn.
  destruct ((broker w (calls w) (POST_order_placeorder payload)).1) as [resp|]; cbn;
    [|done].
  destruct (is_success (status_code resp)); cbn; [|done].
  by destruct (body resp).
Qed.

Lemma execute_plan_places legs : ∀ symbol tracking results w,
  truthy (access_token (client w)) = true →
  truthy (account_id (client w)) = true →
  wp (MainFixed.execute_plan legs symbol tracking results) w
     (λ out w', ∃ t r evs,
        out = Ret (t, r) ∧ trace w' = rev evs ++ trace w
        ∧ placed evs
          = map (MainFixed.order_payload (account_id (client w)) symbol) legs
        ∧ client w' = client w).
Proof.
  induction legs as [|leg legs IH]; intros symbol tracking results w Htok Hacc;
    cbn [MainFixed.execute_plan].
  - wp_run. by exists tracking, results, [].
  - wp_step. wp_step. wp_step. wp_step. wp_step.
    eapply wp_known.
    { apply place_order_once; [done | apply order_payload_nonempty |].
      by rewrite order_payload_account. }
    set (w1 := after_call w _).
    assert (Hgo : ∀ t r (w2 : world) (logs : list event),
              trace w2 = logs ++ trace w1 → placed (rev logs) = [] →
              client w2 = client w →
              wp (MainFixed.execute_plan legs symbol t r) w2
                (λ out w', ∃ t r evs, out = Ret (t, r)
                   ∧ trace w' = rev evs ++ trace w
                   ∧ placed evs
                     = map (MainFixed.order_payload (account_id (client w)) symbol)
                           (leg :: legs)
                   ∧ client w' = client w)).
    { intros t r w2 logs Ht Hlogs Hcl.
      eapply wp_mono; [apply IH; by rewrite Hcl|].
      intros out w' (t' & r' & evs & -> & Ht' & Hp & Hcl').
      exists t', r', (Call (POST_order_placeorder
                              (MainFixed.order_payload (account_id (client w)) symbol leg))
                           (broker w (calls w)
                              (POST_order_placeorder
                                 (MainFixed.order_payload (account_id (client w)) symbol leg))).1
                      :: rev logs ++ evs).
      split; [done|]. split; [| split].
      - rewrite Ht', Ht. subst w1. world_simpl. cbn [rev].
        rewrite rev_app_distr, rev_involutive. by rewrite <- !app_assoc.
      - cbn [placed map]. by rewrite placed_app, Hp, Hcl, Hlogs.
      - congruence. }
    unfold TradovateApi.placement_result, json_get.
    destruct ((broker w (calls w) _).1) as [resp|];
      [destruct (is_success (status_code resp)); [destruct (body resp)|]|];
      wp_run.
    all: try (by apply (Hgo _ _ _ [])).
    all: by apply (Hgo _ _ _ [Logged (LogError "Error placing order")]).
Qed.

(** C6, as the code has it.  A missing PRICE is not an error: both
    planners log a warning and go on.  In main_fixed.py the plan is always
    produced; it holds the TP1 leg when T1 is present and no ENTRY leg, and
    the stop is still held back when STOP is present.  In enhanced_main.py
    the same holds unless [float] raises on T1 or STOP.  With PRICE present
    the ENTRY leg is in the plan whether or not T1 and STOP are there.  The
    execution loop (the adapter holding its token and account id) places
    exactly the legs of the plan, in order, so no entry order is submitted
    when PRICE is missing. *)
Theorem missing_price_skips_only_the_entry :
  (∀ data action symbol w,
     (MainFixed.make_plan data action symbol w).1
     = Ret (MainFixed.planned_legs data action,
            MainFixed.planned_stop (account_id (client w)) symbol action data))
  ∧ (∀ data action,
       data !! "PRICE" = None →
       MainFixed.planned_legs data action
       = match data !! "T1" with
         | Some t1 => [MainFixed.take_profit_leg action t1]
         | None => []
         end)
  ∧ (∀ data action p,
       data !! "PRICE" = Some p →
       MainFixed.entry_leg action p ∈ MainFixed.planned_legs data action)
  ∧ (∀ data action symbol w,
       data !! "PRICE" = None →
       match (EnhancedMain.make_plan data action symbol w).1 with
       | Ret (legs, _) =>
           legs = EnhancedMain.planned_legs (data !! "T1" ≫= float) None action
       | Raise _ =>
           EnhancedMain.converted (data !! "T1") = None
           ∨ EnhancedMain.converted (data !! "STOP") = None
       | Spin => False
       end)
  ∧ (∀ data action symbol w p x,
       data !! "PRICE" = Some p → float p = Some x →
       EnhancedMain.converted (data !! "T1") ≠ None →
       EnhancedMain.converted (data !! "STOP") ≠ None →
       ∃ legs sod,
         (EnhancedMain.make_plan data action symbol w).1 = Ret (legs, sod)
         ∧ MainFixed.entry_leg action (PFloat x) ∈ legs)
  ∧ (∀ legs symbol tracking results w,
       truthy (access_token (client w)) = true →
       truthy (account_id (client w)) = true →
       ∃ t r evs,
         (MainFixed.execute_plan legs symbol tracking results w).1 = Ret (t, r)
         ∧ trace (MainFixed.execute_plan legs symbol tracking results w).2
           = rev evs ++ trace w
         ∧ placed evs
           = map (MainFixed.order_payload (account_id (client w)) symbol) legs).
Proof.
  split; [| split; [| split; [| split; [| split]]]].
  - intros. apply make_plan_fixed.
  - intros data action Hp. unfold MainFixed.planned_legs. rewrite Hp.
    by rewrite app_nil_r.
  - intros data action p Hp. unfold MainFixed.planned_legs. rewrite Hp.
    apply elem_of_app. right. apply elem_of_cons. by left.
  - intros data action symbol w Hp. rewrite make_plan_enhanced, Hp. cbn.
    unfold EnhancedMain.converted.
    destruct (data !! "T1") as [t1|]; cbn; [destruct (float t1); cbn|];
      destruct (data !! "STOP") as [st|]; cbn; try destruct (float st); cbn; auto.
  - intros data action symbol w p x Hp Hx Ht Hs.
    rewrite make_plan_enhanced, Hp.
    destruct (EnhancedMain.converted (data !! "T1")) as [tp|]; [|done].
    destruct (EnhancedMain.converted (data !! "STOP")) as [st|]; [|done].
    cbn. rewrite Hx. eexists _, _. split; [done|].
    unfold EnhancedMain.planned_legs. apply elem_of_app. right.
    apply elem_of_cons. by left.
  - intros legs symbol tracking results w Htok Hacc.
    destruct (wp_elim _ _ _ (execute_plan_places legs symbol tracking results w Htok Hacc))
      as (t & r & evs & Ho & Ht & Hp & _).
    by exists t, r, evs.
Qed.

End PlannerFacts.

Lemma missing_price_skips_only_the_entry_witness :
  MainFixed.planned_legs Examples.alert_without_price "Buy"
  = [MainFixed.take_profit_leg "Buy" Examples.f18550]
  ∧ ∃ t r evs,
      (MainFixed.execute_plan (H := Examples.plain)
         (MainFixed.planned_legs Examples.alert_without_price "Buy")
         (PStr "NQM5") [("ENTRY", PNone); ("TP1", PNone); ("STOP", PNone)] []
         (Examples.boot_world Examples.flat)).1 = Ret (t, r)
      ∧ trace (MainFixed.execute_plan (H := Examples.plain)
                 (MainFixed.planned_legs Examples.alert_without_price "Buy")
                 (PStr "NQM5") [("ENTRY", PNone); ("TP1", PNone); ("STOP", PNone)] []
                 (Examples.boot_world Examples.flat)).2 = rev evs ++ []
      ∧ placed evs
        = map (MainFixed.order_payload (PInt 42) (PStr "NQM5"))
              (MainFixed.planned_legs Examples.alert_without_price "Buy").
Proof.
  destruct (missing_price_skips_only_the_entry (H := Examples.plain))
    as (_ & Hlegs & _ & _ & _ & Hexec).
  split.
  - apply (Hlegs Examples.alert_without_price "Buy"). reflexivity.
  - apply (Hexec _ (PStr "NQM5") _ [] (Examples.boot_world Examples.flat));
      reflexivity.
Defined.

(** C6 as stated fails: an alert without PRICE is not rejected.  On a flat
    account the main_fixed.py handler answers success after placing the
    take-profit order alone. *)
Lemma missing_price_is_not_rejected :
  ¬ MainFixed.rejected
      (MainFixed.webhook (H := Examples.plain) 30 Examples.alert_without_price
         (Examples.boot_world Examples.flat)).1.
Proof.
  intros [e He]. vm_compute in He. discriminate He.
Qed.

Example missing_price_places_take_profit_alone :
  let r := MainFixed.webhook (H := Examples.plain) 30 Examples.alert_without_price
             (Examples.boot_world Examples.flat) in
  placed (rev (trace r.2))
  = [MainFixed.order_payload (PInt 42) (PStr "NQM5")
       (MainFixed.take_profit_leg "Buy" Examples.f18550)].
Proof. vm_compute. reflexivity. Qed.

(** * The order monitors

    Facts about [monitor_all_orders] in main.py, main_fixed.py and
    enhanced_main.py. *)

(** ** The tracking dict *)

Section TrackingFacts.

Lemma nth_tracked (t : Main.tracking) : ∀ pos k v,
  NoDup t.*1 → nth_error t pos = Some (k, v) → Main.tracked t k = v.
Proof.
  induction t as [|[k0 v0] t IH]; intros pos k v Hnd Hn.
  - by destruct pos.
  - apply NoDup_cons in Hnd as [Hk0 Hnd]. destruct pos as [|pos]; cbn in *.
    + injection Hn as -> ->. by rewrite String.eqb_refl.
    + destruct (String.eqb_spec k0 k) as [->|_]; [|by eapply IH].
      exfalso. apply Hk0. apply nth_error_In in Hn.
      apply list_elem_of_In. apply (in_map fst) in Hn. exact Hn.
Qed.

Lemma set_item_keys (t : Main.tracking) k v :
  NoDup t.*1 → NoDup (MainFixed.set_item t k v).1.*1.
Proof.
  induction t as [|[k0 v0] t IH]; intros Hnd; cbn.
  - apply NoDup_singleton.
  - apply NoDup_cons in Hnd as [Hk0 Hnd].
    destruct (String.eqb_spec k0 k) as [->|Hne]; cbn.
    + by apply NoDup_cons.
    + destruct (MainFixed.set_item t k v) as [t' grew] eqn:E. cbn in *.
      apply NoDup_cons. split; [|by apply IH].
      intros Hin. apply Hk0. clear -Hin E Hne. revert t' grew E Hin.
      induction t as [|[k1 v1] t IHt]; intros t' grew E Hin; cbn in *.
      * injection E as <- _. apply list_elem_of_singleton in Hin. done.
      * destruct (String.eqb_spec k1 k) as [->|Hne1].
        -- injection E as <- _. exact Hin.
        -- destruct (MainFixed.set_item t k v) as [t'' g''] eqn:E'.
           injection E as <- _. cbn in Hin.
           apply elem_of_cons in Hin as [->|Hin]; [by left|].
           right. by eapply IHt.
Qed.

Lemma set_item_other (t : Main.tracking) k v k' :
  k ≠ k' → Main.tracked (MainFixed.set_item t k v).1 k' = Main.tracked t k'.
Proof.
  intros Hne. induction t as [|[k0 v0] t IH]; cbn.
  - destruct (String.eqb_spec k k'); done.
  - destruct (String.eqb_spec k0 k) as [->|Hne0]; cbn.
    + destruct (String.eqb_spec k k'); done.
    + destruct (MainFixed.set_item t k v) as [t' grew]. cbn in *.
      by rewrite IH.
Qed.

End TrackingFacts.

(** ** How the monitor of main.py leaves its loop *)

Section ExitFacts.
Import Main.

Lemma order_status_wp order_id w (Q : outcome (exn + pyval) → world → Prop) :
  (∀ st, reported_status (Call (GET_order order_id)
                               (broker w (calls w) (GET_order order_id)).1) = Some st →
         Q (Ret (inr st)) (after_call w (GET_order order_id))) →
  (∀ e, Q (Ret (inl e)) (after_call w (GET_order order_id))) →
  wp (attempt (order_status order_id)) w Q.
Proof.
  intros Hok Herr. unfold order_status, json_any, json_get, reported_status in *.
  wp_run; try apply Herr.
  all: apply Hok; rewrite H; cbn; rewrite H0.
  all: match goal with Hb : body _ = _ |- _ => rewrite Hb end; done.
Qed.

Lemma place_oso_returns d w :
  wp (place_oso d) w (λ out _, ∃ b, out = Ret b).
Proof. unfold place_oso, json_any. wp_run; eauto. Qed.

Lemma exit_leg_wp order_tracking symbol sod other l why w :
  wp (exit_leg order_tracking symbol sod other l why) w
     (λ out w', match out with
                | Ret (Returned why') =>
                    why' = why
                    ∧ ∃ sym dir,
                        if truthy (tracked order_tracking other) then
                          ∃ a,
                            trace w' = Call (POST_order_cancel (tracked order_tracking other)) a
                                       :: TradeCompleted sym dir :: trace w
                            ∨ ∃ lg, trace w'
                                    = Logged lg
                                      :: Call (POST_order_cancel (tracked order_tracking other)) a
                                      :: TradeCompleted sym dir :: trace w
                        else trace w' = TradeCompleted sym dir :: trace w
                | Ret (Excepted _) => True
                | _ => False
                end).
Proof.
  unfold exit_leg, mark_completed. wp_run; world_simpl; try done.
  all: split; [done|]; eexists _, _.
  all: repeat match goal with Ht : truthy _ = _ |- _ => rewrite Ht end.
  all: eauto 6.
Qed.

Lemma poll_exits items : ∀ order_tracking symbol sod l active w,
  (∀ k v, (k, v) ∈ items → tracked order_tracking k = v) →
  wp (poll items order_tracking symbol sod l active) w
     (λ out w', match out with
                | Ret (Returned TakeProfitFilled) =>
                    closes_on filled_ci_true true (tracked order_tracking "TP1")
                      (tracked order_tracking "STOP") (trace w')
                | Ret (Returned StopFilled) =>
                    closes_on filled_ci_true true (tracked order_tracking "STOP")
                      (tracked order_tracking "TP1") (trace w')
                | Ret (Returned _) => False
                | Ret _ => True
                | _ => False
                end).
Proof.
  induction items as [|[label order_id] rest IH];
    intros order_tracking symbol sod l active w Hitems; cbn [poll].
  - by wp_run.
  - assert (Hrest : ∀ k v, (k, v) ∈ rest → tracked order_tracking k = v).
    { intros k v Hin. apply Hitems. by right. }
    assert (Hid : tracked order_tracking label = order_id).
    { apply Hitems. by left. }
    destruct (is_none order_id); [by apply IH|].
    wp_step. apply order_status_wp; [|intros e; by wp_run].
    intros st Hst. cbn zeta.
    assert (Hexit : ∀ leg other why,
      (why = TakeProfitFilled ∧ leg = "TP1" ∧ other = "STOP")
      ∨ (why = StopFilled ∧ leg = "STOP" ∧ other = "TP1") →
      String.eqb label leg = true →
      filled_ci st = Some true →
      wp (exit_leg order_tracking symbol sod other l why)
         (after_call w (GET_order order_id))
         (λ out w', match out with
                    | Ret (Returned TakeProfitFilled) =>
                        closes_on filled_ci_true true (tracked order_tracking "TP1")
                          (tracked order_tracking "STOP") (trace w')
                    | Ret (Returned StopFilled) =>
                        closes_on filled_ci_true true (tracked order_tracking "STOP")
                          (tracked order_tracking "TP1") (trace w')
                    | Ret (Returned _) => False
                    | Ret _ => True
                    | _ => False
                    end)).
    { intros leg other why Hw Hl Hf. apply String.eqb_eq in Hl. subst leg.
      eapply wp_mono; [apply exit_leg_wp|].
      intros out w'. destruct out as [[| |]| |]; try done.
      intros (-> & sym & dir & Hshape).
      assert (Hrep : fill_report filled_ci_true order_id
                       (Call (GET_order order_id) (broker w (calls w) (GET_order order_id)).1)).
      { unfold fill_report. cbn [reports]. rewrite bool_decide_eq_true_2 by done.
        rewrite Hst. unfold filled_ci_true. by rewrite Hf. }
      destruct Hw as [(-> & -> & ->)|(-> & -> & ->)]; unfold closes_on, after_report;
        rewrite Hid; world_simpl.
      all: destruct (truthy (tracked order_tracking _));
        [ destruct Hshape as [a [Ht|[lg Ht]]]; exists a; eexists;
          (split; [eexists _, _, _, _; split; [reflexivity | exact Hrep]|]);
          [left | right; exists lg]; exact Ht
        | eexists _, _, _, _; split; [exact Hshape | exact Hrep] ]. }
    repeat first
      [ by apply IH
      | by apply (Hexit "TP1" "STOP" TakeProfitFilled); [left|..]
      | by apply (Hexit "STOP" "TP1" StopFilled); [right|..]
      | (eapply wp_mono; [apply place_oso_returns|]; intros ? ? [? ->]; cbn beta)
      | wp_step ].
  all: done.
Qed.

Lemma elem_tracked (t : tracking) k v :
  NoDup t.*1 → (k, v) ∈ t → tracked t k = v.
Proof.
  intros Hnd Hin. apply list_elem_of_In, In_nth_error in Hin as [pos Hn].
  by eapply nth_tracked.
Qed.

Lemma monitor_loop_exits fuel : ∀ order_tracking symbol sod start l w,
  NoDup order_tracking.*1 →
  wp (monitor_loop fuel order_tracking symbol sod start l) w
     (λ out w', match out with
                | Ret TakeProfitFilled =>
                    closes_on filled_ci_true true (tracked order_tracking "TP1")
                      (tracked order_tracking "STOP") (trace w')
                | Ret StopFilled =>
                    closes_on filled_ci_true true (tracked order_tracking "STOP")
                      (tracked order_tracking "TP1") (trace w')
                | _ => True
                end).
Proof.
  induction fuel as [|fuel IH]; intros order_tracking symbol sod start l w Hnd;
    cbn [monitor_loop].
  - by wp_run.
  - wp_step. eapply wp_mono; [apply poll_exits; intros k v; by apply elem_tracked|].
    intros out w1. destruct out as [[l' act|why|l']| |]; try done.
    + intros _. wp_run; try done; by apply IH.
    + destruct why; try done; intros Hc; by wp_run.
    + intros _. wp_run; try done; by apply IH.
Qed.

End ExitFacts.

(** ** Traces only grow, and the stop is placed only after a fill *)

Section TraceFacts.

(** [t] is the trace of [w] with newer events put in front. *)
Definition extends (w : world) (t : list event) : Prop :=
  ∃ evs, t = rev evs ++ trace w.

Lemma extends_base w : extends w (trace w).
Proof. by exists []. Qed.

Lemma extends_cons w t e : extends w t → extends w (e :: t).
Proof.
  intros [evs ->]. exists (evs ++ [e]). by rewrite rev_app_distr.
Qed.

Lemma extends_trans w w1 t :
  extends w (trace w1) → extends w1 t → extends w t.
Proof.
  intros [e1 H1] [e2 ->]. exists (e1 ++ e2).
  by rewrite H1, rev_app_distr, <- app_assoc.
Qed.

Section Held.
Variable observed : event → bool.
Variable stop : dict.

Local Abbreviation held := (held_until_fill observed stop).

Definition is_placement (e : event) : bool :=
  match e with
  | Call (POST_order_placeorder _) _ => true
  | _ => false
  end.

Lemma held_true evs : held true evs.
Proof.
  induction evs as [|e evs IH]; [done|].
  destruct e as [[] a| | |]; cbn; auto.
Qed.

Lemma held_mono evs : ∀ seen, held false evs → held seen evs.
Proof.
  intros [] Hh; [apply held_true | done].
Qed.

Lemma held_app evs1 evs2 seen :
  held seen evs1 → held false evs2 → held seen (evs1 ++ evs2).
Proof.
  revert seen. induction evs1 as [|e evs1 IH]; intros seen H1 H2.
  - by apply held_mono.
  - destruct e as [[] a| | |]; cbn in *; try (by apply IH).
    destruct H1 as [Hp H1]. split; [done | by apply IH].
Qed.

Lemma held_snoc_quiet evs e seen :
  held seen evs → is_placement e = false → held seen (evs ++ [e]).
Proof.
  intros Hh He. apply held_app; [done|].
  destruct e as [[] a| | |]; cbn in *; done.
Qed.

(** Some event of [evs] other than a placement is recognised by
    [observed]. *)
Definition fill_seen (evs : list event) : Prop :=
  Exists (λ e, is_placement e = false ∧ observed e = true) evs.

Lemma held_after_fill evs1 evs2 seen :
  held seen evs1 → fill_seen evs1 → held seen (evs1 ++ evs2).
Proof.
  intros Hh Hf. revert seen Hh.
  induction Hf as [e evs1 [Hq He]|e evs1 _ IH]; intros seen Hh.
  - destruct e as [[] a| | |]; cbn in *; try done.
    all: rewrite He, orb_true_r; apply held_true.
  - destruct e as [[] a| | |]; cbn in *; try (by apply IH).
    destruct Hh as [Hp Hh]. split; [done | by apply IH].
Qed.

(** The trace [t] extends that of [w] by events among which [stop] is
    placed only after an observed fill. *)
Definition safe (w : world) (t : list event) : Prop :=
  ∃ evs, t = rev evs ++ trace w ∧ held false evs.

(** The same, and a fill has been observed since [w]. *)
Definition fired (w : world) (t : list event) : Prop :=
  ∃ evs, t = rev evs ++ trace w ∧ held false evs ∧ fill_seen evs.

Lemma safe_base w : safe w (trace w).
Proof. by exists []. Qed.

Lemma safe_quiet w t e : safe w t → is_placement e = false → safe w (e :: t).
Proof.
  intros (evs & -> & Hh) He. exists (evs ++ [e]). split.
  - by rewrite rev_app_distr.
  - by apply held_snoc_quiet.
Qed.

Lemma safe_trans w w1 t : safe w (trace w1) → safe w1 t → safe w t.
Proof.
  intros (e1 & H1 & Hh1) (e2 & -> & Hh2). exists (e1 ++ e2). split.
  - by rewrite H1, rev_app_distr, <- app_assoc.
  - by apply held_app.
Qed.

Lemma fired_safe w t : fired w t → safe w t.
Proof. intros (evs & ? & ? & _). by exists evs. Qed.

Lemma fired_report w t e :
  safe w t → is_placement e = false → observed e = true → fired w (e :: t).
Proof.
  intros (evs & -> & Hh) Hq He. exists (evs ++ [e]). split; [| split].
  - by rewrite rev_app_distr.
  - by apply held_snoc_quiet.
  - apply Exists_app. right. by constructor.
Qed.

Lemma fired_extends w w1 t :
  fired w (trace w1) → extends w1 t → fired w t.
Proof.
  intros (e1 & H1 & Hh & Hf) (e2 & ->). exists (e1 ++ e2). split; [| split].
  - by rewrite H1, rev_app_distr, <- app_assoc.
  - by apply held_after_fill.
  - apply Exists_app. by left.
Qed.

Lemma safe_extends w t : safe w t → extends w t.
Proof. intros (evs & ? & _). by exists evs. Qed.

End Held.

(** Every handler only adds to the trace. *)
Definition grows {A} (m : M A) : Prop := ∀ w, extends w (trace (m w).2).

Lemma grows_wp {A} (m : M A) :
  (∀ w, wp m w (λ _ w', extends w (trace w'))) → grows m.
Proof. intros Hm w. apply Hm. Qed.

Lemma wp_grows {A} (m : M A) w (Q : outcome A → world → Prop) :
  grows m → (∀ o w', extends w (trace w') → Q o w') → wp m w Q.
Proof. intros Hm HQ. apply HQ, Hm. Qed.

End TraceFacts.

(** Close a goal [extends w (trace w')] where [w'] is [w] after explicit
    updates, possibly on top of worlds the context relates to [w]. *)
Ltac grown :=
  world_simpl;
  repeat first
    [ assumption
    | apply extends_base
    | apply extends_cons
    | (eapply extends_trans; [| eassumption]) ].

Section GrowthOfAdapter.
Context `{Runtime}.

Lemma authenticate_attempt_grows : grows TradovateApi.authenticate_attempt.
Proof.
  apply grows_wp. intros w. unfold TradovateApi.authenticate_attempt,
    TradovateApi.set_access_token, TradovateApi.set_account_id,
    TradovateApi.set_account_spec, json_obj, json_list.
  wp_run; grown.
Qed.

Lemma authenticate_from_grows remaining : ∀ n, grows (TradovateApi.authenticate_from n remaining).
Proof.
  induction remaining as [|k IH]; intros n; apply grows_wp; intros w;
    cbn [TradovateApi.authenticate_from].
  - wp_run. grown.
  - wp_step. wp_step. apply wp_grows; [apply authenticate_attempt_grows|].
    intros o w1 H1. destruct o as [[]|e|]; [by wp_run| |done].
    repeat first [ (apply wp_grows; [apply IH|]; intros; grown) | wp_step ]; grown.
Qed.

Lemma place_order_grows symbol action quantity order_data :
  grows (TradovateApi.place_order symbol action quantity order_data).
Proof.
  apply grows_wp. intros w. unfold TradovateApi.place_order, TradovateApi.ensure_token,
    TradovateApi.authenticate, TradovateApi.default_payload, json_any.
  repeat first
    [ (apply wp_grows; [apply authenticate_from_grows|]; intros [[]| |] w1 H1)
    | wp_step ]; grown.
Qed.

End GrowthOfAdapter.

(** ** The monitors of main_fixed.py and enhanced_main.py *)

Section FixedMonitorFacts.
Context `{Runtime}.
Variable entry_id : pyval.
Variable stop : dict.

Definition filled_exact (st : pyval) : bool := py_eq st (PStr "Filled").

Local Abbreviation obs := (reports filled_exact entry_id).

(** What the monitor keeps true of its locals. *)
Definition fixed_inv (l : MainFixed.locals) : Prop :=
  NoDup (MainFixed.order_tracking l).*1
  ∧ Main.tracked (MainFixed.order_tracking l) "ENTRY" = entry_id.

Definition fixed_exit_ok (why : Main.exit) (l : MainFixed.locals) (tr : list event)
  : Prop :=
  match why with
  | Main.TakeProfitFilled =>
      Main.closes_on filled_exact false
        (Main.tracked (MainFixed.order_tracking l) "TP1")
        (Main.tracked (MainFixed.order_tracking l) "STOP") tr
  | Main.StopFilled =>
      Main.closes_on filled_exact false
        (Main.tracked (MainFixed.order_tracking l) "STOP")
        (Main.tracked (MainFixed.order_tracking l) "TP1") tr
  | _ => False
  end.

Definition fixed_poll_post (w : world) (out : outcome MainFixed.pass) (w' : world)
  : Prop :=
  safe obs stop w (trace w')
  ∧ match out with
    | Ret (MainFixed.Completed l' _) | Ret (MainFixed.Excepted l') => fixed_inv l'
    | Ret (MainFixed.Returned why l') => fixed_exit_ok why l' (trace w')
    | _ => True
    end.

Lemma fixed_poll_post_trans w w1 out w' :
  safe obs stop w (trace w1) → fixed_poll_post w1 out w' → fixed_poll_post w out w'.
Proof.
  intros Hs [Hs1 Hout]. split; [by eapply safe_trans | done].
Qed.

Lemma place_stop_wp symbol sod l w :
  fixed_inv l →
  wp (MainFixed.place_stop symbol sod l) w
     (λ out w', extends w (trace w')
        ∧ match out with
          | Ret (l', _) => fixed_inv l'
          | _ => True
          end).
Proof.
  intros [Hnd He]. unfold MainFixed.place_stop, json_any, json_get.
  assert (Hst : ∀ v, fixed_inv {| MainFixed.entry_filled := MainFixed.entry_filled l;
                      MainFixed.order_tracking
                        := (MainFixed.set_item (MainFixed.order_tracking l) "STOP" v).1 |}).
  { intros v. split; cbn; [by apply set_item_keys | by rewrite set_item_other]. }
  repeat first
    [ (apply wp_grows; [apply place_order_grows|]; intros [?| |] ? ?)
    | wp_step ].
  all: split; [grown|]; try done.
  all: match goal with
       | |- context [MainFixed.set_item ?t ?k ?v] =>
           pose proof (Hst v) as Hst'; destruct (MainFixed.set_item t k v); exact Hst'
       end.
Qed.

Lemma fixed_exit_leg_wp leg_id other l why w q older :
  trace w = q :: older →
  Main.fill_report filled_exact leg_id q →
  wp (MainFixed.exit_leg other l why) w
     (λ out w', safe obs stop w (trace w')
        ∧ match out with
          | Ret (MainFixed.Returned why' l') =>
              why' = why
              ∧ l' = l
              ∧ Main.closes_on filled_exact false leg_id
                  (Main.tracked (MainFixed.order_tracking l') other) (trace w')
          | Ret (MainFixed.Excepted l') => l' = l
          | _ => False
          end).
Proof.
  intros Ht Hq. unfold MainFixed.exit_leg, Main.closes_on, Main.after_report.
  wp_run; world_simpl.
  all: repeat match goal with Hx : truthy _ = _ |- _ => rewrite Hx end.
  all: split; [repeat first [apply safe_base | apply safe_quiet; [|done]]|]; try done.
  all: split; [done|]; split; [done|]; eauto 8.
Qed.

Lemma fixed_poll_wp todo : ∀ pos symbol sod l active w,
  fixed_inv l →
  wp (MainFixed.poll todo pos symbol sod l active) w (fixed_poll_post w).
Proof.
  induction todo as [|k IH]; intros pos symbol sod l active w Hinv;
    cbn [MainFixed.poll].
  - wp_run. split; [apply safe_base | done].
  - destruct (nth_error (MainFixed.order_tracking l) pos) as [[label order_id]|] eqn:Hn;
      [|wp_run; split; [apply safe_base | done]].
    destruct (is_none order_id) eqn:Hnone; [by apply IH|].
    wp_step. apply order_status_wp; [|intros e; wp_run; split; [|done]].
    2: { world_simpl. apply safe_quiet; [apply safe_base | done]. }
    intros st Hst. cbn zeta.
    set (w1 := after_call w (GET_order order_id)).
    assert (Hs1 : safe obs stop w (trace w1)).
    { subst w1. world_simpl. apply safe_quiet; [apply safe_base | done]. }
    assert (Hnext : ∀ l' active', fixed_inv l' →
              wp (MainFixed.poll k (S pos) symbol sod l' active') w1 (fixed_poll_post w)).
    { intros l' active' Hl'. eapply wp_mono; [by apply IH|].
      intros out w'. by apply fixed_poll_post_trans. }
    destruct (py_eq st (PStr "Filled")) eqn:Hf; [|wp_run; by apply Hnext].
    assert (Hexit : ∀ leg other why,
              (why = Main.TakeProfitFilled ∧ leg = "TP1" ∧ other = "STOP")
              ∨ (why = Main.StopFilled ∧ leg = "STOP" ∧ other = "TP1") →
              String.eqb label leg = true →
              wp (MainFixed.exit_leg other l why) w1 (fixed_poll_post w)).
    { intros leg other why Hw Hl. apply String.eqb_eq in Hl. subst leg.
      pose proof (nth_tracked _ _ _ _ (proj1 Hinv) Hn) as Hid.
      eapply wp_mono;
        [eapply (fixed_exit_leg_wp order_id other l why w1 _ (trace w)); [done|]|].
      { unfold Main.fill_report. cbn [reports]. rewrite bool_decide_eq_true_2 by done.
        by rewrite Hst. }
      intros out w' [Hs' Hout]. split; [by eapply safe_trans|].
      destruct out as [[| |]| |]; try done.
      - destruct Hout as (-> & -> & Hc).
        destruct Hw as [(-> & -> & ->)|(-> & -> & ->)]; cbn; by rewrite Hid.
      - by subst. }
    destruct (String.eqb label "ENTRY" && negb (MainFixed.entry_filled l)) eqn:He.
    + apply andb_true_iff in He as [Hl _]. apply String.eqb_eq in Hl as ->.
      destruct Hinv as [Hnd Hid].
      pose proof (nth_tracked _ _ _ _ Hnd Hn) as Hid'. rewrite Hid in Hid'. subst order_id.
      set (l1 := {| MainFixed.entry_filled := true;
                    MainFixed.order_tracking := MainFixed.order_tracking l |}).
      assert (Hl1 : fixed_inv l1) by done.
      assert (Hfire : fired obs stop w (trace w1)).
      { subst w1. world_simpl. apply fired_report; [apply safe_base | done |].
        cbn [reports]. rewrite bool_decide_eq_true_2 by done. by rewrite Hst. }
      destruct (negb (Main.no_data sod)); [|by apply Hnext].
      wp_step. eapply wp_mono; [by apply place_stop_wp|].
      intros out w2 [Hg Hout]. cbn beta.
      assert (Hs2 : safe obs stop w (trace w2)).
      { apply fired_safe. by eapply fired_extends. }
      destruct out as [[l2 grew]| |]; [|done..].
      destruct grew; [by wp_run|].
      eapply wp_mono; [by apply IH|].
      intros out w'. by apply fixed_poll_post_trans.
    + wp_run; auto.
      * apply (Hexit "TP1" "STOP" Main.TakeProfitFilled); [by left|].
        by apply andb_true_iff in Heqb as [? _].
      * apply (Hexit "STOP" "TP1" Main.StopFilled); [by right|].
        by apply andb_true_iff in Heqb0 as [? _].
Qed.

Lemma fixed_monitor_loop_wp fuel : ∀ symbol sod l w,
  fixed_inv l →
  wp (MainFixed.monitor_loop fuel symbol sod l) w
     (λ out w', safe obs stop w (trace w')
        ∧ match out with
          | Ret (Main.TakeProfitFilled, t) =>
              Main.closes_on filled_exact false (Main.tracked t "TP1")
                (Main.tracked t "STOP") (trace w')
          | Ret (Main.StopFilled, t) =>
              Main.closes_on filled_exact false (Main.tracked t "STOP")
                (Main.tracked t "TP1") (trace w')
          | _ => True
          end).
Proof.
  induction fuel as [|fuel IH]; intros symbol sod l w Hinv; cbn [MainFixed.monitor_loop].
  - wp_run. split; [apply safe_base | done].
  - wp_step. eapply wp_mono; [by apply fixed_poll_wp|].
    intros out w1 [Hs1 Hout].
    assert (Hnext : ∀ l' w2, fixed_inv l' → safe obs stop w (trace w2) →
              wp (MainFixed.monitor_loop fuel symbol sod l') w2
                 (λ out w', safe obs stop w (trace w')
                    ∧ match out with
                      | Ret (Main.TakeProfitFilled, t) =>
                          Main.closes_on filled_exact false (Main.tracked t "TP1")
                            (Main.tracked t "STOP") (trace w')
                      | Ret (Main.StopFilled, t) =>
                          Main.closes_on filled_exact false (Main.tracked t "STOP")
                            (Main.tracked t "TP1") (trace w')
                      | _ => True
                      end)).
    { intros l' w2 Hl' Hs2. eapply wp_mono; [by apply IH|].
      intros o w' [Hs' Ho]. split; [by eapply safe_trans | done]. }
    destruct out as [[l' act|why l'|l']| |]; try done.
    + wp_run.
      * split; [|done]. world_simpl. by apply safe_quiet.
      * apply Hnext; [done|]. world_simpl. by apply safe_quiet.
    + wp_run. split; [done|]. by destruct why.
    + wp_run. apply Hnext; [done|]. world_simpl. by repeat apply safe_quiet.
Qed.

End FixedMonitorFacts.

Section EnhancedMonitorFacts.
Variable entry_id : pyval.
Variable stop : dict.

Local Abbreviation obs := (reports Main.filled_ci_true entry_id).

Lemma place_stop_loss_order_grows d : grows (EnhancedMain.place_stop_loss_order d).
Proof.
  apply grows_wp. intros w. unfold EnhancedMain.place_stop_loss_order, json_any.
  wp_run; grown.
Qed.

Lemma exit_take_profit_grows l w :
  wp (EnhancedMain.exit_take_profit l) w
     (λ out w', safe obs stop w (trace w')
        ∧ match out with
          | Ret (MainFixed.Completed _ _) | Ret (MainFixed.Excepted _) => False
          | _ => True
          end).
Proof.
  unfold EnhancedMain.exit_take_profit. wp_run; world_simpl.
  all: split; [repeat first [apply safe_base | apply safe_quiet; [|done]] | done].
Qed.

Lemma exit_stop_grows l w :
  wp (EnhancedMain.exit_stop l) w
     (λ out w', safe obs stop w (trace w')
        ∧ match out with
          | Ret (MainFixed.Excepted l') => l' = l
          | Ret (MainFixed.Completed _ _) => False
          | _ => True
          end).
Proof.
  unfold EnhancedMain.exit_stop. wp_run; world_simpl.
  all: split; [repeat first [apply safe_base | apply safe_quiet; [|done]] | done].
Qed.

Definition enhanced_poll_post (w : world) (out : outcome MainFixed.pass) (w' : world)
  : Prop :=
  safe obs stop w (trace w')
  ∧ match out with
    | Ret (MainFixed.Completed l' _) | Ret (MainFixed.Excepted l') => fixed_inv entry_id l'
    | _ => True
    end.

Lemma enhanced_poll_post_trans w w1 out w' :
  safe obs stop w (trace w1) → enhanced_poll_post w1 out w' → enhanced_poll_post w out w'.
Proof.
  intros Hs [Hs1 Hout]. split; [by eapply safe_trans | done].
Qed.

Lemma enhanced_poll_wp todo : ∀ pos symbol sod l active w,
  fixed_inv entry_id l →
  wp (EnhancedMain.poll todo pos symbol sod l active) w (enhanced_poll_post w).
Proof.
  induction todo as [|k IH]; intros pos symbol sod l active w Hinv;
    cbn [EnhancedMain.poll].
  - wp_run. split; [apply safe_base | done].
  - destruct (nth_error (MainFixed.order_tracking l) pos) as [[label order_id]|] eqn:Hn;
      [|wp_run; split; [apply safe_base | done]].
    destruct (is_none order_id) eqn:Hnone; [by apply IH|].
    wp_step. apply order_status_wp; [|intros e; wp_run; split; [|done]].
    2: { world_simpl. apply safe_quiet; [apply safe_base | done]. }
    intros st Hst. cbn zeta.
    set (w1 := after_call w (GET_order order_id)).
    assert (Hs1 : safe obs stop w (trace w1)).
    { subst w1. world_simpl. apply safe_quiet; [apply safe_base | done]. }
    assert (Hnext : ∀ l' active', fixed_inv entry_id l' →
              wp (EnhancedMain.poll k (S pos) symbol sod l' active') w1
                 (enhanced_poll_post w)).
    { intros l' active' Hl'. eapply wp_mono; [by apply IH|].
      intros out w'. by apply enhanced_poll_post_trans. }
    destruct (Main.filled_ci st) as [[]|] eqn:Hf;
      [| wp_run; by apply Hnext | wp_run; by split].
    destruct (String.eqb label "ENTRY" && negb (MainFixed.entry_filled l)) eqn:He.
    + apply andb_true_iff in He as [Hl _]. apply String.eqb_eq in Hl as ->.
      destruct Hinv as [Hnd Hid].
      pose proof (nth_tracked _ _ _ _ Hnd Hn) as Hid'. rewrite Hid in Hid'. subst order_id.
      set (l1 := {| MainFixed.entry_filled := true;
                    MainFixed.order_tracking := MainFixed.order_tracking l |}).
      assert (Hl1 : fixed_inv entry_id l1) by done.
      assert (Hfire : fired obs stop w (trace w1)).
      { subst w1. world_simpl. apply fired_report; [apply safe_base | done |].
        cbn [reports]. rewrite bool_decide_eq_true_2 by done. rewrite Hst.
        unfold Main.filled_ci_true. by rewrite Hf. }
      assert (Hafter : ∀ l' active' w2, fixed_inv entry_id l' → extends w1 (trace w2) →
                wp (EnhancedMain.poll k (S pos) symbol sod l' active') w2
                   (enhanced_poll_post w)).
      { intros l' active' w2 Hl' Hg. eapply wp_mono; [by apply IH|].
        intros out w'. apply enhanced_poll_post_trans.
        apply fired_safe. by eapply fired_extends. }
      destruct (negb (Main.no_data sod)).
      * wp_step. apply wp_grows; [apply place_stop_loss_order_grows|].
        intros out w2 Hg.
        assert (Hs2 : safe obs stop w (trace w2)).
        { apply fired_safe. by eapply fired_extends. }
        destruct out as [stop_id| |]; [|done..].
        destruct (truthy stop_id).
        -- pose proof (set_item_keys (MainFixed.order_tracking l1) "STOP" stop_id Hnd) as Hk.
           pose proof (set_item_other (MainFixed.order_tracking l1) "STOP" stop_id "ENTRY")
             as Ho.
           destruct (MainFixed.set_item (MainFixed.order_tracking l1) "STOP" stop_id)
             as [t grew]. cbn in Hk, Ho.
           assert (Hl2 : fixed_inv entry_id {| MainFixed.entry_filled := true;
                                               MainFixed.order_tracking := t |}).
           { split; [done|]. cbn. rewrite Ho by done. exact Hid. }
           destruct grew; [by wp_run|]. apply Hafter; [done|]. exact Hg.
        -- wp_run. apply Hafter; [done|]. grown.
      * wp_run. apply Hafter; [done|]. grown.
    + assert (Hx : ∀ (m : M MainFixed.pass),
                wp m w1 (λ out w', safe obs stop w1 (trace w')
                           ∧ match out with
                             | Ret (MainFixed.Excepted l') => l' = l
                             | Ret (MainFixed.Completed _ _) => False
                             | _ => True
                             end) →
                wp m w1 (enhanced_poll_post w)).
      { intros m Hm. eapply wp_mono; [exact Hm|].
        intros out w' [Hs' Ho]. split; [by eapply safe_trans|].
        destruct out as [[| |]| |]; try done. by subst. }
      wp_run; auto.
      * apply Hx. eapply wp_mono; [apply exit_take_profit_grows|].
        intros out w' [Hs' Ho]. split; [done|]. by destruct out as [[| |]| |].
      * apply Hx, exit_stop_grows.
Qed.

Lemma enhanced_monitor_loop_wp fuel : ∀ symbol sod start l w,
  fixed_inv entry_id l →
  wp (EnhancedMain.monitor_loop fuel symbol sod start l) w
     (λ out w', safe obs stop w (trace w')).
Proof.
  induction fuel as [|fuel IH]; intros symbol sod start l w Hinv;
    cbn [EnhancedMain.monitor_loop].
  - wp_run. apply safe_base.
  - wp_step. eapply wp_mono; [by apply enhanced_poll_wp|].
    intros out w1 [Hs1 Hout].
    assert (Hnext : ∀ l' w2, fixed_inv entry_id l' → safe obs stop w (trace w2) →
              wp (EnhancedMain.monitor_loop fuel symbol sod start l') w2
                 (λ out w', safe obs stop w (trace w'))).
    { intros l' w2 Hl' Hs2. eapply wp_mono; [by apply IH|].
      intros o w' Hs'. by eapply safe_trans. }
    destruct out as [[l' act|why l'|l']| |]; try done.
    + wp_run; world_simpl; try (by repeat apply safe_quiet).
      apply Hnext; [done|]. world_simpl. by apply safe_quiet.
    + wp_run. apply Hnext; [done|]. world_simpl. by repeat apply safe_quiet.
Qed.

End EnhancedMonitorFacts.

(** ** What the monitors guarantee *)

Section MonitorProperties.
Context `{Runtime}.


(** The monitor of main_fixed.py ends the same way, without the
    completion mark and with the status compared to [Filled] exactly;
    the ids are those of the tracking dict as the monitor left it. *)
Theorem fixed_monitor_exit_ends_with_cancel fuel t symbol sod w t' :
  NoDup t.*1 →
  let r := MainFixed.monitor_all_orders fuel t symbol sod w in
  (r.1 = Ret (Main.TakeProfitFilled, t') →
   Main.closes_on filled_exact false (Main.tracked t' "TP1")
     (Main.tracked t' "STOP") (trace r.2))
  ∧ (r.1 = Ret (Main.StopFilled, t') →
     Main.closes_on filled_exact false (Main.tracked t' "STOP")
       (Main.tracked t' "TP1") (trace r.2)).
Proof.
  intros Hnd r.
  destruct (fixed_monitor_loop_wp (Main.tracked t "ENTRY") ∅ fuel symbol sod
              {| MainFixed.entry_filled := false; MainFixed.order_tracking := t |} w)
    as [_ Hwp]; [by split|].
  change (MainFixed.monitor_loop fuel symbol sod _ w) with r in Hwp.
  split; intros Hr; by rewrite Hr in Hwp.
Qed.

(** In the monitor of main_fixed.py no order is placed before a status
    query for the tracked ENTRY order has answered [Filled]: whatever
    payload [stop] is, the events the monitor adds to the trace place it
    only after such an answer.  This holds of every run, finished or
    not. *)
Theorem fixed_monitor_places_nothing_before_entry_fill fuel t symbol sod w stop :
  NoDup t.*1 →
  ∃ evs,
    trace (MainFixed.monitor_all_orders fuel t symbol sod w).2 = rev evs ++ trace w
    ∧ held_until_fill (reports filled_exact (Main.tracked t "ENTRY")) stop false evs.
Proof.
  intros Hnd.
  destruct (fixed_monitor_loop_wp (Main.tracked t "ENTRY") stop fuel symbol sod
              {| MainFixed.entry_filled := false; MainFixed.order_tracking := t |} w)
    as [Hs _]; [by split|].
  exact Hs.
Qed.

(** The same for the monitor of enhanced_main.py, where the status is
    compared to [filled] whatever its case. *)
Theorem enhanced_monitor_places_nothing_before_entry_fill fuel t symbol sod w stop :
  NoDup t.*1 →
  ∃ evs,
    trace (EnhancedMain.monitor_all_orders fuel t symbol sod w).2 = rev evs ++ trace w
    ∧ held_until_fill (reports Main.filled_ci_true (Main.tracked t "ENTRY")) stop false evs.
Proof.
  intros Hnd.
  assert (Hwp : wp (EnhancedMain.monitor_all_orders fuel t symbol sod) w
            (λ _ w', safe (reports Main.filled_ci_true (Main.tracked t "ENTRY")) stop w
                       (trace w'))).
  { unfold EnhancedMain.monitor_all_orders. wp_step. wp_step.
    apply enhanced_monitor_loop_wp. by split. }
  exact Hwp.
Qed.

End MonitorProperties.


Lemma fixed_monitor_exit_ends_with_cancel_witness :
  Main.closes_on filled_exact false (PInt 2) (PInt 3)
    (trace (MainFixed.monitor_all_orders (H := Examples.plain) 3 Examples.three_legs
              (PStr "NQM5") None (Examples.boot_world Examples.all_filled)).2).
Proof.
  apply (proj1 (fixed_monitor_exit_ends_with_cancel (H := Examples.plain) 3
                  Examples.three_legs (PStr "NQM5") None
                  (Examples.boot_world Examples.all_filled) Examples.three_legs
                  ltac:(apply (bool_decide_unpack _); vm_compute; reflexivity))).
  vm_compute. reflexivity.
Defined.

Lemma fixed_monitor_places_nothing_before_entry_fill_witness :
  ∃ evs,
    trace (MainFixed.monitor_all_orders (H := Examples.plain) 3 Examples.three_legs
             (PStr "NQM5") (Some Examples.held_stop)
             (Examples.boot_world Examples.all_filled)).2 = rev evs ++ []
    ∧ held_until_fill (reports filled_exact (PInt 1)) Examples.held_stop false evs.
Proof.
  apply (fixed_monitor_places_nothing_before_entry_fill (H := Examples.plain) 3
           Examples.three_legs (PStr "NQM5") (Some Examples.held_stop)
           (Examples.boot_world Examples.all_filled) Examples.held_stop).
  apply (bool_decide_unpack _). vm_compute. reflexivity.
Defined.

Lemma enhanced_monitor_places_nothing_before_entry_fill_witness :
  ∃ evs,
    trace (EnhancedMain.monitor_all_orders 3 Examples.three_legs
             (PStr "NQM5") (Some Examples.held_stop)
             (Examples.boot_world Examples.all_filled)).2 = rev evs ++ []
    ∧ held_until_fill (reports Main.filled_ci_true (PInt 1)) Examples.held_stop false evs.
Proof.
  apply (enhanced_monitor_places_nothing_before_entry_fill 3
           Examples.three_legs (PStr "NQM5") (Some Examples.held_stop)
           (Examples.boot_world Examples.all_filled) Examples.held_stop).
  apply (bool_decide_unpack _). vm_compute. reflexivity.
Defined.

(** On that run the monitor of main_fixed.py does place the held stop,
    right after the query that reports ENTRY filled. *)
Example held_stop_is_placed_after_entry_fill :
  ∃ a1 a2 rest,
    rev (trace (MainFixed.monitor_all_orders (H := Examples.plain) 3 Examples.three_legs
                  (PStr "NQM5") (Some Examples.held_stop)
                  (Examples.boot_world Examples.all_filled)).2)
    = Call (GET_order (PInt 1)) a1
      :: Call (POST_order_placeorder Examples.held_stop) a2 :: rest
    ∧ reports filled_exact (PInt 1) (Call (GET_order (PInt 1)) a1) = true.
Proof. vm_compute. eexists _, _, _. split; reflexivity. Qed.

(** ** The monitors while the status queries fail *)

Section MonitorOutage.

(** Every status query the broker of [w] may be asked fails: in transit,
    by its HTTP status, or by a body that is not a JSON object. *)
Definition queries_fail (w : world) : Prop :=
  ∀ n id, reported_status (Call (GET_order id) (broker w n (GET_order id)).1) = None.

(** Some label of the tracking dict carries an order id. *)
Definition tracks_an_order (t : Main.tracking) : Prop :=
  ∃ label id, (label, id) ∈ t ∧ is_none id = false.

Lemma order_status_fails id w :
  reported_status (Call (GET_order id) (broker w (calls w) (GET_order id)).1) = None →
  wp (attempt (Main.order_status id)) w
     (λ out w', (∃ e, out = Ret (inl e)) ∧ w' = after_call w (GET_order id)).
Proof.
  intros Hq. apply order_status_wp.
  - intros st Hst. congruence.
  - intros e. eauto.
Qed.

Lemma main_poll_fails items : ∀ t symbol sod l active w,
  tracks_an_order items →
  queries_fail w →
  wp (Main.poll items t symbol sod l active) w
     (λ out w', out = Ret (Main.Excepted l) ∧ ∃ id, w' = after_call w (GET_order id)).
Proof.
  induction items as [|[label oid] rest IH]; intros t symbol sod l active w Ht Hq.
  - destruct Ht as (? & ? & Hin & _). by apply elem_of_nil in Hin.
  - cbn [Main.poll]. destruct (is_none oid) eqn:Hn.
    + apply IH; [|done]. destruct Ht as (lb & id & Hin & Hid).
      apply elem_of_cons in Hin as [[= -> ->]|Hin]; [congruence|by exists lb, id].
    + wp_step. eapply wp_mono; [apply order_status_fails, Hq|].
      intros out w' [[e ->] ->]. wp_step. eauto.
Qed.

Lemma main_monitor_loop_fails fuel : ∀ t symbol sod start l w,
  tracks_an_order t →
  queries_fail w →
  wp (Main.monitor_loop fuel t symbol sod start l) w
     (λ out w', out = Spin
        ∧ clock w + 2000 * Z.of_nat fuel ≤ clock w'
        ∧ calls w' = (calls w + fuel)%nat
        ∧ ∀ s, Logged (LogMonitorTimeout s) ∈ trace w' →
               Logged (LogMonitorTimeout s) ∈ trace w).
Proof.
  induction fuel as [|fuel IH]; intros t symbol sod start l w Ht Hq;
    cbn [Main.monitor_loop].
  - wp_run. split_and!; try done; lia.
  - wp_step. eapply wp_mono; [by apply main_poll_fails|].
    intros out w1 [-> [id ->]]. wp_run.
    eapply wp_mono; [apply IH; [done|]|].
    { intros n id'. world_simpl. apply Hq. }
    intros out w' (-> & Hc & Hn & Hlog). world_simpl.
    split_and!; try done; try lia.
    intros s Hin. apply Hlog in Hin.
    repeat (apply elem_of_cons in Hin as [[=]|Hin]). done.
Qed.


End MonitorOutage.


(** ** The monitors while the orders rest *)

Section MonitorCeiling.
Context `{Runtime}.

(** Every status query the broker of [w] may be asked answers that the
    order is Working. *)
Definition orders_rest (w : world) : Prop :=
  ∀ n id, reported_status (Call (GET_order id) (broker w n (GET_order id)).1)
          = Some (PStr "Working").

(** The items of a tracking dict that carry an order id. *)
Definition with_id (t : Main.tracking) : Main.tracking :=
  List.filter (λ kv, negb (is_none kv.2)) t.

Lemma with_id_nonempty t : tracks_an_order t → with_id t ≠ [].
Proof.
  intros (label & id & Hin & Hid) E.
  assert (Hf : (label, id) ∈ with_id t).
  { apply list_elem_of_In, filter_In. split; [by apply list_elem_of_In|].
    cbn. by rewrite Hid. }
  rewrite E in Hf. by apply elem_of_nil in Hf.
Qed.

Lemma order_status_exact id w :
  (attempt (Main.order_status id) w).2 = after_call w (GET_order id)
  ∧ match reported_status (Call (GET_order id) (broker w (calls w) (GET_order id)).1) with
    | Some st => (attempt (Main.order_status id) w).1 = Ret (inr st)
    | None => ∃ e, (attempt (Main.order_status id) w).1 = Ret (inl e)
    end.
Proof.
  unfold Main.order_status, attempt, mbind, M_bind, send, raise_for_status, json_any,
    json_get, reported_status.
  destruct ((broker w (calls w) (GET_order id)).1) as [resp|]; cbn; [|eauto].
  destruct (is_success (status_code resp)); cbn; [|eauto].
  destruct (body resp); cbn; eauto.
Qed.

Lemma order_status_rests id w :
  orders_rest w →
  wp (attempt (Main.order_status id)) w
     (λ out w', out = Ret (inr (PStr "Working")) ∧ w' = after_call w (GET_order id)).
Proof.
  intros Hq. destruct (order_status_exact id w) as [Hw Ho].
  rewrite Hq in Ho. by split.
Qed.

Lemma main_poll_rests items : ∀ t symbol sod l active w,
  orders_rest w →
  wp (Main.poll items t symbol sod l active) w
     (λ out w', out = Ret (Main.Completed l (active ++ with_id items))
        ∧ clock w ≤ clock w' ∧ broker w' = broker w
        ∧ ∃ evs, trace w' = evs ++ trace w
                 ∧ Forall (λ e, ∃ id a, e = Call (GET_order id) a) evs).
Proof.
  induction items as [|[label oid] rest IH]; intros t symbol sod l active w Hq;
    cbn [Main.poll with_id List.filter].
  - wp_run. rewrite app_nil_r. split_and!; try done. by exists [].
  - cbn [snd]. destruct (is_none oid) eqn:Hn; cbn [negb]; [by apply IH|].
    wp_step. eapply wp_mono; [by apply order_status_rests|].
    intros out w1 [-> ->].
    assert (Hnext : wp (Main.poll rest t symbol sod l (active ++ [(label, oid)]))
                       (after_call w (GET_order oid))
                       (λ out w', out = Ret (Main.Completed l (active ++ (label, oid) :: with_id rest))
                          ∧ clock w ≤ clock w' ∧ broker w' = broker w
                          ∧ ∃ evs, trace w' = evs ++ trace w
                                   ∧ Forall (λ e, ∃ id a, e = Call (GET_order id) a) evs)).
    { eapply wp_mono; [apply IH|].
      { intros n id. world_simpl. apply Hq. }
      intros out w' (-> & Hc & Hb & evs & Ht & Hev). world_simpl.
      rewrite <- app_assoc. split_and!; try done; try lia.
      exists (evs ++ [Call (GET_order oid) (broker w (calls w) (GET_order oid)).1]).
      split; [by rewrite Ht, <- app_assoc|].
      apply Forall_app. split; [done|]. constructor; [eauto|constructor]. }
    cbn zeta. unfold Main.filled_ci. cbn.
    destruct (String.eqb label "ENTRY"); [exact Hnext|].
    destruct (String.eqb label "STOP"); [exact Hnext|].
    destruct (String.eqb label "TP1"); exact Hnext.
Qed.

Lemma main_monitor_loop_times_out fuel : ∀ t symbol sod start l w,
  orders_rest w →
  tracks_an_order t →
  Main.max_monitoring_time < (clock w - start) + 500 * Z.of_nat fuel →
  wp (Main.monitor_loop (S fuel) t symbol sod start l) w
     (λ out w', out = Ret Main.TimedOut
        ∧ Main.max_monitoring_time < clock w' - start
        ∧ ∃ older, trace w' = Logged (LogMonitorTimeout symbol) :: older).
Proof.
  induction fuel as [|fuel IH]; intros t symbol sod start l w Hq Ht Hfuel.
  all: cbn [Main.monitor_loop]; wp_step; (eapply wp_mono; [by apply main_poll_rests|]).
  all: intros out w1 (-> & Hc & Hb & _); wp_step; wp_step.
  all: destruct (Z.gtb_spec (clock w1 - start) Main.max_monitoring_time) as [Hover|Hunder].
  all: try (wp_run; world_simpl; split_and!; [done|lia|by eauto]).
  - exfalso. lia.
  - cbn [app]. pose proof (with_id_nonempty t Ht) as Hne.
    destruct (with_id t) as [|x act]; [done|].
    wp_step. wp_step.
    eapply wp_mono; [apply IH; [| done |]|].
    + intros n id. world_simpl. rewrite Hb. apply Hq.
    + world_simpl. destruct (negb (Main.entry_filled l)); lia.
    + intros out w' (-> & Hm & older & Hlog). eauto.
Qed.


Lemma nth_error_lookup {A} (l : list A) n : nth_error l n = l !! n.
Proof. revert n. induction l as [|x l IH]; intros [|n]; cbn; auto. Qed.

Lemma fixed_poll_rests todo : ∀ pos symbol sod l active w,
  orders_rest w →
  wp (MainFixed.poll todo pos symbol sod l active) w
     (λ out w',
        out = Ret (MainFixed.Completed l
                     (active ++ with_id (take todo (drop pos (MainFixed.order_tracking l)))))
        ∧ clock w ≤ clock w' ∧ broker w' = broker w).
Proof.
  induction todo as [|k IH]; intros pos symbol sod l active w Hq; cbn [MainFixed.poll].
  - wp_run. cbn. by rewrite app_nil_r.
  - destruct (nth_error (MainFixed.order_tracking l) pos) as [[label oid]|] eqn:Hn.
    + rewrite nth_error_lookup in Hn. rewrite (drop_S _ _ _ Hn).
      cbn [take with_id List.filter snd].
      destruct (is_none oid) eqn:Hnone; cbn [negb]; [by apply IH|].
      wp_step. eapply wp_mono; [by apply order_status_rests|].
      intros out w1 [-> ->]. cbn.
      eapply wp_mono; [apply IH|].
      { intros n id. world_simpl. apply Hq. }
      intros out w' (-> & Hc & Hb). world_simpl.
      rewrite <- app_assoc. split_and!; try done. lia.
    + rewrite nth_error_lookup in Hn. apply lookup_ge_None in Hn.
      rewrite drop_ge by done. wp_run. cbn. by rewrite app_nil_r.
Qed.

Lemma fixed_monitor_loop_rests fuel : ∀ symbol sod l w,
  orders_rest w →
  tracks_an_order (MainFixed.order_tracking l) →
  wp (MainFixed.monitor_loop fuel symbol sod l) w
     (λ out w', out = Spin ∧ clock w + 1000 * Z.of_nat fuel ≤ clock w').
Proof.
  induction fuel as [|fuel IH]; intros symbol sod l w Hq Ht; cbn [MainFixed.monitor_loop].
  - wp_run. split; [done|lia].
  - wp_step. eapply wp_mono; [by apply fixed_poll_rests|].
    intros out w1 (-> & Hc & Hb). rewrite drop_0, firstn_all. cbn [app]. pose proof (with_id_nonempty _ Ht) as Hne.
    destruct (with_id (MainFixed.order_tracking l)) as [|x act]; [done|].
    wp_step. wp_step.
    eapply wp_mono; [apply IH; [|done]|].
    + intros n id. world_simpl. rewrite Hb. apply Hq.
    + intros out w' [-> Hc']. world_simpl. split; [done|lia].
Qed.

(** The monitor of main_fixed.py has no ceiling: while every tracked
    order is reported Working it does not return, and sleeps a second after
    each pass, however many passes are run. *)
Theorem fixed_monitor_has_no_ceiling fuel t symbol sod w :
  orders_rest w →
  tracks_an_order t →
  let r := MainFixed.monitor_all_orders fuel t symbol sod w in
  r.1 = Spin ∧ clock w + 1000 * Z.of_nat fuel ≤ clock r.2.
Proof.
  intros Hq Ht. by apply fixed_monitor_loop_rests.
Qed.

End MonitorCeiling.


Lemma fixed_monitor_has_no_ceiling_witness :
  let r := MainFixed.monitor_all_orders (H := Examples.plain) (Z.to_nat 5000) Examples.three_legs
             (PStr "NQM5") None (Examples.boot_world Examples.all_working) in
  r.1 = Spin ∧ 0 + 1000 * Z.of_nat (Z.to_nat 5000) ≤ clock r.2.
Proof.
  apply (fixed_monitor_has_no_ceiling (H := Examples.plain) (Z.to_nat 5000) Examples.three_legs
           (PStr "NQM5") None (Examples.boot_world Examples.all_working)).
  - intros n id. reflexivity.
  - exists "ENTRY", (PInt 1). split; [apply elem_of_cons; by left | reflexivity].
Defined.

(** * The adapter: tradovate_api.py *)

(** ** Every adapter call comes back *)

Section AdapterReturns.
Context `{Runtime}.

(** The run added to the trace and did not run out of fuel. *)
Definition came_back {A} (w : world) (out : outcome A) (w' : world) : Prop :=
  extends w (trace w') ∧ out ≠ Spin.

Lemma authenticate_attempt_returns w :
  wp TradovateApi.authenticate_attempt w (came_back w).
Proof.
  unfold TradovateApi.authenticate_attempt,
    TradovateApi.set_access_token, TradovateApi.set_account_id,
    TradovateApi.set_account_spec, json_obj, json_list.
  wp_run; (split; [grown | done]).
Qed.

Lemma authenticate_from_returns remaining : ∀ n w,
  wp (TradovateApi.authenticate_from n remaining) w (came_back w).
Proof.
  induction remaining as [|k IH]; intros n w; cbn [TradovateApi.authenticate_from].
  - wp_run. split; [grown | done].
  - wp_step. wp_step. eapply wp_mono; [apply authenticate_attempt_returns|].
    intros out w1 [Hg Hns]. destruct out as [[]|e|]; [by wp_run| |done].
    repeat first
      [ (eapply wp_mono; [apply IH|]; intros ? ? [? ?]; split; [grown | done])
      | wp_step ].
    all: split; [grown | done].
Qed.

Lemma ensure_token_returns w : wp TradovateApi.ensure_token w (came_back w).
Proof.
  unfold TradovateApi.ensure_token, TradovateApi.authenticate. wp_step. wp_step. wp_step.
  - apply authenticate_from_returns.
  - wp_step. split; [grown | done].
Qed.

Lemma place_order_returns symbol action quantity order_data w :
  wp (TradovateApi.place_order symbol action quantity order_data) w (came_back w).
Proof.
  unfold TradovateApi.place_order, TradovateApi.default_payload, json_any.
  wp_step. eapply wp_mono; [apply ensure_token_returns|].
  intros out w1 [Hg Hns]. destruct out as [[]|e|]; [|by split|done].
  wp_run; (split; [grown | done]).
Qed.

Lemma cancel_order_returns order_id w :
  wp (TradovateApi.cancel_order order_id) w (came_back w).
Proof.
  unfold TradovateApi.cancel_order, json_any.
  wp_step. eapply wp_mono; [apply ensure_token_returns|].
  intros out w1 [Hg Hns]. destruct out as [[]|e|]; [|by split|done].
  wp_run; (split; [grown | done]).
Qed.

End AdapterReturns.

(** * Reconciliation *)

(** ** Waiting for the orders to clear *)

Section WaitFacts.

(** How [wait_until_no_open_orders] can end: on a listing with no working
    order for the symbol, on the timeout warning, or on a listing that
    failed.  [t] is the trace it leaves, newest event first. *)
Definition wait_ended (symbol : pyval) (timeout start : Z) (out : outcome unit)
    (w' : world) : Prop :=
  match out with
  | Ret _ =>
      (∃ a orders older,
         trace w' = Call GET_order_list a :: older
         ∧ Main.read_listing a = inr orders
         ∧ List.filter (Main.working_for symbol) orders = [])
      ∨ (∃ older,
           trace w' = Logged (LogWaitTimeout symbol) :: older
           ∧ timeout < clock w' - start)
  | Raise e =>
      ∃ a older, trace w' = Call GET_order_list a :: older ∧ Main.read_listing a = inl e
  | Spin => True
  end.

(** An upper bound on the listings still to come when the clock shows
    [elapsed] since the start. *)
Definition listings_left (timeout elapsed : Z) : Z :=
  Z.max 1 ((timeout - elapsed) / 500 + 2).

Lemma wait_loop_wp fuel : ∀ symbol timeout start w,
  wp (Main.wait_loop fuel symbol timeout start) w
     (λ out w',
        wait_ended symbol timeout start out w'
        ∧ Z.of_nat (calls w') - Z.of_nat (calls w) ≤ listings_left timeout (clock w - start)
        ∧ (out = Spin → Z.of_nat fuel < listings_left timeout (clock w - start))
        ∧ clock w ≤ clock w').
Proof.
  unfold listings_left.
  induction fuel as [|fuel IH]; intros symbol timeout start w; cbn [Main.wait_loop].
  - wp_run. cbn. split_and!; try done; lia.
  - wp_step. apply list_orders_wp.
    + intros orders Hl.
      destruct (List.filter (Main.working_for symbol) orders) as [|o rest] eqn:Hf.
      * wp_run. world_simpl. split_and!; try done; try lia.
        left. eexists _, _, _. split_and!; [reflexivity | exact Hl | exact Hf].
      * wp_step. wp_step.
        destruct (Z.gtb_spec (clock (after_call w GET_order_list) - start) timeout)
          as [Hover|Hunder].
        -- wp_run. world_simpl. split_and!; try done; try lia.
           right. eexists. split; [done|]. world_simpl. lia.
        -- wp_step. wp_step. eapply wp_mono; [apply IH|].
           intros out w' (Hend & Hcalls & Hspin & Hclock).
           world_simpl.
           split_and!; [done| | |lia].
           ++ Z.div_mod_to_equations. lia.
           ++ intros Hs. specialize (Hspin Hs). Z.div_mod_to_equations. lia.
    + intros e Hl. world_simpl. cbn. split_and!; try done; try lia.
      eexists _, _. split; [reflexivity | exact Hl].
Qed.

(** [wait_until_no_open_orders] always comes back: given one pass more
    than the timeout holds half-second sleeps (and one to spare), it
    returns or raises whatever the broker answers, after at most that
    many listings.  It returns normally in two cases that its caller
    cannot tell apart: the last listing showed no Working or Accepted
    order for the symbol, or the timeout passed and was logged. *)
Theorem wait_until_no_open_orders_comes_back fuel symbol timeout w :
  0 ≤ timeout →
  timeout / 500 + 2 ≤ Z.of_nat fuel →
  let r := Main.wait_until_no_open_orders fuel symbol timeout w in
  r.1 ≠ Spin
  ∧ wait_ended symbol timeout (clock w) r.1 r.2
  ∧ Z.of_nat (calls r.2) - Z.of_nat (calls w) ≤ timeout / 500 + 2.
Proof.
  intros Ht Hfuel r.
  destruct (wait_loop_wp fuel symbol timeout (clock w) w) as (Hend & Hcalls & Hspin & _).
  change (Main.wait_loop fuel symbol timeout (clock w) w) with r in *.
  unfold listings_left in *. rewrite Z.sub_diag, Z.sub_0_r in *.
  assert (0 ≤ timeout / 500) by (apply Z.div_pos; lia).
  split_and!; [|done|lia].
  intros Hs. specialize (Hspin Hs). lia.
Qed.

End WaitFacts.

Lemma wait_until_no_open_orders_comes_back_witness :
  let r := Main.wait_until_no_open_orders 22 (PStr "NQM5") 10000
             (Examples.boot_world Examples.stubborn) in
  r.1 ≠ Spin
  ∧ wait_ended (PStr "NQM5") 10000 0 r.1 r.2
  ∧ Z.of_nat (calls r.2) - 0 ≤ 10000 / 500 + 2.
Proof.
  apply (wait_until_no_open_orders_comes_back 22 (PStr "NQM5") 10000
           (Examples.boot_world Examples.stubborn)); [lia | reflexivity].
Defined.

(** ** Nothing is placed before the account is verified flat (main_fixed.py) *)

Section QuietFacts.

(** [t] is the trace of [w] with newer events in front, none of them an
    order placement. *)
Definition quiet (w : world) (t : list event) : Prop :=
  ∃ evs, t = evs ++ trace w ∧ placed evs = [].

Lemma quiet_base w : quiet w (trace w).
Proof. by exists []. Qed.

Lemma quiet_cons w t e : quiet w t → is_placement e = false → quiet w (e :: t).
Proof.
  intros (evs & -> & Hp) He. exists (e :: evs). split; [done|].
  destruct e as [[] a| | |]; cbn in *; done.
Qed.

Lemma quiet_trans w w1 t : quiet w (trace w1) → quiet w1 t → quiet w t.
Proof.
  intros (e1 & H1 & Hp1) (e2 & -> & Hp2). exists (e2 ++ e1). split.
  - by rewrite H1, app_assoc.
  - by rewrite placed_app, Hp1, Hp2.
Qed.

Lemma quiet_placed w t : quiet w t → placed t = placed (trace w).
Proof. intros (evs & -> & Hp). by rewrite placed_app, Hp. Qed.

End QuietFacts.

(** Close a goal [quiet w (trace w')] where [w'] is [w] after explicit
    updates, possibly on top of worlds the context relates to [w]. *)
Ltac hush :=
  cbv beta in *;
  repeat first
    [ assumption
    | apply quiet_base
    | (apply quiet_cons; [|reflexivity])
    | (eapply quiet_trans; [| eassumption])
    | progress world_simpl ].

Section FlatFacts.
Context `{Runtime}.

Lemma list_positions_wp w Q :
  (∀ positions, Main.read_listing (broker w (calls w) GET_position_list).1 = inr positions →
                Q (Ret positions) (after_call w GET_position_list)) →
  (∀ e, Main.read_listing (broker w (calls w) GET_position_list).1 = inl e →
        Q (Raise e) (after_call w GET_position_list)) →
  wp MainFixed.list_positions w Q.
Proof.
  intros Hok Herr. unfold MainFixed.list_positions, json_list, Main.read_listing in *.
  wp_run.
  all: match goal with
       | Ha : (broker _ _ _).1 = _ |- _ => rewrite Ha in Hok, Herr
       end; cbn in Hok, Herr.
  all: repeat match goal with
       | Hs : is_success _ = _ |- _ => rewrite Hs in Hok, Herr
       | Hb : body _ = _ |- _ => rewrite Hb in Hok, Herr
       | Hd : decide _ = _ |- _ => rewrite Hd in Hok, Herr
       end.
  all: first [ by apply Hok | by apply Herr ].
Qed.

(** [open_position] only reads its arguments. *)
Lemma open_position_reads symbol positions w w0 :
  MainFixed.open_position symbol positions w
  = ((MainFixed.open_position symbol positions w0).1, w).
Proof.
  induction positions as [|pos rest IH]; cbn [MainFixed.open_position]; [done|].
  destruct (py_eq (get pos "symbol") symbol); [|exact IH].
  destruct (MainFixed.abs_positive _) as [[]|]; [done|exact IH|done].
Qed.

Lemma open_position_wp symbol positions w w0 Q :
  Q (MainFixed.open_position symbol positions w0).1 w →
  wp (MainFixed.open_position symbol positions) w Q.
Proof. unfold wp. by rewrite (open_position_reads _ _ w w0). Qed.

Lemma wait_loop_quiet fuel : ∀ symbol timeout start w,
  wp (Main.wait_loop fuel symbol timeout start) w (λ _ w', quiet w (trace w')).
Proof.
  induction fuel as [|fuel IH]; intros symbol timeout start w; cbn [Main.wait_loop].
  - wp_run. hush.
  - wp_step. apply list_orders_wp; [|intros; hush].
    intros orders _.
    destruct (List.filter (Main.working_for symbol) orders); [wp_run; hush|].
    wp_step. wp_step. destruct (_ >? _); [wp_run; hush|].
    wp_step. wp_step. eapply wp_mono; [apply IH|]. intros ? ? Hq. hush.
Qed.

(** The two fresh listings main_fixed.py reads after its wait, newest
    first at the head of the trace [t]: no open position and no working
    order for [symbol]. *)
Definition verified_flat (symbol : pyval) (t older : list event) : Prop :=
  ∃ a1 a2 positions orders,
    t = Call GET_order_list a2 :: Call GET_position_list a1 :: older
    ∧ Main.read_listing a1 = inr positions
    ∧ (∀ w0, (MainFixed.open_position symbol positions w0).1 = Ret None)
    ∧ Main.read_listing a2 = inr orders
    ∧ List.filter (Main.working_for symbol) orders = [].

Lemma wp_quiet_bind {A B} (m : M A) (f : A → M B) w Q :
  wp m w (λ _ w1, quiet w (trace w1)) →
  (∀ a w1, quiet w (trace w1) → wp (f a) w1 Q) →
  (∀ e w1, quiet w (trace w1) → Q (Raise e) w1) →
  (∀ w1, quiet w (trace w1) → Q Spin w1) →
  wp (m ≫= f) w Q.
Proof.
  intros Hm Hret Hraise Hspin. apply wp_bind. eapply wp_mono; [exact Hm|].
  intros [a|e|] w1 Hq; cbn beta in *; auto.
Qed.

Lemma fixed_cancel_all_orders_quiet symbol w :
  wp (MainFixed.cancel_all_orders symbol) w (λ _ w', quiet w (trace w')).
Proof. unfold MainFixed.cancel_all_orders. wp_run; hush. Qed.

Lemma flatten_position_quiet symbol w :
  wp (Main.flatten_position symbol) w (λ _ w', quiet w (trace w')).
Proof. unfold Main.flatten_position. wp_run; hush. Qed.

Lemma wait_until_no_open_orders_quiet fuel symbol timeout w :
  wp (Main.wait_until_no_open_orders fuel symbol timeout) w (λ _ w', quiet w (trace w')).
Proof.
  unfold Main.wait_until_no_open_orders. wp_step. wp_step. apply wait_loop_quiet.
Qed.

Lemma reconcile_wp fuel symbol w :
  wp (MainFixed.reconcile fuel symbol) w
     (λ out w', quiet w (trace w')
        ∧ match out with
          | Ret None => ∃ older, verified_flat symbol (trace w') older ∧ quiet w older
          | _ => True
          end).
Proof.
  unfold MainFixed.reconcile.
  apply wp_quiet_bind; [apply fixed_cancel_all_orders_quiet| |by split..].
  intros _ w1 Hq1.
  apply wp_quiet_bind;
    [apply flatten_position_quiet
    | |intros; split; [hush|done]..].
  intros _ w2 Hq2.
  apply wp_quiet_bind;
    [apply wait_until_no_open_orders_quiet
    | |intros; split; [hush|done]..].
  intros _ w3 Hq3.
  wp_step. apply list_positions_wp; [|intros; split; [hush|done]].
  intros positions Hpos. wp_step.
  apply (open_position_wp _ _ _ w).
  destruct (MainFixed.open_position symbol positions w).1 as [[pos|]| |] eqn:Hopen;
    try (wp_run; split; [hush|done]).
  wp_step. apply list_orders_wp; [|intros; split; [hush|done]].
  intros orders Hord.
  destruct (List.filter (Main.working_for symbol) orders) as [|o rest] eqn:Hf;
    [|wp_run; split; [hush|done]].
  wp_step. split; [hush|].
  exists (trace w3). split; [|hush].
  exists (broker w3 (calls w3) GET_position_list).1,
         (broker (after_call w3 GET_position_list)
                 (calls (after_call w3 GET_position_list)) GET_order_list).1,
         positions, orders.
  split_and!; try done.
  intros w0. by rewrite (open_position_reads _ _ w0 w), Hopen.
Qed.

Lemma make_plan_quiet data action symbol w :
  wp (MainFixed.make_plan data action symbol) w
     (λ out w', quiet w (trace w') ∧ ∃ p, out = Ret p).
Proof.
  unfold MainFixed.make_plan. wp_run; (split; [hush | eauto]).
Qed.

Lemma execute_plan_grows legs : ∀ symbol tracking results w,
  wp (MainFixed.execute_plan legs symbol tracking results) w
     (λ out w', extends w (trace w') ∧ ∃ p, out = Ret p).
Proof.
  induction legs as [|leg legs IH]; intros symbol tracking results w;
    cbn [MainFixed.execute_plan].
  - wp_run. split; [grown | eauto].
  - assert (Hnext : ∀ t r w1, extends w (trace w1) →
              wp (MainFixed.execute_plan legs symbol t r) w1
                 (λ out w', extends w (trace w') ∧ ∃ p, out = Ret p)).
    { intros t r w1 Hg. eapply wp_mono; [apply IH|].
      intros ? ? [? ?]. split; [grown | done]. }
    wp_step. wp_step. cbn zeta. wp_step. wp_step. wp_step.
    eapply wp_mono; [apply place_order_returns|].
    intros out w1 [Hg Hns]. destruct out as [res|e|]; [| |done].
    + unfold json_get. destruct res; wp_run; apply Hnext; grown.
    + wp_run. apply Hnext. grown.
Qed.

(** What the handler of main_fixed.py has done when it answers.  Either
    it answers [success]: then the trace holds the two fresh listings
    that showed neither an open position nor a working order for the
    mapped symbol, and every order placed since the handler started was
    placed after them.  Or it answers anything else (skipped, or an
    error): then it has placed no order. *)
Definition placed_only_when_flat (data : dict) (w : world)
    (out : outcome (MainFixed.response * option MainFixed.task)) (w' : world) : Prop :=
  match out with
  | Ret (MainFixed.Success _, _) =>
      ∃ raw evs t older,
        data !! "symbol" = Some raw
        ∧ trace w' = rev evs ++ t
        ∧ verified_flat (MainFixed.map_symbol raw) t older
        ∧ placed older = placed (trace w)
  | _ => placed (trace w') = placed (trace w)
  end.

Lemma webhook_body_wp fuel data w :
  wp (MainFixed.webhook_body fuel data) w
     (λ out w', match out with
                | Ret (MainFixed.Success _, _) => placed_only_when_flat data w out w'
                | _ => quiet w (trace w')
                end).
Proof.
  unfold MainFixed.webhook_body.
  destruct (data !! "action") as [[| | | |raw_action]|]; try solve [wp_run; hush].
  destruct (data !! "symbol") as [raw|] eqn:Hsym; [|solve [wp_run; hush]].
  cbn zeta. wp_step. apply list_positions_wp; [|intros; hush].
  intros positions Hpos. wp_step.
  apply (open_position_wp _ _ _ w).
  destruct (MainFixed.open_position _ positions w).1 as [found| |]; try solve [hush].
  wp_step. eapply wp_mono; [apply reconcile_wp|].
  intros out w1 [Hq1 Hflat]. destruct out as [[detail|]| |]; try solve [hush].
  destruct Hflat as (older & Hflat & Hqo).
  wp_step. eapply wp_mono; [apply make_plan_quiet|].
  intros out w2 [Hq2 [[plan sod] ->]]. cbn beta iota.
  wp_step. eapply wp_mono; [apply execute_plan_grows|].
  intros out w3 [Hg3 [[tracking results] ->]]. cbn beta iota.
  wp_step. cbn. destruct Hq2 as (logs & Hlogs & _). destruct Hg3 as [evs Hevs].
  exists raw, (rev logs ++ evs), (trace w1), older. split_and!; try done.
  - by rewrite Hevs, Hlogs, rev_app_distr, rev_involutive, <- app_assoc.
  - apply quiet_placed. hush.
Qed.

Theorem fixed_webhook_places_only_after_verifying_flat fuel data w :
  placed_only_when_flat data w (MainFixed.webhook fuel data w).1
    (MainFixed.webhook fuel data w).2.
Proof.
  assert (Hwp : wp (MainFixed.webhook fuel data) w (placed_only_when_flat data w)).
  { unfold MainFixed.webhook. wp_step. eapply wp_mono; [apply webhook_body_wp|].
    intros out w1. destruct out as [[[detail|res] task]|e|]; cbn beta iota.
    - intros Hq. by apply quiet_placed.
    - done.
    - intros Hq. wp_run. cbn. apply quiet_placed. hush.
    - intros Hq. by apply quiet_placed. }
  exact Hwp.
Qed.

End FlatFacts.

(** ** How [authenticate] and [place_order] can end *)

Section AdapterOutcomes.
Context `{Runtime}.

(** The adapter after a successful [authenticate]: an integer account id
    other than zero and a truthy account spec. *)
Definition signed_in (c : client_state) : Prop :=
  (∃ n, account_id c = PInt n ∧ n ≠ 0) ∧ truthy (account_spec c) = true.

(** The exceptions [authenticate] lets out. *)
Definition authentication_error (e : exn) : Prop :=
  e = TradovateApi.exhausted
  ∨ e = PyError "ValueError"
  ∨ e = HTTPException 500 "Internal server error during authentication"
  ∨ ∃ code, e = HTTPException code "Authentication failed"
            ∧ is_success code = false ∧ code ≠ 429.

Lemma authenticate_attempt_ends w :
  wp TradovateApi.authenticate_attempt w
     (λ out w', (calls w' ≤ calls w + 2)%nat
        ∧ match out with
          | Ret _ => signed_in (client w')
          | Raise (HTTPStatusError resp) => is_success (status_code resp) = false
          | Raise _ => True
          | Spin => False
          end).
Proof.
  unfold TradovateApi.authenticate_attempt,
    TradovateApi.set_access_token, TradovateApi.set_account_id,
    TradovateApi.set_account_spec, json_obj, json_list.
  wp_run; world_simpl; (split; [lia|]); try done.
  cbn in *. split.
  - eexists. split; [reflexivity|]. intros ->. cbn in *. congruence.
  - by destruct (truthy _).
Qed.

Lemma authenticate_from_ends k : ∀ i w,
  wp (TradovateApi.authenticate_from i k) w
     (λ out w', (calls w' ≤ calls w + 2 * k)%nat
        ∧ match out with
          | Ret _ => signed_in (client w')
          | Raise e => authentication_error e
          | Spin => False
          end).
Proof.
  unfold authentication_error.
  induction k as [|k IH]; intros i w; cbn [TradovateApi.authenticate_from].
  - wp_run. world_simpl. split; [lia|]. by left.
  - wp_step. wp_step. eapply wp_mono; [apply authenticate_attempt_ends|].
    intros out w1 [Hc Hout].
    destruct out as [[]|e|]; [wp_run; split; [lia|done] | |done].
    destruct e as [resp|code detail|kind]; [|wp_run; world_simpl; split; [lia|]; auto..].
    destruct (Z.eqb_spec (status_code resp) 429) as [E|Hne].
    + destruct (int _) as [delay|]; [|wp_run; world_simpl; split; [lia|]; auto].
      wp_run. eapply wp_mono; [apply IH|].
      intros out w' [Hc' Hout']. world_simpl. split; [lia | done].
    + wp_run. world_simpl. split; [lia|]. right. right. right. eauto.
Qed.

(** [authenticate] ends after at most ten requests.  When it returns the
    adapter holds an integer account id other than zero and a truthy
    account spec.  Otherwise it raises one of four things: HTTP 429 once
    the five rounds are used up, the broker's own status for any other
    HTTP error (at once: only 429 is retried), [ValueError] for a
    Retry-After header that is no integer, and HTTP 500 for everything
    else, among them a missing account spec or id, which is raised as 400
    inside the [try] and caught there. *)
Theorem authenticate_ends w :
  let r := TradovateApi.authenticate w in
  (calls r.2 ≤ calls w + 10)%nat
  ∧ match r.1 with
    | Ret _ => signed_in (client r.2)
    | Raise e => authentication_error e
    | Spin => False
    end.
Proof. apply (authenticate_from_ends 5 0 w). Qed.

(** The payload [place_order] sends: the caller's, or the default one
    when the caller gave none or an empty one ([None] when building the
    default raises because [action] is no string). *)
Definition payload_of (c : client_state) (symbol action quantity : pyval)
    (order_data : option dict) : option dict :=
  let default :=
    match action with
    | PStr a =>
        Some ({[ "accountId" := account_id c;
                 "action" := PStr (capitalize a);
                 "symbol" := symbol;
                 "orderQty" := quantity;
                 "orderType" := PStr "limit";
                 "timeInForce" := PStr "GTC";
                 "isAutomated" := PBool true ]} : dict)
    | _ => None
    end in
  match order_data with
  | Some d => if decide (d = ∅) then default else Some d
  | None => default
  end.

(** With a token at hand [place_order] makes at most one request and
    never a second try.  No payload to send (the default one cannot be
    built) raises [AttributeError] and a payload whose accountId is
    missing or falsy raises HTTP 400, both before anything is sent.
    Otherwise the one request decides: a 2xx answer with a JSON body is
    returned, any other status is raised as HTTPException with that
    status, and a transport failure or a body that is not JSON is raised
    as HTTP 500. *)
Theorem place_order_with_token symbol action quantity order_data w :
  truthy (access_token (client w)) = true →
  let r := TradovateApi.place_order symbol action quantity order_data w in
  match payload_of (client w) symbol action quantity order_data with
  | None => r.1 = Raise (PyError "AttributeError") ∧ r.2 = w
  | Some payload =>
      if truthy (get payload "accountId") then
        r.1 = TradovateApi.placement_result
                (broker w (calls w) (POST_order_placeorder payload)).1
        ∧ r.2 = after_call w (POST_order_placeorder payload)
      else r.1 = Raise (HTTPException 400 "Missing accountId in order payload") ∧ r.2 = w
  end.
Proof.
  intros Htok r.
  assert (Hsend : ∀ payload : dict,
    wp (if negb (truthy (get payload "accountId"))
        then raise (HTTPException 400 "Missing accountId in order payload")
        else
          r ← attempt (resp ← send (POST_order_placeorder payload);
                       raise_for_status resp;;
                       json_any resp);
          match r with
          | inr response_data => mret response_data
          | inl (HTTPStatusError resp) =>
              raise (HTTPException (status_code resp) "Order placement failed")
          | inl _ =>
              raise (HTTPException 500 "Internal server error during order placement")
          end) w
       (λ out w',
          if truthy (get payload "accountId") then
            out = TradovateApi.placement_result
                    (broker w (calls w) (POST_order_placeorder payload)).1
            ∧ w' = after_call w (POST_order_placeorder payload)
          else out = Raise (HTTPException 400 "Missing accountId in order payload")
               ∧ w' = w)).
  { intros payload. unfold TradovateApi.placement_result, json_any.
    destruct (truthy (get payload "accountId")); cbn [negb]; [|by wp_run].
    wp_run; world_simpl;
      repeat match goal with
             | Hs : is_success _ = _ |- _ => rewrite Hs
             | Hb : body _ = _ |- _ => rewrite Hb
             end; done. }
  assert (Hwp : wp (TradovateApi.place_order symbol action quantity order_data) w
            (λ out w',
               match payload_of (client w) symbol action quantity order_data with
               | None => out = Raise (PyError "AttributeError") ∧ w' = w
               | Some payload =>
                   if truthy (get payload "accountId") then
                     out = TradovateApi.placement_result
                             (broker w (calls w) (POST_order_placeorder payload)).1
                     ∧ w' = after_call w (POST_order_placeorder payload)
                   else out = Raise (HTTPException 400 "Missing accountId in order payload")
                        ∧ w' = w
               end)).
  { unfold TradovateApi.place_order, TradovateApi.ensure_token,
      TradovateApi.default_payload, payload_of.
    wp_step. wp_step. wp_step. rewrite Htok. cbn [negb]. wp_step. wp_step.
    destruct order_data as [d|]; [destruct (decide (d = ∅)) as [->|Hne]|].
    all: cbn beta iota.
    2: { wp_step. apply Hsend. }
    all: wp_step; wp_step; destruct action; try (by wp_run).
    all: wp_step; apply Hsend. }
  exact Hwp.
Qed.

End AdapterOutcomes.

Lemma place_order_with_token_witness :
  let r := TradovateApi.place_order (H := Examples.plain) (PStr "NQM5") (PStr "Buy") (PInt 1)
             (Some (MainFixed.order_payload (PInt 42) (PStr "NQM5")
                      (MainFixed.entry_leg "Buy" Examples.f18500)))
             (Examples.boot_world (Examples.always 503 None)) in
  r.1 = Raise (HTTPException 503 "Order placement failed")
  ∧ r.2 = after_call (Examples.boot_world (Examples.always 503 None))
            (POST_order_placeorder
               (MainFixed.order_payload (PInt 42) (PStr "NQM5")
                  (MainFixed.entry_leg "Buy" Examples.f18500))).
Proof.
  exact (place_order_with_token (H := Examples.plain) (PStr "NQM5") (PStr "Buy") (PInt 1)
           (Some (MainFixed.order_payload (PInt 42) (PStr "NQM5")
                    (MainFixed.entry_leg "Buy" Examples.f18500)))
           (Examples.boot_world (Examples.always 503 None)) eq_refl).
Defined.

(** ** Listing, cancelling and closing through the adapter *)

Section ClientFacts.
Context `{Runtime}.
Import TradovateClient.

Lemma ensure_token_with_token w :
  truthy (access_token (client w)) = true →
  TradovateApi.ensure_token w = (Ret (), w).
Proof.
  intros Htok. unfold TradovateApi.ensure_token, get_client, mbind, M_bind.
  by rewrite Htok.
Qed.

Lemma wp_ensure_token w Q :
  truthy (access_token (client w)) = true →
  Q (Ret ()) w → wp TradovateApi.ensure_token w Q.
Proof. intros Htok HQ. unfold wp. by rewrite ensure_token_with_token. Qed.

(** With a token, a listing method makes its one request and answers by
    what [read_listing] makes of the reply: the filtered list, or an
    HTTPException that keeps the status of a status error and is 500
    otherwise. *)
Definition listing_result (keep : dict → bool) (a : reply) : outcome (list dict) :=
  match Main.read_listing a with
  | inr l => Ret (List.filter keep l)
  | inl (HTTPStatusError resp) => Raise (HTTPException (status_code resp) "")
  | inl _ => Raise (HTTPException 500 "")
  end.

(** Two outcomes that differ at most in the detail text of an
    HTTPException. *)
Definition same_but_detail {A} (o1 o2 : outcome A) : Prop :=
  match o1, o2 with
  | Ret a, Ret b => a = b
  | Raise (HTTPException c1 _), Raise (HTTPException c2 _) => c1 = c2
  | Spin, Spin => True
  | _, _ => False
  end.

Lemma get_pending_orders_wp w :
  truthy (access_token (client w)) = true →
  wp get_pending_orders w
     (λ out w',
        same_but_detail out
          (listing_result is_pending (broker w (calls w) GET_order_list).1)
        ∧ sent (trace w') = GET_order_list :: sent (trace w)
        ∧ client w' = client w ∧ calls w' = S (calls w) ∧ broker w' = broker w).
Proof.
  intros Htok. unfold get_pending_orders, reraise, json_list, listing_result,
    Main.read_listing.
  wp_step. apply wp_ensure_token; [done|].
  wp_run; world_simpl;
    repeat match goal with
           | Hs : is_success _ = _ |- _ => rewrite Hs
           | Hb : body _ = _ |- _ => rewrite Hb
           | Hd : decide _ = _ |- _ => rewrite Hd
           end; cbn; done.
Qed.

Lemma get_positions_wp w :
  truthy (access_token (client w)) = true →
  wp get_positions w
     (λ out w',
        same_but_detail out
          (listing_result is_open (broker w (calls w) GET_position_list).1)
        ∧ sent (trace w') = GET_position_list :: sent (trace w)
        ∧ client w' = client w ∧ calls w' = S (calls w) ∧ broker w' = broker w).
Proof.
  intros Htok. unfold get_positions, reraise, json_list, listing_result,
    Main.read_listing.
  wp_step. apply wp_ensure_token; [done|].
  wp_run; world_simpl;
    repeat match goal with
           | Hs : is_success _ = _ |- _ => rewrite Hs
           | Hb : body _ = _ |- _ => rewrite Hb
           | Hd : decide _ = _ |- _ => rewrite Hd
           end; cbn; done.
Qed.

Definition has_id (order : dict) : bool := truthy (get order "id").

Definition cancel_request (order : dict) : request :=
  POST_order_cancelorder {[ "orderId" := get order "id" ]}.

Lemma cancel_order_with_token order_id w :
  truthy (access_token (client w)) = true →
  wp (attempt (TradovateApi.cancel_order order_id)) w
     (λ out w', (∃ x, out = Ret x)
        ∧ w' = after_call w (POST_order_cancelorder {[ "orderId" := order_id ]})).
Proof.
  intros Htok. unfold TradovateApi.cancel_order, json_any.
  wp_step. wp_step. apply wp_ensure_token; [done|].
  wp_run; eauto.
Qed.

Lemma cancel_each_wp pending : ∀ cancelled w,
  truthy (access_token (client w)) = true →
  wp (cancel_each pending cancelled) w
     (λ out w', (∃ more, out = Ret (cancelled ++ more)
                   ∧ (List.length more ≤ List.length (List.filter has_id pending))%nat)
        ∧ sent (trace w')
          = rev (map cancel_request (List.filter has_id pending)) ++ sent (trace w)
        ∧ client w' = client w).
Proof.
  induction pending as [|order rest IH]; intros cancelled w Htok;
    cbn [cancel_each List.filter].
  - wp_run. split; [|done]. exists []. by rewrite app_nil_r.
  - destruct (has_id order) eqn:Hid; unfold has_id in Hid; rewrite Hid; [|by apply IH].
    wp_step. eapply wp_mono; [by apply cancel_order_with_token|].
    intros out w1 [[x ->] ->].
    assert (Hnext : ∀ cancelled' logs,
              (∃ more', cancelled' = cancelled ++ more' ∧ (List.length more' ≤ 1)%nat) →
              Forall (λ e, ∃ l, e = Logged l) logs →
              ∀ w2, trace w2 = logs ++ trace (after_call w (cancel_request order)) →
                    client w2 = client w →
              wp (cancel_each rest cancelled') w2
                 (λ out w',
                    (∃ more, out = Ret (cancelled ++ more)
                       ∧ (List.length more
                          ≤ List.length (order :: List.filter has_id rest))%nat)
                    ∧ sent (trace w')
                      = rev (map cancel_request (order :: List.filter has_id rest))
                        ++ sent (trace w)
                    ∧ client w' = client w)).
    { intros cancelled' logs (more' & -> & Hlen) Hlogs w2 Ht Hc.
      eapply wp_mono; [apply IH; by rewrite Hc|].
      intros out w' ((more & -> & Hlen') & Hsent & Hc').
      split; [|split; [|congruence]].
      - exists (more' ++ more). rewrite app_assoc. split; [done|].
        rewrite length_app. cbn [List.length]. lia.
      - rewrite Hsent, Ht. cbn [map rev]. rewrite <- app_assoc.
        f_equal. unfold sent. rewrite omap_app.
        replace (omap _ logs) with (@nil request).
        + done.
        + clear -Hlogs. induction Hlogs as [|e logs [l ->] _ IHl]; [done|]. exact IHl. }
    destruct x as [e|result]; [destruct e as [resp|code detail|kind]|].
    + wp_run. apply (Hnext _ [Logged (LogCancelFailed (get order "id"))]);
        [exists []; split; [by rewrite app_nil_r|cbn; lia]
        | repeat constructor; eauto | done..].
    + destruct (code =? 404).
      * apply (Hnext _ []);
          [eexists [_]; split; [done|cbn; lia] | constructor | done..].
      * wp_run. apply (Hnext _ [Logged (LogCancelFailed (get order "id"))]);
          [exists []; split; [by rewrite app_nil_r|cbn; lia]
          | repeat constructor; eauto | done..].
    + wp_run. apply (Hnext _ [Logged (LogCancelFailed (get order "id"))]);
        [exists []; split; [by rewrite app_nil_r|cbn; lia]
        | repeat constructor; eauto | done..].
    + apply (Hnext _ []); [exists [result]; split; [done|cbn; lia] | constructor | done..].
Qed.


(** What [close_position] answers once the reply to its closing order is
    known. *)
Definition closing_result (a : reply) : outcome closed :=
  match a with
  | Failure => Raise (HTTPException 500 "Internal server error closing position")
  | Answer resp =>
      if is_success (status_code resp) then
        match body resp with
        | JInvalid => Raise (HTTPException 500 "Internal server error closing position")
        | b => Ret (CloseOrder b)
        end
      else Raise (HTTPException (status_code resp) "Failed to close position")
  end.

Lemma target_is_open symbol positions target :
  target_position symbol (List.filter is_open positions) = Some target →
  target ≠ ∅ ∧ py_eq (net_pos target) (PInt 0) = false.
Proof.
  intros Hf. apply find_some in Hf as [Hin _].
  apply filter_In in Hin as [_ Hopen]. unfold is_open in Hopen.
  apply negb_true_iff in Hopen. split; [|done].
  intros ->. by cbn in Hopen.
Qed.

(** What [close_position symbol] started in [w] has done when it ends in
    [out] and [w']. *)
Definition position_closed (symbol : pyval) (w : world) (out : outcome closed)
    (w' : world) : Prop :=
  match Main.read_listing (broker w (calls w) GET_position_list).1 with
  | inl _ =>
      out = Raise (HTTPException 500 "Internal server error closing position")
      ∧ sent (trace w') = GET_position_list :: sent (trace w)
  | inr positions =>
      match target_position symbol (List.filter is_open positions) with
      | None =>
          out = Ret (NoPosition symbol)
          ∧ sent (trace w') = GET_position_list :: sent (trace w)
      | Some target =>
          match gt_zero (net_pos target), py_abs (net_pos target) with
          | Some positive, Some close_quantity =>
              let order := close_order (client w) symbol
                             (if positive then "Sell" else "Buy") close_quantity in
              out = closing_result
                      (broker w (S (calls w)) (POST_order_placeorder order)).1
              ∧ sent (trace w')
                = POST_order_placeorder order :: GET_position_list :: sent (trace w)
          | _, _ =>
              out = Raise (HTTPException 500 "Internal server error closing position")
              ∧ sent (trace w') = GET_position_list :: sent (trace w)
          end
      end
  end.

Lemma close_position_wp symbol w :
  truthy (access_token (client w)) = true →
  wp (close_position symbol) w
     (λ out w', position_closed symbol w out w'
        ∧ client w' = client w ∧ broker w' = broker w
        ∧ (calls w' ≤ calls w + 2)%nat ∧ out ≠ Spin).
Proof.
  intros Htok. unfold position_closed, close_position.
  wp_step. apply wp_ensure_token; [done|].
  wp_step. wp_step.
  eapply wp_mono; [by apply get_positions_wp|].
  intros out w1 (Hout & Hsent & Hc & Hn & Hb). unfold listing_result in Hout.
  destruct (Main.read_listing _) as [e|positions].
  - assert (∃ c d, out = Raise (HTTPException c d)) as (c & d & ->).
    { destruct out as [|[]|]; destruct e; try done; eauto. }
    unfold reraise. wp_run. world_simpl. split_and!; try done; try lia.
  - destruct out as [open|[]|]; try done. cbn in Hout. subst open.
    destruct (target_position symbol (List.filter is_open positions)) as [target|] eqn:Hf;
      [|wp_run; split_and!; try done; lia].
    destruct (target_is_open _ _ _ Hf) as [Hne Hnz].
    destruct (decide (target = ∅)) as [|_]; [done|]. rewrite Hnz.
    unfold reraise, closing_result, json_any.
    destruct (gt_zero (net_pos target)) as [positive|];
      [destruct (py_abs (net_pos target)) as [close_quantity|]|];
      try (wp_run; world_simpl; split_and!; try done; lia).
    cbn zeta. rewrite <- Hc, <- Hn, <- Hb.
    wp_run; world_simpl;
      repeat match goal with
             | Hs : is_success _ = _ |- _ => rewrite Hs
             | Hb : body _ = _ |- _ => rewrite Hb
             end; split_and!; try done; try lia;
      unfold sent in *; cbn; by rewrite Hsent.
Qed.

(** [close_position] with a token at hand.  It lists the positions once;
    a listing that fails, whatever its status, is reported as HTTP 500.
    With no open position for the symbol it answers [no_position] and
    sends nothing more.  Otherwise it places one market order for the
    first open position of that symbol: Sell when netPos is positive, Buy
    when it is not, for the absolute value of netPos; a netPos that is no
    number is reported as HTTP 500.  The branch that answers
    [already_closed] is never taken. *)
Theorem close_position_with_token symbol w :
  truthy (access_token (client w)) = true →
  position_closed symbol w (close_position symbol w).1 (close_position symbol w).2
  ∧ ∀ s, (close_position symbol w).1 ≠ Ret (AlreadyClosed s).
Proof.
  intros Htok. destruct (close_position_wp symbol w Htok) as (Hp & _). split; [done|].
  intros s Hs. unfold position_closed in Hp. rewrite Hs in Hp.
  destruct (Main.read_listing _) as [e|positions]; [by destruct Hp|].
  destruct (target_position _ _) as [target|]; [|by destruct Hp].
  destruct (gt_zero _) as [positive|]; [|by destruct Hp].
  destruct (py_abs _) as [q|]; [|by destruct Hp].
  destruct Hp as [Hp _]. unfold closing_result in Hp.
  destruct ((broker w (S (calls w)) _).1) as [resp|]; [|done].
  destruct (is_success _); [|done]. by destruct (body resp).
Qed.

(** The open positions [close_all_positions] tries to close. *)
Definition closable (position : dict) : bool :=
  truthy (get position "symbol") && negb (py_eq (net_pos position) (PInt 0)).

Lemma close_each_wp positions : ∀ closed_positions w,
  truthy (access_token (client w)) = true →
  wp (close_each positions closed_positions) w
     (λ out w',
        (∃ more, out = Ret (closed_positions ++ more)
                 ∧ (List.length more ≤ List.length (List.filter closable positions))%nat
                 ∧ Forall (λ c, ∀ s, c ≠ AlreadyClosed s) more)
        ∧ (calls w' ≤ calls w + 2 * List.length (List.filter closable positions))%nat
        ∧ client w' = client w).
Proof.
  induction positions as [|position rest IH]; intros closed_positions w Htok;
    cbn [close_each List.filter].
  - wp_run. split_and!; try done; try lia. exists []. by rewrite app_nil_r.
  - destruct (closable position) eqn:Hcl; unfold closable in Hcl; rewrite Hcl;
      [|by apply IH].
    wp_step. wp_step. eapply wp_mono; [by apply close_position_wp|].
    intros out w1 (Hp & Hc & Hb & Hn & Hns).
    assert (Hnext : ∀ closed' w2,
              (∃ more', closed' = closed_positions ++ more'
                        ∧ (List.length more' ≤ 1)%nat
                        ∧ Forall (λ c, ∀ s, c ≠ AlreadyClosed s) more') →
              client w2 = client w → calls w2 = calls w1 →
              wp (close_each rest closed') w2
                 (λ out w',
                    (∃ more, out = Ret (closed_positions ++ more)
                       ∧ (List.length more
                          ≤ List.length (position :: List.filter closable rest))%nat
                       ∧ Forall (λ c, ∀ s, c ≠ AlreadyClosed s) more)
                    ∧ (calls w' ≤ calls w
                                  + 2 * List.length (position :: List.filter closable rest))%nat
                    ∧ client w' = client w)).
    { intros closed' w2 (more' & -> & Hlen & Hall) Hc2 Hn2.
      eapply wp_mono; [apply IH; by rewrite Hc2|].
      intros out' w' ((more & -> & Hlen' & Hall') & Hcalls & Hc').
      split_and!; [|cbn [List.length]; lia|congruence].
      exists (more' ++ more). rewrite app_assoc. split_and!; [done| |by apply Forall_app].
      rewrite length_app. cbn [List.length]. lia. }
    destruct out as [result|e|]; [| |done].
    + apply Hnext; [|done..]. exists [result]. split_and!; [done|cbn; lia|].
      constructor; [|constructor]. intros s ->.
      unfold position_closed in Hp.
      destruct (Main.read_listing _) as [e|positions]; [by destruct Hp|].
      destruct (target_position _ _) as [target|]; [|by destruct Hp].
      destruct (gt_zero _) as [positive|]; [|by destruct Hp].
      destruct (py_abs _) as [q|]; [|by destruct Hp].
      destruct Hp as [Hp _]. unfold closing_result in Hp.
      destruct ((broker w (S (calls w)) _).1) as [resp|]; [|done].
      destruct (is_success _); [|done]. by destruct (body resp).
    + wp_run. apply Hnext; [|done..]. exists []. split_and!; [by rewrite app_nil_r|cbn; lia|done].
Qed.


End ClientFacts.


Lemma close_position_with_token_witness :
  let r := TradovateClient.close_position (H := Examples.plain) (PStr "NQM5")
             (Examples.boot_world Examples.long_two) in
  (r.1 = Ret (TradovateClient.CloseOrder (JObj ∅))
   ∧ TradovateClient.sent (trace r.2)
     = [POST_order_placeorder
          (TradovateClient.close_order Examples.authed (PStr "NQM5") "Sell" (PInt 2));
        GET_position_list])
  ∧ ∀ s, r.1 ≠ Ret (TradovateClient.AlreadyClosed s).
Proof.
  exact (close_position_with_token (H := Examples.plain) (PStr "NQM5")
           (Examples.boot_world Examples.long_two) eq_refl).
Defined.


(** * Alerts sent as text *)

Section AlertFacts.
Context `{Runtime} `{AlertText.JsonLoads}.
Import AlertText.

Lemma append_nil (t : string) : (EmptyString ++ t)%string = t.
Proof. reflexivity. Qed.

Lemma append_cons c (s t : string) : (String c s ++ t)%string = String c (s ++ t).
Proof. reflexivity. Qed.

Lemma cut_key k v :
  equals ∉ chars k → cut equals (k ++ String equals v) = Some (k, v).
Proof.
  unfold equals. induction k as [|c k IH]; intros Hk;
    rewrite ?append_nil, ?append_cons; cbn.
  - done.
  - cbn in Hk. apply not_elem_of_cons in Hk as [Hc Hk].
    destruct (Ascii.eqb_spec c "=") as [->|_]; [done|].
    by rewrite (IH Hk).
Qed.

Lemma split_nonempty sep s : split sep s ≠ [].
Proof.
  destruct s as [|c r]; cbn; [done|].
  destruct (Ascii.eqb c sep); [done|]. by destruct (split sep r).
Qed.

Lemma split_line l r :
  newline ∉ chars l → split newline (l ++ String newline r) = l :: split newline r.
Proof.
  unfold newline. induction l as [|c l IH]; intros Hl;
    rewrite ?append_nil, ?append_cons; cbn.
  - done.
  - cbn in Hl. apply not_elem_of_cons in Hl as [Hc Hl].
    destruct (Ascii.eqb_spec c "010") as [->|_]; [done|].
    by rewrite (IH Hl).
Qed.

Lemma split_last l : newline ∉ chars l → split newline l = [l].
Proof.
  unfold newline. induction l as [|c l IH]; intros Hl; cbn.
  - done.
  - cbn in Hl. apply not_elem_of_cons in Hl as [Hc Hl].
    destruct (Ascii.eqb_spec c "010") as [->|_]; [done|].
    by rewrite (IH Hl).
Qed.

Lemma chars_app s t : chars (s ++ t) = chars s ++ chars t.
Proof.
  induction s as [|c s IH]; rewrite ?append_nil, ?append_cons; cbn; [done|].
  by rewrite IH.
Qed.

Lemma item_line k v :
  clean_key k → clean_value v → newline ∉ chars (k ++ String equals v).
Proof.
  intros (_ & _ & Hk & _) [Hv _]. rewrite chars_app. cbn.
  intros Hin. apply elem_of_app in Hin as [Hin|Hin]; [done|].
  apply elem_of_cons in Hin as [Hin|Hin]; [|done].
  discriminate Hin.
Qed.

Lemma parse_item d k v :
  clean_key k → clean_value v →
  parse_line d (k ++ String equals v) = <[k := PStr v]> d.
Proof.
  intros (_ & Hk & _ & Hsk) [_ Hsv]. unfold parse_line.
  by rewrite (cut_key _ _ Hk), Hsk, Hsv.
Qed.

(** The dict a list of items amounts to: later items win. *)
Definition dict_of (items : list (string * string)) : dict :=
  foldl (λ d kv, <[kv.1 := PStr kv.2]> d) ∅ items.

Lemma parse_lines_render items : ∀ d,
  items ≠ [] →
  Forall (λ kv, clean_key kv.1 ∧ clean_value kv.2) items →
  foldl parse_line d (split newline (render items))
  = foldl (λ d kv, <[kv.1 := PStr kv.2]> d) d items.
Proof.
  induction items as [|[k v] rest IH]; intros d Hne Hclean; [done|].
  apply Forall_cons in Hclean as [[Hk Hv] Hrest]. cbn [fst snd] in *.
  destruct rest as [|kv rest'].
  - cbn [render]. rewrite split_last by by apply item_line.
    cbn. by rewrite parse_item.
  - change (render ((k, v) :: kv :: rest'))
      with (k ++ String equals v ++ String newline (render (kv :: rest')))%string.
    replace (k ++ String equals v ++ String newline (render (kv :: rest')))%string
      with ((k ++ String equals v) ++ String newline (render (kv :: rest')))%string.
    2: { clear. induction k as [|c k IHk]; rewrite ?append_nil, ?append_cons; [done|].
         by rewrite IHk. }
    rewrite split_line by by apply item_line.
    cbn [foldl]. rewrite parse_item by done.
    by apply IH.
Qed.

Definition targets : list string := ["T1"; "STOP"; "PRICE"].

(** What [float] makes of the value under a key, when it is there. *)
Definition as_float (d : dict) (k : string) : option pyval :=
  d !! k ≫= λ v, PFloat <$> float v.

Lemma convert_spec ts : ∀ d,
  NoDup ts →
  match convert ts d with
  | inr d' => ∀ k, d' !! k = if bool_decide (k ∈ ts) then as_float d k else d !! k
  | inl e => ∃ k v, k ∈ ts ∧ d !! k = Some v ∧ float v = None
                    ∧ e = PyError (float_error v)
  end.
Proof.
  unfold as_float.
  induction ts as [|t ts IH]; intros d Hnd; cbn [convert].
  - intros k. by rewrite bool_decide_eq_false_2 by apply not_elem_of_nil.
  - apply NoDup_cons in Hnd as [Ht Hnd].
    destruct (d !! t) as [v|] eqn:Hv.
    + destruct (float v) as [x|] eqn:Hx.
      * specialize (IH (<[t := PFloat x]> d) Hnd).
        destruct (convert ts _) as [e|d'].
        -- destruct IH as (k & v' & Hk & Hl & Hf & He).
           exists k, v'. split_and!; [by right| |done..].
           rewrite lookup_insert_ne in Hl; [done|]. by intros ->.
        -- intros k. rewrite IH. destruct (decide (k = t)) as [->|Hne].
           ++ rewrite bool_decide_eq_false_2 by done.
              rewrite bool_decide_eq_true_2 by by left.
              rewrite lookup_insert_eq, Hv. cbn. by rewrite Hx.
           ++ rewrite lookup_insert_ne by done.
              destruct (decide (k ∈ ts)).
              ** by rewrite !bool_decide_eq_true_2 by (done || by right).
              ** rewrite !bool_decide_eq_false_2; [done| |done].
                 intros [?|?]%elem_of_cons; done.
      * exists t, v. split_and!; [by left|done..].
    + specialize (IH d Hnd). destruct (convert ts d) as [e|d'].
      * destruct IH as (k & v' & Hk & Hl & Hf & He). exists k, v'.
        split_and!; [by right|done..].
      * intros k. rewrite IH. destruct (decide (k = t)) as [->|Hne].
        -- rewrite bool_decide_eq_false_2 by done.
           rewrite bool_decide_eq_true_2 by by left. by rewrite Hv.
        -- destruct (decide (k ∈ ts)).
           ++ by rewrite !bool_decide_eq_true_2 by (done || by right).
           ++ rewrite !bool_decide_eq_false_2; [done| |done].
              intros [?|?]%elem_of_cons; done.
Qed.

Lemma targets_distinct : NoDup targets.
Proof. apply (bool_decide_unpack _). vm_compute. reflexivity. Qed.



Lemma lower_upper_char c : lower_char (upper_char c) = lower_char c.
Proof. destruct c as [[] [] [] [] [] [] [] []]; vm_compute; reflexivity. Qed.

Lemma lower_upper s : lower (upper s) = lower s.
Proof. induction s as [|c s IH]; cbn; [done|]. by rewrite lower_upper_char, IH. Qed.

Lemma capitalize_upper s : capitalize (upper s) = capitalize s.
Proof.
  destruct s as [|c s]; cbn; [done|]. rewrite lower_upper. f_equal.
  destruct c as [[] [] [] [] [] [] [] []]; vm_compute; reflexivity.
Qed.


End AlertFacts.




(** ** What the monitors place, and how often *)

Section Budget.
Context `{Runtime}.
Variable allowed : dict → Prop.

(** [t] is the trace of [w] with newer events in front, among them at
    most [n] order placements, each with an [allowed] payload. *)
Definition spent (n : nat) (w : world) (t : list event) : Prop :=
  ∃ evs, t = evs ++ trace w
         ∧ Forall allowed (placed evs) ∧ (List.length (placed evs) ≤ n)%nat.

Lemma quiet_spent n w t : quiet w t → spent n w t.
Proof.
  intros (evs & -> & Hp). exists evs. rewrite Hp. split_and!; [done|constructor|cbn; lia].
Qed.

Lemma spent_trans n m w w1 t :
  spent n w (trace w1) → spent m w1 t → spent (n + m) w t.
Proof.
  intros (e1 & H1 & Ha1 & Hn1) (e2 & -> & Ha2 & Hn2). exists (e2 ++ e1).
  rewrite H1, placed_app, length_app. split_and!.
  - by rewrite app_assoc.
  - by apply Forall_app.
  - lia.
Qed.

Lemma spent_mono n m w t : (n ≤ m)%nat → spent n w t → spent m w t.
Proof. intros Hnm (evs & -> & Ha & Hn). exists evs. split_and!; [done..|lia]. Qed.

Lemma spent_quiet n w w1 t : spent n w (trace w1) → quiet w1 t → spent n w t.
Proof.
  intros Hs Hq. rewrite <- (Nat.add_0_r n).
  eapply spent_trans; [done|]. by apply quiet_spent.
Qed.

Lemma spent_cons n w t e : spent n w t → is_placement e = false → spent n w (e :: t).
Proof.
  intros (evs & -> & Ha & Hn) He. exists (e :: evs).
  destruct e as [[] a| | |]; cbn in *; done.
Qed.

Lemma spent_place n w t p a :
  spent n w t → allowed p → spent (S n) w (Call (POST_order_placeorder p) a :: t).
Proof.
  intros (evs & -> & Ha & Hn) Hp. exists (Call (POST_order_placeorder p) a :: evs).
  cbn. split_and!; [done|by constructor|lia].
Qed.

End Budget.

(** Close a goal [spent allowed n w t] where [t] puts explicit events,
    at most one of them a placement, on a trace the context bounds. *)
Ltac spend :=
  repeat first
    [ assumption
    | (apply spent_cons; [|reflexivity])
    | (apply spent_place; [|done])
    | (eapply spent_mono; [|eassumption]; lia)
    | (apply quiet_spent, quiet_base) ].

Section MonitorBudget.
Context `{Runtime}.

Lemma authenticate_attempt_quiet w :
  wp TradovateApi.authenticate_attempt w (λ _ w', quiet w (trace w')).
Proof.
  unfold TradovateApi.authenticate_attempt,
    TradovateApi.set_access_token, TradovateApi.set_account_id,
    TradovateApi.set_account_spec, json_obj, json_list.
  wp_run; hush.
Qed.

Lemma authenticate_from_quiet remaining : ∀ n w,
  wp (TradovateApi.authenticate_from n remaining) w (λ _ w', quiet w (trace w')).
Proof.
  induction remaining as [|k IH]; intros n w; cbn [TradovateApi.authenticate_from].
  - wp_run. hush.
  - wp_step. wp_step. eapply wp_mono; [apply authenticate_attempt_quiet|].
    intros out w1 Hq. cbn beta in Hq. destruct out as [[]|e|]; [by wp_run| |done].
    repeat first
      [ (eapply wp_mono; [apply IH|]; intros ? ? ?; hush)
      | wp_step ].
    all: hush.
Qed.

Lemma ensure_token_quiet w :
  wp TradovateApi.ensure_token w (λ _ w', quiet w (trace w')).
Proof.
  unfold TradovateApi.ensure_token, TradovateApi.authenticate. wp_step. wp_step. wp_step.
  - apply authenticate_from_quiet.
  - wp_step. hush.
Qed.

(** [place_order] with a payload of the caller's places that payload, at
    most once. *)
Lemma place_order_spends (allowed : dict → Prop) symbol action quantity payload w :
  payload ≠ ∅ → allowed payload →
  wp (TradovateApi.place_order symbol action quantity (Some payload)) w
     (λ _ w', spent allowed 1 w (trace w')).
Proof.
  intros Hne Hp. unfold TradovateApi.place_order, json_any.
  wp_step. eapply wp_mono; [apply ensure_token_quiet|].
  intros out w1 Hq. cbn beta in Hq.
  destruct out as [[]|e|]; [|by apply quiet_spent..].
  destruct (decide (payload = ∅)) as [|_]; [done|].
  assert (Hs1 : spent allowed 0 w (trace w1)) by by apply quiet_spent.
  wp_run; world_simpl; spend.
Qed.

Section Fixed.
Variable sod : option dict.

(** The payloads the monitor of main_fixed.py may place. *)
Definition held_stop_of (p : dict) : Prop := sod = Some p ∧ p ≠ ∅.

Local Abbreviation room := (spent held_stop_of).

Definition fixed_budget (l : MainFixed.locals) : nat :=
  if MainFixed.entry_filled l then 2%nat else 0%nat.

Lemma place_stop_spends symbol stop l w :
  held_stop_of stop →
  wp (MainFixed.place_stop symbol stop l) w
     (λ out w', room 2 w (trace w')
        ∧ match out with
          | Ret (l', _) => MainFixed.entry_filled l' = MainFixed.entry_filled l
          | _ => True
          end).
Proof.
  intros Hstop. unfold MainFixed.place_stop, json_any, json_get.
  assert (Hst : ∀ v, MainFixed.entry_filled
            (let '(t, grew) := MainFixed.set_item (MainFixed.order_tracking l) "STOP" v in
             ({| MainFixed.entry_filled := MainFixed.entry_filled l;
                 MainFixed.order_tracking := t |}, grew)).1
            = MainFixed.entry_filled l).
  { intros v. by destruct (MainFixed.set_item _ _ _). }
  wp_step. wp_step.
  destruct (stop !! "action") as [a|] eqn:Ha; [destruct (stop !! "orderQty") as [q|] eqn:Hq|].
  1: { wp_step. eapply wp_mono; [apply (place_order_spends held_stop_of); by destruct Hstop|].
       intros out w1 Hs1. cbn beta in Hs1. destruct out as [result|e|].
       all: wp_run; world_simpl; (split; [spend | try done]).
       all: try match goal with
            | |- context [MainFixed.set_item ?t ?k ?v] =>
                pose proof (Hst v) as Hst'; by destruct (MainFixed.set_item t k v)
            end. }
  all: wp_run; world_simpl; (split; [spend | try done]).
  all: match goal with
       | |- context [MainFixed.set_item ?t ?k ?v] =>
           pose proof (Hst v) as Hst'; by destruct (MainFixed.set_item t k v)
       end.
Qed.

Definition fixed_room (w0 : world) (out : outcome MainFixed.pass) (w' : world) : Prop :=
  match out with
  | Ret (MainFixed.Completed l' _) | Ret (MainFixed.Excepted l')
  | Ret (MainFixed.Returned _ l') => room (fixed_budget l') w0 (trace w')
  | _ => room 2 w0 (trace w')
  end.

Lemma fixed_exit_leg_quiet other l why w :
  wp (MainFixed.exit_leg other l why) w
     (λ out w', quiet w (trace w')
        ∧ match out with
          | Ret (MainFixed.Returned _ l') | Ret (MainFixed.Excepted l') => l' = l
          | _ => False
          end).
Proof. unfold MainFixed.exit_leg. wp_run; (split; [hush | done]). Qed.

Lemma order_status_quiet order_id w :
  wp (Main.order_status order_id) w (λ _ w', quiet w (trace w')).
Proof. unfold Main.order_status, json_any, json_get. wp_run; hush. Qed.

Lemma fixed_poll_spends todo : ∀ pos symbol l active w0 w,
  room (fixed_budget l) w0 (trace w) →
  wp (MainFixed.poll todo pos symbol sod l active) w (fixed_room w0).
Proof.
  induction todo as [|k IH]; intros pos symbol l active w0 w Hroom;
    cbn [MainFixed.poll].
  - by wp_run.
  - destruct (nth_error (MainFixed.order_tracking l) pos) as [[label order_id]|];
      [|by wp_run].
    destruct (is_none order_id); [by apply IH|].
    wp_step. wp_step. eapply wp_mono; [apply order_status_quiet|].
    intros out w1 Hq1. cbn beta in Hq1.
    assert (Hroom1 : room (fixed_budget l) w0 (trace w1)) by by eapply spent_quiet.
    assert (Hroom1' : room 2 w0 (trace w1)).
    { eapply spent_mono; [|exact Hroom1]. unfold fixed_budget. destruct (MainFixed.entry_filled l); lia. }
    destruct out as [st|e|]; [|by wp_run|done].
    cbn beta iota.
    destruct (py_eq st (PStr "Filled")); [|wp_run; by apply IH].
    destruct (String.eqb label "ENTRY" && negb (MainFixed.entry_filled l)) eqn:He.
    + apply andb_true_iff in He as [_ He]. apply negb_true_iff in He.
      unfold fixed_budget in Hroom1. rewrite He in Hroom1.
      destruct (negb (Main.no_data sod)) eqn:Hd.
      * assert (Hstop : held_stop_of (default ∅ sod)).
        { unfold held_stop_of, Main.no_data in *. destruct sod as [d|]; [|done]. cbn.
          apply negb_true_iff in Hd. split; [done|]. by apply bool_decide_eq_false in Hd. }
        wp_step. eapply wp_mono; [by apply place_stop_spends|].
        intros out w2 [Hs2 Hout]. cbn beta.
        assert (Hroom2 : room 2 w0 (trace w2)).
        { change 2%nat with (0 + 2)%nat. by eapply spent_trans. }
        destruct out as [[l2 grew]| |]; [|done..]. cbn in Hout.
        destruct grew; [wp_run; unfold fixed_room, fixed_budget; by rewrite Hout|].
        apply IH. unfold fixed_budget. by rewrite Hout.
      * apply IH. unfold fixed_budget. cbn. eapply spent_mono; [|done]. lia.
    + assert (Hexit : ∀ other why,
                wp (MainFixed.exit_leg other l why) w1 (fixed_room w0)).
      { intros other why. eapply wp_mono; [apply fixed_exit_leg_quiet|].
        intros out w2 [Hq2 Hout]. destruct out as [[| |]| |]; try done; subst;
          by eapply spent_quiet. }
      wp_run; auto.
Qed.

Lemma fixed_budget_le l : (fixed_budget l ≤ 2)%nat.
Proof. unfold fixed_budget. destruct (MainFixed.entry_filled l); lia. Qed.

Lemma fixed_monitor_loop_spends fuel : ∀ symbol l w0 w,
  room (fixed_budget l) w0 (trace w) →
  wp (MainFixed.monitor_loop fuel symbol sod l) w (λ _ w', room 2 w0 (trace w')).
Proof.
  induction fuel as [|fuel IH]; intros symbol l w0 w Hroom;
    cbn [MainFixed.monitor_loop].
  - wp_run. eapply spent_mono; [apply fixed_budget_le | done].
  - wp_step. eapply wp_mono; [by apply fixed_poll_spends|].
    intros out w1 Hout. unfold fixed_room in Hout.
    destruct out as [[l' act|why l'|l']| |]; try done.
    + wp_run; world_simpl.
      * apply spent_cons; [|done].
        eapply spent_mono; [apply fixed_budget_le | done].
      * apply IH. world_simpl. by apply spent_cons.
    + wp_run. eapply spent_mono; [apply fixed_budget_le | done].
    + wp_run. apply IH. world_simpl. by repeat apply spent_cons.
Qed.

End Fixed.

(** The monitor of main_fixed.py places nothing but the stop it was
    handed, and that at most twice (through the adapter and, when that
    raises, once more directly), however long it runs.  Without a stop,
    or with an empty one, it places nothing. *)
Theorem fixed_monitor_places_only_the_stop fuel t symbol sod w :
  ∃ evs,
    trace (MainFixed.monitor_all_orders fuel t symbol sod w).2 = evs ++ trace w
    ∧ Forall (λ p, sod = Some p ∧ p ≠ ∅) (placed evs)
    ∧ (List.length (placed evs) ≤ 2)%nat.
Proof.
  apply (fixed_monitor_loop_spends sod fuel symbol
           {| MainFixed.entry_filled := false; MainFixed.order_tracking := t |} w w).
  apply quiet_spent, quiet_base.
Qed.

Section Enhanced.
Variable sod : option dict.

(** The payloads the monitor of enhanced_main.py may place. *)
Definition complete_stop_of (p : dict) : Prop :=
  sod = Some p ∧ forallb (contains p) EnhancedMain.required_fields = true.

Local Abbreviation room := (spent complete_stop_of).

Definition enhanced_budget (l : MainFixed.locals) : nat :=
  if MainFixed.entry_filled l then 1%nat else 0%nat.

Lemma place_stop_loss_order_spends stop w :
  sod = Some stop →
  wp (EnhancedMain.place_stop_loss_order stop) w
     (λ out w', room 1 w (trace w') ∧ ∃ v, out = Ret v).
Proof.
  intros Hsod. unfold EnhancedMain.place_stop_loss_order, json_any.
  destruct (forallb (contains stop) EnhancedMain.required_fields) eqn:Hreq.
  - assert (Hstop : complete_stop_of stop) by done.
    wp_run; world_simpl; (split; [spend | eauto]).
  - wp_run; world_simpl; (split; [spend | eauto]).
Qed.

Definition enhanced_room (w0 : world) (out : outcome MainFixed.pass) (w' : world) : Prop :=
  match out with
  | Ret (MainFixed.Completed l' _) | Ret (MainFixed.Excepted l')
  | Ret (MainFixed.Returned _ l') => room (enhanced_budget l') w0 (trace w')
  | _ => room 1 w0 (trace w')
  end.

Lemma enhanced_budget_le l : (enhanced_budget l ≤ 1)%nat.
Proof. unfold enhanced_budget. destruct (MainFixed.entry_filled l); lia. Qed.

Lemma enhanced_exits_quiet l w :
  wp (EnhancedMain.exit_take_profit l) w
     (λ out w', quiet w (trace w')
        ∧ match out with
          | Ret (MainFixed.Returned _ l') | Ret (MainFixed.Excepted l') => l' = l
          | _ => False
          end)
  ∧ wp (EnhancedMain.exit_stop l) w
       (λ out w', quiet w (trace w')
          ∧ match out with
            | Ret (MainFixed.Returned _ l') | Ret (MainFixed.Excepted l') => l' = l
            | _ => False
            end).
Proof.
  unfold EnhancedMain.exit_take_profit, EnhancedMain.exit_stop.
  split; wp_run; (split; [hush | done]).
Qed.

Lemma enhanced_poll_spends todo : ∀ pos symbol l active w0 w,
  room (enhanced_budget l) w0 (trace w) →
  wp (EnhancedMain.poll todo pos symbol sod l active) w (enhanced_room w0).
Proof.
  induction todo as [|k IH]; intros pos symbol l active w0 w Hroom;
    cbn [EnhancedMain.poll].
  - by wp_run.
  - destruct (nth_error (MainFixed.order_tracking l) pos) as [[label order_id]|];
      [|by wp_run].
    destruct (is_none order_id); [by apply IH|].
    wp_step. wp_step. eapply wp_mono; [apply order_status_quiet|].
    intros out w1 Hq1. cbn beta in Hq1.
    assert (Hroom1 : room (enhanced_budget l) w0 (trace w1)) by by eapply spent_quiet.
    assert (Hroom1' : room 1 w0 (trace w1)).
    { eapply spent_mono; [apply enhanced_budget_le | exact Hroom1]. }
    destruct out as [st|e|]; [|by wp_run|done].
    cbn beta iota.
    destruct (Main.filled_ci st) as [[]|]; [|wp_run; by apply IH|by wp_run].
    destruct (String.eqb label "ENTRY" && negb (MainFixed.entry_filled l)) eqn:He.
    + apply andb_true_iff in He as [_ He]. apply negb_true_iff in He.
      unfold enhanced_budget in Hroom1. rewrite He in Hroom1.
      cbn zeta.
      destruct (negb (Main.no_data sod)) eqn:Hd.
      * assert (Hsod : sod = Some (default ∅ sod)).
        { unfold Main.no_data in Hd. by destruct sod. }
        wp_step. eapply wp_mono; [by apply place_stop_loss_order_spends|].
        intros out w2 [Hs2 [stop_id ->]]. cbn beta iota.
        assert (Hroom2 : room 1 w0 (trace w2)).
        { change 1%nat with (0 + 1)%nat. by eapply spent_trans. }
        destruct (truthy stop_id).
        -- cbn [MainFixed.order_tracking].
           destruct (MainFixed.set_item (MainFixed.order_tracking l) "STOP" stop_id)
             as [t' grew].
           destruct grew; [by wp_run|]. by apply IH.
        -- wp_run. apply IH. world_simpl. by apply spent_cons.
      * wp_run. apply IH. world_simpl. apply spent_cons; [|done].
        eapply spent_mono; [|done]. cbn. lia.
    + destruct (enhanced_exits_quiet l w1) as [Htp Hst].
      assert (Hexit : ∀ m,
                wp m w1 (λ out w', quiet w1 (trace w')
                  ∧ match out with
                    | Ret (MainFixed.Returned _ l') | Ret (MainFixed.Excepted l') => l' = l
                    | _ => False
                    end) →
                wp m w1 (enhanced_room w0)).
      { intros m Hm. eapply wp_mono; [exact Hm|].
        intros out w2 [Hq2 Hout]. destruct out as [[| |]| |]; try done; subst;
          by eapply spent_quiet. }
      wp_run; auto.
Qed.

Lemma enhanced_monitor_loop_spends fuel : ∀ symbol start l w0 w,
  room (enhanced_budget l) w0 (trace w) →
  wp (EnhancedMain.monitor_loop fuel symbol sod start l) w (λ _ w', room 1 w0 (trace w')).
Proof.
  induction fuel as [|fuel IH]; intros symbol start l w0 w Hroom;
    cbn [EnhancedMain.monitor_loop].
  - wp_run. eapply spent_mono; [apply enhanced_budget_le | done].
  - wp_step. eapply wp_mono; [by apply enhanced_poll_spends|].
    intros out w1 Hout. unfold enhanced_room in Hout.
    destruct out as [[l' act|why l'|l']| |]; try done.
    + wp_run; world_simpl.
      * apply spent_cons; [|done].
        eapply spent_mono; [apply enhanced_budget_le | done].
      * apply spent_cons; [|done].
        eapply spent_mono; [apply enhanced_budget_le | done].
      * apply IH. world_simpl. by apply spent_cons.
    + wp_run. eapply spent_mono; [apply enhanced_budget_le | done].
    + wp_run. apply IH. world_simpl. by repeat apply spent_cons.
Qed.

End Enhanced.

(** The monitor of enhanced_main.py places at most one order, however
    long it runs: the stop it was handed, and only when that has all six
    required fields. *)
Theorem enhanced_monitor_places_the_stop_at_most_once fuel t symbol sod w :
  ∃ evs,
    trace (EnhancedMain.monitor_all_orders fuel t symbol sod w).2 = evs ++ trace w
    ∧ Forall (λ p, sod = Some p
                   ∧ forallb (contains p) EnhancedMain.required_fields = true)
        (placed evs)
    ∧ (List.length (placed evs) ≤ 1)%nat.
Proof.
  unfold EnhancedMain.monitor_all_orders.
  assert (Hwp : wp (EnhancedMain.monitor_all_orders fuel t symbol sod) w
                  (λ _ w', spent (complete_stop_of sod) 1 w (trace w'))).
  { unfold EnhancedMain.monitor_all_orders. wp_step. wp_step.
    apply enhanced_monitor_loop_spends. world_simpl. apply quiet_spent, quiet_base. }
  exact Hwp.
Qed.

Section Bracket.

Definition is_oso (e : event) : bool :=
  match e with
  | Call (POST_order_placeOSO _ _) _ => true
  | _ => false
  end.

(** [t] is the trace of [w] with newer events in front, among them no
    plain order placement and at most [n] OSO placements. *)
Definition bracketed (n : nat) (w : world) (t : list event) : Prop :=
  ∃ evs, t = evs ++ trace w
         ∧ placed evs = [] ∧ (List.length (List.filter is_oso evs) ≤ n)%nat.

Lemma bracketed_base n w : bracketed n w (trace w).
Proof. exists []. cbn. split_and!; [done..|lia]. Qed.

Lemma bracketed_cons n w t e :
  bracketed n w t → is_placement e = false → is_oso e = false → bracketed n w (e :: t).
Proof.
  intros (evs & -> & Hp & Hn) He Ho. exists (e :: evs). cbn. rewrite Ho.
  destruct e as [[] a| | |]; cbn in *; done.
Qed.

Lemma bracketed_oso n w t p b a :
  bracketed n w t → bracketed (S n) w (Call (POST_order_placeOSO p b) a :: t).
Proof.
  intros (evs & -> & Hp & Hn). exists (Call (POST_order_placeOSO p b) a :: evs).
  cbn. split_and!; [done..|lia].
Qed.

Lemma bracketed_mono n m w t : (n ≤ m)%nat → bracketed n w t → bracketed m w t.
Proof. intros Hnm (evs & -> & Hp & Hn). exists evs. split_and!; [done..|lia]. Qed.

Definition main_budget (l : Main.locals) : nat :=
  if Main.entry_filled l then 1%nat else 0%nat.

Lemma main_budget_le l : (main_budget l ≤ 1)%nat.
Proof. unfold main_budget. destruct (Main.entry_filled l); lia. Qed.

Definition main_room (w0 : world) (out : outcome Main.pass) (w' : world) : Prop :=
  match out with
  | Ret (Main.Completed l' _) | Ret (Main.Excepted l') =>
      bracketed (main_budget l') w0 (trace w')
  | _ => bracketed 1 w0 (trace w')
  end.

End Bracket.

Ltac bracket :=
  repeat first
    [ assumption
    | (apply bracketed_cons; [|reflexivity..])
    | apply bracketed_oso
    | (eapply bracketed_mono; [|eassumption]; lia)
    | apply bracketed_base ].

Section MainBracket.

Lemma place_oso_brackets n w0 stop w :
  bracketed n w0 (trace w) →
  wp (Main.place_oso stop) w
     (λ out w', bracketed (S n) w0 (trace w') ∧ ∃ b, out = Ret b).
Proof.
  intros Hroom. unfold Main.place_oso, json_any.
  wp_run; world_simpl; (split; [bracket | eauto]).
Qed.

Lemma main_exit_leg_brackets n w0 order_tracking symbol sod other l why w :
  bracketed n w0 (trace w) →
  wp (Main.exit_leg order_tracking symbol sod other l why) w
     (λ out w', bracketed n w0 (trace w')
        ∧ match out with
          | Ret (Main.Returned _) => True
          | Ret (Main.Excepted l') => l' = l
          | _ => False
          end).
Proof.
  intros Hroom. unfold Main.exit_leg, Main.mark_completed.
  wp_run; world_simpl; (split; [bracket | done]).
Qed.

Lemma main_order_status_brackets n w0 order_id w :
  bracketed n w0 (trace w) →
  wp (Main.order_status order_id) w (λ _ w', bracketed n w0 (trace w')).
Proof.
  intros Hroom. unfold Main.order_status, json_any, json_get.
  wp_run; world_simpl; bracket.
Qed.

Lemma main_poll_brackets items : ∀ order_tracking symbol sod l active w0 w,
  bracketed (main_budget l) w0 (trace w) →
  wp (Main.poll items order_tracking symbol sod l active) w (main_room w0).
Proof.
  induction items as [|[label order_id] rest IH];
    intros order_tracking symbol sod l active w0 w Hroom; cbn [Main.poll].
  - by wp_run.
  - destruct (is_none order_id); [by apply IH|].
    wp_step. wp_step. eapply wp_mono; [by apply main_order_status_brackets|].
    intros out w1 Hroom1. cbn beta in Hroom1.
    assert (Hroom1' : bracketed 1 w0 (trace w1)).
    { eapply bracketed_mono; [apply main_budget_le | done]. }
    destruct out as [st|e|]; [|by wp_run|done].
    cbn beta iota zeta.
    assert (Hexit : ∀ other why,
              wp (Main.exit_leg order_tracking symbol sod other l why) w1 (main_room w0)).
    { intros other why.
      eapply wp_mono; [by apply (main_exit_leg_brackets (main_budget l))|].
      intros out w2 [Hb Hout]. destruct out as [[| |]| |]; try done.
      - cbn. eapply bracketed_mono; [apply main_budget_le | done].
      - by subst. }
    destruct (String.eqb label "ENTRY").
    + destruct (Main.filled_ci st) as [[]|]; [|wp_run; by apply IH|by wp_run].
      destruct (negb (Main.entry_filled l)) eqn:He; [|wp_run; by apply IH].
      apply negb_true_iff in He. unfold main_budget in Hroom1. rewrite He in Hroom1.
      destruct (_ && _).
      * wp_step. eapply wp_mono; [by apply (place_oso_brackets 0 w0)|].
        intros out w2 [Hb [b ->]]. cbn beta iota. by apply IH.
      * apply IH. cbn. eapply bracketed_mono; [|done]. lia.
    + wp_run; auto.
Qed.

Lemma main_monitor_loop_brackets fuel : ∀ order_tracking symbol sod start l w0 w,
  bracketed (main_budget l) w0 (trace w) →
  wp (Main.monitor_loop fuel order_tracking symbol sod start l) w
     (λ _ w', bracketed 1 w0 (trace w')).
Proof.
  induction fuel as [|fuel IH]; intros order_tracking symbol sod start l w0 w Hroom;
    cbn [Main.monitor_loop].
  - wp_run. eapply bracketed_mono; [apply main_budget_le | done].
  - wp_step. eapply wp_mono; [by apply main_poll_brackets|].
    intros out w1 Hout. unfold main_room in Hout.
    assert (Hle : ∀ l', bracketed (main_budget l') w0 (trace w1) →
                        bracketed 1 w0 (trace w1)).
    { intros l' Hb. eapply bracketed_mono; [apply main_budget_le | done]. }
    destruct out as [[l' act|why|l']| |]; try done.
    + wp_run; world_simpl.
      * apply bracketed_cons; [by eapply Hle|done..].
      * apply bracketed_cons; [by eapply Hle|done..].
      * apply IH. world_simpl. by apply bracketed_cons.
    + wp_run. apply IH. world_simpl. by repeat (apply bracketed_cons; [|done..]).
Qed.


End MainBracket.

End MonitorBudget.

(** ** Start-up of main.py *)

Section StartupFacts.
Context `{Runtime}.
Import TradovateClient.

Lemma get_positions_returns w : wp get_positions w (came_back w).
Proof.
  unfold get_positions, reraise, json_list. wp_step.
  eapply wp_mono; [apply ensure_token_returns|].
  intros out w1 [Hg Hns]. destruct out as [[]|e|]; [|by split|done].
  wp_run; (split; [grown | done]).
Qed.

Lemma get_pending_orders_returns w : wp get_pending_orders w (came_back w).
Proof.
  unfold get_pending_orders, reraise, json_list. wp_step.
  eapply wp_mono; [apply ensure_token_returns|].
  intros out w1 [Hg Hns]. destruct out as [[]|e|]; [|by split|done].
  wp_run; (split; [grown | done]).
Qed.

Lemma close_position_returns symbol w : wp (close_position symbol) w (came_back w).
Proof.
  unfold close_position, reraise, json_any. wp_step.
  eapply wp_mono; [apply ensure_token_returns|].
  intros out w1 [Hg Hns]. destruct out as [[]|e|]; [|by split|done].
  wp_step. wp_step. eapply wp_mono; [apply get_positions_returns|].
  intros out w2 [Hg2 Hns2]. destruct out as [positions|e|]; [| |done].
  - wp_run; (split; [grown | done]).
  - wp_run; (split; [grown | done]).
Qed.

Lemma close_each_returns positions : ∀ closed_positions w,
  wp (close_each positions closed_positions) w (came_back w).
Proof.
  induction positions as [|position rest IH]; intros closed_positions w;
    cbn [close_each].
  - wp_run. split; [grown | done].
  - destruct (_ && _); [|apply IH].
    wp_step. wp_step. eapply wp_mono; [apply close_position_returns|].
    intros out w1 [Hg Hns]. destruct out as [result|e|]; [| |done].
    + eapply wp_mono; [apply IH|]. intros o w2 [Hg2 Hns2]. split; [grown | done].
    + wp_step. wp_step. eapply wp_mono; [apply IH|].
      intros o w2 [Hg2 Hns2]. split; [|done].
      eapply extends_trans; [|exact Hg2]. grown.
Qed.

Lemma close_all_positions_returns w : wp close_all_positions w (came_back w).
Proof.
  unfold close_all_positions. wp_step. wp_step.
  eapply wp_mono; [apply get_positions_returns|].
  intros out w1 [Hg Hns]. destruct out as [positions|e|]; [| |done].
  - eapply wp_mono; [apply close_each_returns|].
    intros o w2 [Hg2 Hns2]. destruct o as [r|e|]; [| |done].
    + split; [grown | done].
    + wp_run. split; [|done]. eapply extends_trans; [|apply extends_cons, extends_base].
      world_simpl. grown.
  - wp_run. split; [grown | done].
Qed.

Lemma cancel_each_returns pending : ∀ cancelled w,
  wp (cancel_each pending cancelled) w (came_back w).
Proof.
  induction pending as [|order rest IH]; intros cancelled w; cbn [cancel_each].
  - wp_run. split; [grown | done].
  - cbn zeta. destruct (truthy _); [|apply IH].
    wp_step. wp_step. eapply wp_mono; [apply cancel_order_returns|].
    intros out w1 [Hg Hns]. destruct out as [result|e|]; [| |done].
    + eapply wp_mono; [apply IH|]. intros o w2 [Hg2 Hns2]. split; [grown | done].
    + assert (Hlog : wp (log (LogCancelFailed (get order "id"));; cancel_each rest cancelled)
                       w1 (came_back w)).
      { wp_step. wp_step. eapply wp_mono; [apply IH|].
        intros o w2 [Hg2 Hns2]. split; [|done].
        eapply extends_trans; [|exact Hg2]. grown. }
      destruct e as [resp|code detail|kind]; [exact Hlog| |exact Hlog].
      destruct (code =? 404); [|exact Hlog].
      eapply wp_mono; [apply IH|]. intros o w2 [Hg2 Hns2]. split; [grown | done].
Qed.

Lemma cancel_all_pending_orders_returns w :
  wp cancel_all_pending_orders w (came_back w).
Proof.
  unfold cancel_all_pending_orders. wp_step. wp_step.
  eapply wp_mono; [apply get_pending_orders_returns|].
  intros out w1 [Hg Hns]. destruct out as [pending|e|]; [| |done].
  - eapply wp_mono; [apply cancel_each_returns|].
    intros o w2 [Hg2 Hns2]. destruct o as [r|e|]; [| |done].
    + split; [grown | done].
    + wp_run. split; [|done]. world_simpl. apply extends_cons. grown.
  - wp_run. split; [grown | done].
Qed.

(** [startup_event] fails exactly when its own call of [authenticate]
    fails, and then with the same exception and nothing more done than
    logging it.  Once [authenticate] has returned, start-up returns
    whatever the sweeps do; and when the position sweep raises, the sweep
    of pending orders is not started (the run ends with the warning, right
    after the position sweep). *)
Theorem startup_fails_only_with_authentication w :
  let a := TradovateApi.authenticate w in
  let r := MainStartup.startup_event w in
  match a.1 with
  | Raise e =>
      r.1 = Raise e
      ∧ r.2 = record (Logged (LogError "Traceback"))
                (record (Logged (LogError "Error"))
                   (record (Logged (LogError "=== AUTHENTICATION FAILED ===")) a.2))
  | Ret _ =>
      r.1 = Ret ()
      ∧ (∀ e, (close_all_positions a.2).1 = Raise e →
              r.2 = record (Logged (LogWarning "Startup cleanup failed (non-critical)"))
                      (close_all_positions a.2).2)
  | Spin => False
  end.
Proof.
  intros a r. subst a r.
  destruct (authenticate_from_ends 5 0 w) as [_ Hends].
  change (TradovateApi.authenticate_from 0 5) with TradovateApi.authenticate in Hends.
  unfold MainStartup.startup_event, try_except, attempt, mbind, M_bind, log, emit, raise.
  destruct (TradovateApi.authenticate w) as [[[]|e|] w1]; cbn in *; [|done..].
  pose proof (close_all_positions_returns w1) as [_ Hc]. cbn beta in Hc.
  destruct (close_all_positions w1) as [[closed_positions|e|] w2]; cbn in *; [| |done].
  - pose proof (cancel_all_pending_orders_returns w2) as [_ Hp]. cbn beta in Hp.
    destruct (cancel_all_pending_orders w2) as [[cancelled|e|] w3]; cbn in *; [| |done].
    + split; [done|]. by intros e.
    + split; [done|]. by intros e'.
  - split; [done|]. by intros e'.
Qed.

End StartupFacts.

(** ** The same-direction guard of enhanced_main.py *)

Section EnhancedGuardFacts.
Import EnhancedHead.

Lemma py_eq_str_r k s : py_eq k (PStr s) = true → k = PStr s.
Proof.
  destruct k as [|b|n|x|t]; cbn; try done.
  by intros ->%String.eqb_eq.
Qed.

Lemma py_eq_str_l k s : py_eq (PStr s) k = true → k = PStr s.
Proof.
  destruct k as [|b|n|x|t]; cbn; try done.
  by intros ->%String.eqb_eq.
Qed.

Lemma py_eq_str_refl s : py_eq (PStr s) (PStr s) = true.
Proof. cbn. apply String.eqb_refl. Qed.

Lemma dict_get_set s v la : dict_get (PStr s) (dict_set (PStr s) v la) = Some v.
Proof.
  induction la as [|[k v'] la IH]; cbn.
  - by rewrite String.eqb_refl.
  - destruct (py_eq k (PStr s)) eqn:Hk; cbn; by rewrite Hk.
Qed.

Lemma dict_get_set_other s k v la :
  py_eq k (PStr s) = false → dict_get (PStr s) (dict_set k v la) = dict_get (PStr s) la.
Proof.
  intros Hk. induction la as [|[k' v'] la IH]; cbn.
  - by rewrite Hk.
  - destruct (py_eq k' k) eqn:Hk'; cbn; [|by rewrite IH].
    destruct (py_eq k' (PStr s)) eqn:Hs; [|done].
    apply py_eq_str_r in Hs. subst k'. apply py_eq_str_l in Hk'. subst k.
    by rewrite py_eq_str_refl in Hk.
Qed.

(** An alert filed under another symbol leaves the entry of [s] alone. *)
Lemma head_other secret now data la s :
  py_eq (filed_under data) (PStr s) = false →
  dict_get (PStr s) (head secret now data la).2 = dict_get (PStr s) la.
Proof.
  unfold head, filed_under. intros Hk. destruct secret; [|done].
  destruct (_ || _); [done|]. cbn zeta.
  destruct (get data "action"); try done.
  destruct (dict_get _ la) as [last|]; [destruct (String.eqb _ _); [done|]|];
    cbn; by apply dict_get_set_other.
Qed.

Lemma run_other secret history : ∀ la s,
  Forall (λ h, py_eq (filed_under h.2) (PStr s) = false) history →
  dict_get (PStr s) (run secret history la) = dict_get (PStr s) la.
Proof.
  unfold run. induction history as [|[t d] history IH]; intros la s Hall; cbn; [done|].
  apply Forall_cons in Hall as [Hd Hall]. rewrite IH by done. by apply head_other.
Qed.

(** Once the head has reached its guard with an alert for [s] in
    direction [a1], the entry of [s] says so, whether the alert was
    accepted or ignored. *)
Lemma head_files secret now data la s a1 v :
  filed_under data = PStr s →
  get data "action" = PStr a1 →
  (head secret now data la).1 = inr v →
  ∃ t, dict_get (PStr s) (head secret now data la).2
       = Some {| direction := lower a1; timestamp := t |}.
Proof.
  unfold head, filed_under. intros Hs Ha. destruct secret; [|done].
  destruct (_ || _); [done|]. cbn zeta. rewrite Hs, Ha.
  destruct (dict_get (PStr s) la) as [[dir t]|] eqn:Hl; cbn [EnhancedHead.direction].
  - destruct (String.eqb dir (lower a1)) eqn:Hd; cbn; intros _.
    + apply String.eqb_eq in Hd. subst dir. by exists t.
    + exists now. apply dict_get_set.
  - cbn. intros _. exists now. apply dict_get_set.
Qed.

(** The guard of enhanced_main.py has no window.  After an alert for a
    symbol has passed the checks of the head (accepted or ignored), and
    after any number of alerts filed under other symbols, the next alert
    for that symbol is ignored exactly when its action, lower-cased, is
    that of the earlier one: however much time lies between the two, and
    whatever became of the first after the head. *)
Theorem same_direction_is_ignored_until_reversed
    secret la t1 d1 v1 between t2 d2 s a1 a2 :
  filed_under d1 = PStr s → get d1 "action" = PStr a1 →
  (head secret t1 d1 la).1 = inr v1 →
  Forall (λ h, py_eq (filed_under h.2) (PStr s) = false) between →
  filed_under d2 = PStr s → get d2 "action" = PStr a2 → a2 ≠ EmptyString →
  let la1 := (head secret t1 d1 la).2 in
  let la2 := run secret between la1 in
  ((head secret t2 d2 la2).1 = inr Ignored ↔ lower a2 = lower a1)
  ∧ ((head secret t2 d2 la2).1 = inr (Accepted (PStr s) a2) ↔ lower a2 ≠ lower a1).
Proof.
  intros Hs1 Ha1 Hv1 Hbetween Hs2 Ha2 Hne la1 la2.
  destruct (head_files secret t1 d1 la s a1 v1 Hs1 Ha1 Hv1) as [t Hfiled].
  assert (Hl2 : dict_get (PStr s) la2 = Some {| direction := lower a1; timestamp := t |}).
  { subst la2. by rewrite run_other. }
  assert (Hsecret : ∃ x, secret = Some x).
  { unfold head in Hv1. destruct secret; [eauto|done]. }
  destruct Hsecret as [x ->].
  assert (Hs : s ≠ EmptyString).
  { intros ->. unfold head, filed_under, MainFixed.map_symbol in Hv1, Hs1.
    destruct (get d1 "symbol") as [|b|n|f|sym]; cbn in Hs1, Hv1; try done.
    destruct sym; [done|]. by destruct (_ || _). }
  assert (Hsym : truthy (get d2 "symbol") = true).
  { unfold filed_under, MainFixed.map_symbol in Hs2.
    destruct (get d2 "symbol") as [|b|n|f|sym] eqn:Hg; cbn in Hs2; try done.
    cbn. destruct sym; [|done]. cbn in Hs2. by injection Hs2 as <-. }
  unfold head. fold (filed_under d2). rewrite Hsym, Ha2, Hs2, Hl2.
  assert (Ht : truthy (PStr a2) = true) by (by destruct a2).
  rewrite Ht. cbn [negb orb EnhancedHead.direction].
  destruct (String.eqb_spec (lower a1) (lower a2)) as [He|He]; cbn [fst].
  - split; (split; [intros Hd|intros Hd]); done.
  - split; (split; [intros Hd|intros Hd]); done.
Qed.

End EnhancedGuardFacts.

Lemma same_direction_is_ignored_until_reversed_witness :
  let other := <["symbol" := PStr "ESM5"]> Examples.sell_alert in
  let la1 := (EnhancedHead.head (Some "secret") 0 Examples.buy_alert []).2 in
  let la2 := EnhancedHead.run (Some "secret") [(5, other)] la1 in
  (EnhancedHead.head (Some "secret") 86400 Examples.buy_alert la2).1
  = inr EnhancedHead.Ignored.
Proof.
  intros other la1 la2.
  refine (proj2 (proj1 (same_direction_is_ignored_until_reversed (Some "secret") [] 0
              Examples.buy_alert (EnhancedHead.Accepted (PStr "NQM5") "Buy")
              [(5, other)] 86400 Examples.buy_alert "NQM5" "Buy" "Buy"
              eq_refl eq_refl eq_refl _ eq_refl eq_refl _)) eq_refl).
  - by repeat constructor.
  - done.
Defined.
